(** * SafeRoute: safety scoring engine and community feedback store

    A shallow embedding of [src/services/safetyScorer.ts] (the relative
    safety scoring engine) and of the Firebase location feedback service
    (grid indexing, area scores, submission eligibility, route community
    score), with the properties of the specification stated over it.

    Number model.  A JavaScript [number] is modelled as an exact rational
    ([Q]); every constant in the source is a decimal literal and is written
    here with the same digits.  Integer-valued numbers that the source
    produces with [Math.round], [Math.ceil], [findIndex] or [length] are
    modelled as [Z].  [Math.round x] is [floor (x + 1/2)] (ties go up, as in
    JavaScript).  Rounding error of binary floating point is not modelled. *)

From Stdlib Require Import QArith Qround Qminmax Qabs Qpower ZArith List String Ascii Bool.
From Stdlib Require Import Lia Lqa Permutation Sorted DecimalString.
From Stdlib Require Import DecimalPos DecimalN.
Import ListNotations.

(** ** JavaScript built-ins used by the two services *)

Module JS.

Definition number := Q.

Definition leq (a b : Q) : bool := Qle_bool a b.
Definition lt (a b : Q) : bool := negb (Qle_bool b a).
Definition geq (a b : Q) : bool := Qle_bool b a.
Definition strict_eq (a b : Q) : bool := Qeq_bool a b.

(** [Math.round]: nearest integer, halves rounded towards plus infinity. *)
Definition Math_round (x : Q) : Z := Qfloor (x + (1 # 2)).

Definition Math_ceil (x : Q) : Z := Qceiling x.

(** [Math.min(...xs)] and [Math.max(...xs)].  On an empty argument list
    JavaScript answers [Infinity] and [-Infinity]; that answer is [None]. *)
Definition Math_min (xs : list Q) : option Q :=
  match xs with
  | [] => None
  | x :: rest => Some (fold_left Qmin rest x)
  end.

Definition Math_max (xs : list Q) : option Q :=
  match xs with
  | [] => None
  | x :: rest => Some (fold_left Qmax rest x)
  end.

(** [Array.prototype.findIndex]: position of the first element satisfying
    the predicate, [-1] when there is none. *)
Fixpoint findIndex_from {A : Type} (p : A -> bool) (xs : list A) (i : Z) : Z :=
  match xs with
  | [] => (-1)%Z
  | x :: rest => if p x then i else findIndex_from p rest (i + 1)%Z
  end.

Definition findIndex {A : Type} (p : A -> bool) (xs : list A) : Z :=
  findIndex_from p xs 0%Z.

(** [Array.prototype.sort] with a comparator.  The sort is stable (ES2019):
    an element is placed in front of the first element it does not compare
    greater than, so equal elements keep their input order. *)
Fixpoint sort_insert {A : Type} (cmp : A -> A -> Q) (x : A) (xs : list A) : list A :=
  match xs with
  | [] => [x]
  | y :: rest =>
      if leq (cmp x y) 0 then x :: y :: rest
      else y :: sort_insert cmp x rest
  end.

Fixpoint Array_sort {A : Type} (cmp : A -> A -> Q) (xs : list A) : list A :=
  match xs with
  | [] => []
  | x :: rest => sort_insert cmp x (Array_sort cmp rest)
  end.

(** [String.prototype.includes]. *)
Fixpoint includes (s sub : string) : bool :=
  String.prefix sub s ||
  match s with
  | EmptyString => false
  | String _ s' => includes s' sub
  end.

(** [Array.prototype.some]. *)
Definition some {A : Type} (p : A -> bool) (xs : list A) : bool := existsb p xs.

(** [Array.prototype.slice(0, n)]. *)
Definition slice0 {A : Type} (n : nat) (xs : list A) : list A := firstn n xs.

(** [Array.prototype.join]. *)
Fixpoint join (sep : string) (xs : list string) : string :=
  match xs with
  | [] => EmptyString
  | [x] => x
  | x :: rest => (x ++ sep ++ join sep rest)%string
  end.

(** [[...new Set(xs)]]: the distinct elements of [xs] in order of first
    occurrence. *)
Fixpoint unique_from (seen : list string) (xs : list string) : list string :=
  match xs with
  | [] => []
  | x :: rest =>
      if existsb (String.eqb x) seen then unique_from seen rest
      else x :: unique_from (x :: seen) rest
  end.

Definition Set_spread (xs : list string) : list string := unique_from [] xs.

(** Decimal digits of a natural number. *)
Definition digits (n : Z) : string :=
  NilZero.string_of_uint (N.to_uint (Z.to_N n)).

End JS.

(** ** The scoring engine, [safetyScorer.ts] *)

Module SafetyScorer.
Import JS.

Local Open Scope Q_scope.

Inductive WeatherCondition := clear | cloudy | rain | storm | fog.
Inductive CrimeLevel := low | medium | high.
Inductive LightingLevel := well_lit | partially_lit | dark.
Inductive RoadType := highway | main_road | residential | alley.
Inductive SafetyCategory := Safest_Option | Moderate_Option | Least_Safe_Option.

Record RouteInputData := {
  routeId : string;
  distanceKm : number;
  durationMin : number;
  turnCount : number;
  roadType : option RoadType;
  crimeLevel : option CrimeLevel;
  lightingLevel : option LightingLevel
}.

Record EnvironmentData := {
  currentHour : number;
  weatherCondition : WeatherCondition
}.

Record RiskFactors := {
  distanceRisk : number;
  durationRisk : number;
  turnRisk : number;
  timeRisk : number;
  weatherRisk : number;
  crimeRisk : number;
  lightingRisk : number;
  roadTypeRisk : number;
  totalRawRisk : number
}.

Record SafetyResult := {
  res_routeId : string;
  safetyScore : Z;
  rawRiskScore : Z;
  safetyCategory : SafetyCategory;
  explanation : string;
  riskFactors : RiskFactors;
  highlights : list string;
  recommendations : list string;
  rank : Z;
  isRelativeScore : bool
}.

(** [WEIGHTS] *)
Record Weights := {
  w_crime : Q; w_lighting : Q; w_time : Q; w_distance : Q;
  w_duration : Q; w_roadType : Q; w_weather : Q; w_turn : Q
}.

Definition WEIGHTS : Weights := {|
  w_crime := 0.25;
  w_lighting := 0.15;
  w_time := 0.15;
  w_distance := 0.10;
  w_duration := 0.10;
  w_roadType := 0.10;
  w_weather := 0.10;
  w_turn := 0.05
|}.

(** [RELATIVE_SCORE_RANGES] *)
Record ScoreRange := { range_min : Q; range_max : Q }.

Definition RANGE_safest : ScoreRange := {| range_min := 75; range_max := 92 |}.
Definition RANGE_moderate : ScoreRange := {| range_min := 58; range_max := 74 |}.
Definition RANGE_riskiest : ScoreRange := {| range_min := 42; range_max := 57 |}.

Definition calculateDistanceRisk (distanceKm : number) : number :=
  Qmin (distanceKm / 10) 1.

Definition calculateDurationRisk (durationMin : number) : number :=
  Qmin (durationMin / 30) 1.

Definition calculateTurnRisk (turnCount : number) : number :=
  Qmin (turnCount / 20) 1.

Definition calculateTimeRisk (hour : number) : number :=
  if geq hour 22 || leq hour 5 then 1.0
  else if geq hour 19 || leq hour 7 then 0.6
  else 0.2.

(** The four lookup tables are total on their key type, so the [?? default]
    of the source is never taken for a typed key. *)
Definition calculateWeatherRisk (weather : WeatherCondition) : number :=
  match weather with
  | clear => 0.1
  | cloudy => 0.3
  | rain => 0.6
  | storm => 0.9
  | fog => 0.9
  end.

Definition calculateCrimeRisk (c : CrimeLevel) : number :=
  match c with
  | low => 0.2
  | medium => 0.5
  | high => 0.9
  end.

Definition calculateLightingRisk (l : LightingLevel) : number :=
  match l with
  | well_lit => 0.2
  | partially_lit => 0.5
  | dark => 0.9
  end.

Definition calculateRoadTypeRisk (r : RoadType) : number :=
  match r with
  | highway => 0.3
  | main_road => 0.4
  | residential => 0.6
  | alley => 0.8
  end.

Definition getSafetyCategory (rank totalRoutes : Z) : SafetyCategory :=
  if (totalRoutes =? 1)%Z then Safest_Option
  else if (rank =? 1)%Z then Safest_Option
  else if (rank =? totalRoutes)%Z then Least_Safe_Option
  else Moderate_Option.

(** The text a [WeatherCondition] has inside a template literal. *)
Definition weather_text (w : WeatherCondition) : string :=
  match w with
  | clear => "clear"
  | cloudy => "cloudy"
  | rain => "rain"
  | storm => "storm"
  | fog => "fog"
  end.

(** [if (c) xs.push(s)] *)
Definition push_if (c : bool) (s : string) (xs : list string) : list string :=
  if c then xs ++ [s] else xs.

Definition generateExplanation (rf : RiskFactors) (rank totalRoutes : Z)
    (_environment : EnvironmentData) : string :=
  let parts :=
    if (rank =? 1)%Z then ["This is the SAFEST option among available routes"%string]
    else if (rank =? totalRoutes)%Z then
      ["This route has the highest relative risk among alternatives"%string]
    else ["This route offers a balanced option between safety and convenience"%string] in
  let keyFactors : list string := [] in
  let keyFactors :=
    if geq (crimeRisk rf) 0.7 then keyFactors ++ ["higher crime area"%string]
    else push_if (leq (crimeRisk rf) 0.3) "lower crime area" keyFactors in
  let keyFactors :=
    if geq (lightingRisk rf) 0.7 then keyFactors ++ ["limited lighting"%string]
    else push_if (leq (lightingRisk rf) 0.3) "well-lit streets" keyFactors in
  let keyFactors :=
    if geq (timeRisk rf) 0.8 then keyFactors ++ ["late night travel"%string]
    else push_if (leq (timeRisk rf) 0.3) "daytime travel" keyFactors in
  let keyFactors :=
    if geq (distanceRisk rf) 0.7 then keyFactors ++ ["longer distance"%string]
    else push_if (leq (distanceRisk rf) 0.3) "shorter distance" keyFactors in
  let parts :=
    if (0 <? List.length keyFactors)%nat
    then parts ++ [("Key factors: " ++ join ", " keyFactors)%string]
    else parts in
  (join ". " parts ++ ".")%string.

Definition generateHighlights (rf : RiskFactors) (rank totalRoutes : Z)
    (environment : EnvironmentData) : list string :=
  let highlights : list string := [] in
  (* Rank-based highlight *)
  let highlights :=
    if (rank =? 1)%Z then highlights ++ ["✓ Safest among all alternatives"%string]
    else if (rank =? totalRoutes)%Z && (totalRoutes >? 1)%Z
    then highlights ++ ["⚠ Highest risk among alternatives"%string]
    else highlights in
  (* Positive highlights (low risk factors) *)
  let highlights := push_if (leq (crimeRisk rf) 0.3) "Lower crime area" highlights in
  let highlights := push_if (leq (lightingRisk rf) 0.3) "Well-lit streets" highlights in
  let highlights := push_if (leq (timeRisk rf) 0.3) "Safe travel time" highlights in
  let highlights := push_if (leq (roadTypeRisk rf) 0.4) "Main roads preferred" highlights in
  let highlights := push_if (leq (weatherRisk rf) 0.2) "Clear weather conditions" highlights in
  let highlights := push_if (leq (turnRisk rf) 0.3) "Straightforward route" highlights in
  let highlights := push_if (leq (distanceRisk rf) 0.3) "Short distance" highlights in
  (* Negative highlights (high risk factors) *)
  let highlights :=
    push_if (geq (crimeRisk rf) 0.7) "Higher crime area - stay alert" highlights in
  let highlights := push_if (geq (lightingRisk rf) 0.7) "Limited street lighting" highlights in
  let highlights := push_if (geq (timeRisk rf) 0.8) "Late night travel" highlights in
  let highlights :=
    push_if (geq (roadTypeRisk rf) 0.7) "Includes narrow streets/alleys" highlights in
  let highlights :=
    push_if (geq (weatherRisk rf) 0.7)
      (weather_text (weatherCondition environment) ++ " weather advisory") highlights in
  (* Ensure at least 3 highlights *)
  let highlights :=
    if (List.length highlights <? 3)%nat then
      let highlights :=
        push_if (negb (some (fun h => includes h "traffic") highlights))
          "Moderate traffic expected" highlights in
      push_if (negb (some (fun h => includes h "conditions") highlights))
        "Standard route conditions" highlights
    else highlights in
  slice0 5 highlights.

Definition generateRecommendations (rf : RiskFactors) (rank totalRoutes : Z)
    : list string :=
  let recommendations := ["Share your live location with trusted contacts"%string] in
  let recommendations :=
    if (rank =? 1)%Z
    then recommendations ++ ["This is your safest option - recommended"%string]
    else if (rank =? totalRoutes)%Z && (totalRoutes >? 1)%Z
    then recommendations ++ ["Consider the safest alternative if possible"%string]
    else recommendations in
  let recommendations :=
    if geq (timeRisk rf) 0.8
    then recommendations ++ ["Consider traveling with a companion at night"%string;
                             "Keep your phone charged and accessible"%string]
    else recommendations in
  let recommendations :=
    push_if (geq (crimeRisk rf) 0.7) "Stay on well-populated streets" recommendations in
  let recommendations :=
    push_if (geq (lightingRisk rf) 0.7) "Stay aware of your surroundings" recommendations in
  slice0 4 recommendations.

Record RawRisk := { rr_riskFactors : RiskFactors; rr_totalRisk : number }.

Definition default {A : Type} (o : option A) (d : A) : A :=
  match o with Some a => a | None => d end.

Definition calculateRawRiskScore (route : RouteInputData)
    (environment : EnvironmentData) : RawRisk :=
  let crimeLevel := default (crimeLevel route) medium in
  let lightingLevel := default (lightingLevel route) partially_lit in
  let roadType := default (roadType route) residential in
  let dR := calculateDistanceRisk (distanceKm route) in
  let uR := calculateDurationRisk (durationMin route) in
  let tR := calculateTurnRisk (turnCount route) in
  let hR := calculateTimeRisk (currentHour environment) in
  let wR := calculateWeatherRisk (weatherCondition environment) in
  let cR := calculateCrimeRisk crimeLevel in
  let lR := calculateLightingRisk lightingLevel in
  let rR := calculateRoadTypeRisk roadType in
  let totalRisk :=
    cR * w_crime WEIGHTS +
    lR * w_lighting WEIGHTS +
    hR * w_time WEIGHTS +
    dR * w_distance WEIGHTS +
    uR * w_duration WEIGHTS +
    rR * w_roadType WEIGHTS +
    wR * w_weather WEIGHTS +
    tR * w_turn WEIGHTS in
  {| rr_riskFactors := {|
       distanceRisk := dR; durationRisk := uR; turnRisk := tR; timeRisk := hR;
       weatherRisk := wR; crimeRisk := cR; lightingRisk := lR; roadTypeRisk := rR;
       totalRawRisk := totalRisk |};
     rr_totalRisk := totalRisk |}.

(** The place of a route inside its score range.  With no risks at all the
    spread is [-Infinity - Infinity], which is below [0.01]. *)
Definition positionInRange (rawRisk : number) (allRawRisks : list number) : number :=
  match Math_min allRawRisks, Math_max allRawRisks with
  | Some minRisk, Some maxRisk =>
      let riskSpread := maxRisk - minRisk in
      if lt riskSpread 0.01 then 0.7
      else
        let normalizedRisk := (rawRisk - minRisk) / riskSpread in
        1 - normalizedRisk
  | _, _ => 0.7
  end.

Definition calculateRelativeScore (rank totalRoutes : Z) (rawRisk : number)
    (allRawRisks : list number) : Z :=
  if (totalRoutes =? 1)%Z then
    Math_round (Qmax 55 (Qmin 90 ((1 - rawRisk) * 100 + 15)))
  else
    let scoreRange :=
      if (rank =? 1)%Z then RANGE_safest
      else if (rank =? totalRoutes)%Z then RANGE_riskiest
      else RANGE_moderate in
    let score :=
      range_min scoreRange +
      (range_max scoreRange - range_min scoreRange) *
      positionInRange rawRisk allRawRisks in
    Math_round score.

Record RouteRisk := {
  route : RouteInputData;
  rk_riskFactors : RiskFactors;
  totalRisk : number
}.

Definition routeRisk_of (environment : EnvironmentData) (r : RouteInputData) : RouteRisk :=
  let raw := calculateRawRiskScore r environment in
  {| route := r; rk_riskFactors := rr_riskFactors raw; totalRisk := rr_totalRisk raw |}.

Definition rankOf (sortedByRisk : list RouteRisk) (r : RouteInputData) : Z :=
  (findIndex (fun x => String.eqb (routeId (route x)) (routeId r)) sortedByRisk + 1)%Z.

Definition calculateMultipleRoutesSafety (routes : list RouteInputData)
    (environment : EnvironmentData) : list SafetyResult :=
  if (List.length routes =? 0)%nat then []
  else
    let n := Z.of_nat (List.length routes) in
    let routeRisks := map (routeRisk_of environment) routes in
    let sortedByRisk :=
      Array_sort (fun a b => totalRisk a - totalRisk b) routeRisks in
    let allRawRisks := map totalRisk routeRisks in
    map (fun rr =>
           let rank := rankOf sortedByRisk (route rr) in
           {| res_routeId := routeId (route rr);
              safetyScore :=
                calculateRelativeScore rank n (totalRisk rr) allRawRisks;
              rawRiskScore := Math_round (totalRisk rr * 100);
              safetyCategory := getSafetyCategory rank n;
              explanation := generateExplanation (rk_riskFactors rr) rank n environment;
              riskFactors := rk_riskFactors rr;
              highlights := generateHighlights (rk_riskFactors rr) rank n environment;
              recommendations := generateRecommendations (rk_riskFactors rr) rank n;
              rank := rank;
              isRelativeScore := true |})
        routeRisks.

Definition calculateRouteSafetyScore (r : RouteInputData)
    (environment : EnvironmentData) : option SafetyResult :=
  hd_error (calculateMultipleRoutesSafety [r] environment).

(** [estimateLightingLevel]; the [default] case of the switch is not
    reachable for a typed road type. *)
Definition estimateLightingLevel (roadType : RoadType) (hour : number) : LightingLevel :=
  let isNight := geq hour 19 || leq hour 6 in
  if negb isNight then well_lit
  else
    match roadType with
    | highway | main_road => well_lit
    | residential => partially_lit
    | alley => dark
    end.

End SafetyScorer.

(** ** The community feedback service (Firebase location feedback) *)

Module FirebaseSafety.
Import JS.

Local Open Scope Q_scope.

(** Timestamps are milliseconds since the epoch, as [Date.getTime] gives. *)
Definition Timestamp := Z.

Record AreaSafetyData := {
  safeCount : number;
  unsafeCount : number;
  lastUpdated : option Timestamp
}.

Record UserGridFeedback := { lastSubmittedAt : Timestamp }.

(** What awaiting [getDoc] yields: the promise is rejected, or it resolves
    to a snapshot that holds a document or does not exist. *)
Inductive Fetched (A : Type) :=
  | Rejected
  | Resolved (snapshot : option A).
Arguments Rejected {A}.
Arguments Resolved {A} snapshot.

(** The two collections read by the functions below, keyed by document id. *)
Record Firestore := {
  areas : string -> Fetched AreaSafetyData;
  userGridFeedbacks : string -> Fetched UserGridFeedback
}.

(** [x.toFixed(2)]: the integer [n] nearest to [100 x] (the larger one on a
    tie) printed with two decimals; a negative [x] is printed as a minus sign
    followed by the digits of [-x].  (Magnitudes from [1e21] on, which
    JavaScript prints in exponent form, do not occur for coordinates.) *)
Definition toFixed2 (x : number) : string :=
  let negative := lt x 0 in
  let n := Qfloor ((if negative then - x else x) * 100 + (1 # 2)) in
  let frac := (n mod 100)%Z in
  ((if negative then "-" else "") ++
   digits (n / 100) ++ "." ++
   (if (frac <? 10)%Z then "0" else "") ++ digits frac)%string.

Definition getGridId (latitude longitude : number) : string :=
  let lat := inject_Z (Math_round (latitude * 100)) / 100 in
  let lng := inject_Z (Math_round (longitude * 100)) / 100 in
  (toFixed2 lat ++ "_" ++ toFixed2 lng)%string.

Definition calculateAreaSafetyScore (safeCount unsafeCount : number) : Z :=
  let total := safeCount + unsafeCount in
  if strict_eq total 0 then 50%Z
  else Math_round ((safeCount / total) * 100).

Record Eligibility := { canSubmit : bool; hoursRemaining : option Z }.

(** [now] is the value of [new Date().getTime()] at the call. *)
Definition canUserSubmitFeedback (db : Firestore) (now : Timestamp)
    (userId gridId : string) : Eligibility :=
  let feedbackDocId := (userId ++ "_" ++ gridId)%string in
  match userGridFeedbacks db feedbackDocId with
  | Resolved None => {| canSubmit := true; hoursRemaining := None |}
  | Resolved (Some data) =>
      let lastSubmitted := lastSubmittedAt data in
      let hoursSinceLastSubmit :=
        inject_Z (now - lastSubmitted) / (1000 * 60 * 60) in
      if geq hoursSinceLastSubmit 24
      then {| canSubmit := true; hoursRemaining := None |}
      else {| canSubmit := false;
              hoursRemaining := Some (Math_ceil (24 - hoursSinceLastSubmit)) |}
  | Rejected =>
      (* catch: fail safe - don't allow if error *)
      {| canSubmit := false; hoursRemaining := Some 24%Z |}
  end.

Definition getAreaSafetyData (db : Firestore) (gridId : string)
    : option AreaSafetyData :=
  match areas db gridId with
  | Resolved snapshot => snapshot
  | Rejected => None
  end.

Definition getAreaSafetyScore (db : Firestore) (gridId : string) : Z :=
  match getAreaSafetyData db gridId with
  | None => 50%Z
  | Some data => calculateAreaSafetyScore (safeCount data) (unsafeCount data)
  end.

(** A JavaScript [Map] from grid ids to scores, in insertion order. *)
Definition ScoreMap := list (string * Z).

Fixpoint Map_set (k : string) (v : Z) (m : ScoreMap) : ScoreMap :=
  match m with
  | [] => [(k, v)]
  | (k', v') :: rest =>
      if String.eqb k' k then (k', v) :: rest else (k', v') :: Map_set k v rest
  end.

(** The fetches run in parallel; each stores one entry under its own key, so
    the entries are those of the sequential run. *)
Definition getMultipleAreaSafetyScores (db : Firestore) (gridIds : list string)
    : ScoreMap :=
  let uniqueGridIds := Set_spread gridIds in
  fold_left (fun scores gridId => Map_set gridId (getAreaSafetyScore db gridId) scores)
    uniqueGridIds [].

Record Point := { lat : number; lng : number }.

Record RouteCommunityScore := {
  score : Z;
  coveredGrids : Z;
  totalGrids : Z
}.

Definition calculateRouteCommunityScore (db : Firestore) (routePoints : list Point)
    : RouteCommunityScore :=
  if (List.length routePoints =? 0)%nat
  then {| score := 50; coveredGrids := 0; totalGrids := 0 |}
  else
    let gridIds := map (fun point => getGridId (lat point) (lng point)) routePoints in
    let uniqueGridIds := Set_spread gridIds in
    let scores := getMultipleAreaSafetyScores db uniqueGridIds in
    let '(totalScore, gridsWithData) :=
      fold_left
        (fun acc entry =>
           let '(totalScore, gridsWithData) := acc in
           let score := snd entry in
           ((totalScore + score)%Z,
            if negb (score =? 50)%Z then (gridsWithData + 1)%Z else gridsWithData))
        scores (0%Z, 0%Z) in
    let n := Z.of_nat (List.length uniqueGridIds) in
    let averageScore :=
      if (n >? 0)%Z then Math_round (inject_Z totalScore / inject_Z n) else 50%Z in
    {| score := averageScore; coveredGrids := gridsWithData; totalGrids := n |}.

(** *** Writes: the store as a value

    Strings stand for the UTF-8 bytes of the JavaScript strings. *)

(** [String.prototype.trim]: white space and line terminators, in their
    UTF-8 encodings, are removed from both ends. *)
Definition ws1 (a : N) : bool :=
  ((9 <=? a) && (a <=? 13) || (a =? 32))%N.

(** U+00A0 *)
Definition ws2 (a b : N) : bool := ((a =? 194) && (b =? 160))%N.

(** U+1680, U+2000 to U+200A, U+2028, U+2029, U+202F, U+205F, U+3000 and
    U+FEFF *)
Definition ws3 (a b c : N) : bool :=
  ((a =? 225) && (b =? 154) && (c =? 128) ||
   (a =? 226) && (b =? 128) &&
     ((128 <=? c) && (c <=? 138) || (c =? 168) || (c =? 169) || (c =? 175)) ||
   (a =? 226) && (b =? 129) && (c =? 159) ||
   (a =? 227) && (b =? 128) && (c =? 128) ||
   (a =? 239) && (b =? 187) && (c =? 191))%N.

Fixpoint trimStart_bytes (l : list N) : list N :=
  match l with
  | [] => []
  | a :: rest =>
      if ws1 a then trimStart_bytes rest
      else
        match rest with
        | [] => l
        | b :: rest2 =>
            if ws2 a b then trimStart_bytes rest2
            else
              match rest2 with
              | [] => l
              | c :: rest3 => if ws3 a b c then trimStart_bytes rest3 else l
              end
        end
  end.

(** The same on the reversed bytes, for the end of the string. *)
Fixpoint trimEnd_reversed (l : list N) : list N :=
  match l with
  | [] => []
  | a :: rest =>
      if ws1 a then trimEnd_reversed rest
      else
        match rest with
        | [] => l
        | b :: rest2 =>
            if ws2 b a then trimEnd_reversed rest2
            else
              match rest2 with
              | [] => l
              | c :: rest3 => if ws3 c b a then trimEnd_reversed rest3 else l
              end
        end
  end.

Definition trim (s : string) : string :=
  let bytes := map N_of_ascii (list_ascii_of_string s) in
  let kept := rev (trimEnd_reversed (rev (trimStart_bytes bytes))) in
  string_of_list_ascii (map ascii_of_N kept).

(** An integer inside a template literal. *)
Definition number_text (z : Z) : string := NilZero.string_of_int (Z.to_int z).

Record SafetyRatings := {
  lighting : number;
  crowdedness : number;
  roadCondition : number;
  visibility : number;
  publicTransport : number;
  emergencyAccess : number;
  overallSafetyScore : number
}.

Record AreaReport := {
  report_gridId : string;
  report_userId : string;
  isSafe : bool;
  experienceText : string;
  timestamp : Timestamp;
  ratings : option SafetyRatings
}.

Record AppFeedback := {
  rating : number;
  feedbackText : string;
  app_timestamp : Timestamp;
  app_userId : string
}.

Record FeedbackResult := {
  success : bool;
  message : string;
  result_gridId : option string;
  newSafetyScore : option Z
}.

(** The four collections, as documents by id and the report log in the
    order of insertion. *)
Record Database := {
  areaDocs : string -> option AreaSafetyData;
  feedbackDocs : string -> option UserGridFeedback;
  areaReports : list AreaReport;
  appFeedbacks : string -> option AppFeedback
}.

(** What the reads of one call see: the documents, or a rejection. *)
Definition snapshot (feedbackReadFails areaReadFails : bool) (d : Database) : Firestore :=
  {| areas := fun gridId =>
       if areaReadFails then Rejected else Resolved (areaDocs d gridId);
     userGridFeedbacks := fun docId =>
       if feedbackReadFails then Rejected else Resolved (feedbackDocs d docId) |}.

Definition setDoc {A : Type} (docs : string -> option A) (docId : string) (data : A)
    : string -> option A :=
  fun k => if String.eqb k docId then Some data else docs k.

(** The awaited operations of one [submitSafetyFeedback] call that reject. *)
Record Faults := {
  eligibilityReadFails : bool;
  transactionFails : bool;
  recordFails : bool;
  reportFails : bool;
  scoreReadFails : bool
}.

Definition no_faults : Faults :=
  {| eligibilityReadFails := false; transactionFails := false; recordFails := false;
     reportFails := false; scoreReadFails := false |}.

(** The client clock at the eligibility check and the server times that
    [serverTimestamp] resolves to in the three writes. *)
Record Clock := {
  clientNow : Timestamp;
  transactionTime : Timestamp;
  recordTime : Timestamp;
  reportTime : Timestamp
}.

Definition eligibility_message (e : Eligibility) : string :=
  ("You already submitted feedback for this area. Try again in " ++
   match hoursRemaining e with Some h => number_text h | None => "undefined" end ++
   " hour" ++
   match hoursRemaining e with
   | Some h => if (h =? 1)%Z then "" else "s"
   | None => "s"
   end ++ ".")%string.

Record EligibilityAnswer := {
  ans_canSubmit : bool;
  ans_hoursRemaining : option Z;
  ans_message : option string
}.

Definition checkFeedbackEligibility (currentUser : option string) (readFails : bool)
    (now : Timestamp) (d : Database) (gridId : string) : EligibilityAnswer :=
  match currentUser with
  | None =>
      {| ans_canSubmit := false; ans_hoursRemaining := None;
         ans_message := Some "You must be logged in to submit feedback"%string |}
  | Some uid =>
      let result := canUserSubmitFeedback (snapshot readFails false d) now uid gridId in
      if negb (canSubmit result) then
        {| ans_canSubmit := false; ans_hoursRemaining := hoursRemaining result;
           ans_message := Some (eligibility_message result) |}
      else {| ans_canSubmit := true; ans_hoursRemaining := None; ans_message := None |}
  end.

Definition recordUserFeedback (d : Database) (userId gridId : string) (at_time : Timestamp)
    : Database :=
  {| areaDocs := areaDocs d;
     feedbackDocs :=
       setDoc (feedbackDocs d) (userId ++ "_" ++ gridId)%string
         {| lastSubmittedAt := at_time |};
     areaReports := areaReports d;
     appFeedbacks := appFeedbacks d |}.

(** The body of the transaction: what is written for the area, given the
    document read inside the transaction. *)
Definition updatedArea (isSafe : bool) (at_time : Timestamp)
    (areaDoc : option AreaSafetyData) : AreaSafetyData :=
  match areaDoc with
  | None =>
      {| safeCount := if isSafe then 1 else 0;
         unsafeCount := if isSafe then 0 else 1;
         lastUpdated := Some at_time |}
  | Some currentData =>
      {| safeCount :=
           if isSafe then safeCount currentData + 1 else safeCount currentData;
         unsafeCount :=
           if isSafe then unsafeCount currentData else unsafeCount currentData + 1;
         lastUpdated := Some at_time |}
  end.

Definition runAreaTransaction (d : Database) (gridId : string) (isSafe : bool)
    (at_time : Timestamp) : Database :=
  {| areaDocs := setDoc (areaDocs d) gridId (updatedArea isSafe at_time (areaDocs d gridId));
     feedbackDocs := feedbackDocs d;
     areaReports := areaReports d;
     appFeedbacks := appFeedbacks d |}.

Definition addReport (d : Database) (report : AreaReport) : Database :=
  {| areaDocs := areaDocs d;
     feedbackDocs := feedbackDocs d;
     areaReports := areaReports d ++ [report];
     appFeedbacks := appFeedbacks d |}.

Definition submit_failed : FeedbackResult :=
  {| success := false; message := "Failed to submit feedback. Please try again.";
     result_gridId := None; newSafetyScore := None |}.

(** One call of [submitSafetyFeedback], run on its own: the result and the
    store it leaves. *)
Definition submitSafetyFeedback (currentUser : option string) (faults : Faults)
    (clock : Clock) (d : Database) (latitude longitude : number) (isSafe : bool)
    (experienceText : option string) (ratings : option SafetyRatings)
    : FeedbackResult * Database :=
  match currentUser with
  | None =>
      ({| success := false; message := "You must be logged in to submit feedback";
          result_gridId := None; newSafetyScore := None |}, d)
  | Some userId =>
      let gridId := getGridId latitude longitude in
      let eligibility :=
        canUserSubmitFeedback (snapshot (eligibilityReadFails faults) false d)
          (clientNow clock) userId gridId in
      if negb (canSubmit eligibility) then
        ({| success := false; message := eligibility_message eligibility;
            result_gridId := Some gridId; newSafetyScore := None |}, d)
      else if transactionFails faults then (submit_failed, d)
      else
        (* STEP 1: update area counts using transaction *)
        let d1 := runAreaTransaction d gridId isSafe (transactionTime clock) in
        if recordFails faults then (submit_failed, d1)
        else
          (* STEP 2: record user feedback timestamp *)
          let d2 := recordUserFeedback d1 userId gridId (recordTime clock) in
          if reportFails faults then (submit_failed, d2)
          else
            (* STEP 3: add detailed report with ratings *)
            let reportData :=
              {| report_gridId := gridId; report_userId := userId; isSafe := isSafe;
                 experienceText :=
                   match experienceText with Some t => trim t | None => "" end;
                 timestamp := reportTime clock;
                 ratings := ratings |} in
            let d3 := addReport d2 reportData in
            let newScore :=
              getAreaSafetyScore (snapshot false (scoreReadFails faults) d3) gridId in
            ({| success := true;
                message :=
                  if isSafe then "Thank you! Area marked as safe."
                  else "Thank you! Area marked as unsafe. Stay safe!";
                result_gridId := Some gridId;
                newSafetyScore := Some newScore |}, d3)
  end.

(** [getExistingAppFeedback]: a failed read is answered like a missing
    document. *)
Definition getExistingAppFeedback (currentUser : option string) (readFails : bool)
    (d : Database) : option AppFeedback :=
  match currentUser with
  | None => None
  | Some uid => if readFails then None else appFeedbacks d uid
  end.

Record AppFeedbackResult := { app_success : bool; app_message : string }.

Definition submitAppFeedback (currentUser : option string) (readFails writeFails : bool)
    (serverTime : Timestamp) (d : Database) (rating : number) (feedbackText : string)
    : AppFeedbackResult * Database :=
  match currentUser with
  | None =>
      ({| app_success := false;
          app_message := "You must be logged in to submit feedback" |}, d)
  | Some uid =>
      match getExistingAppFeedback currentUser readFails d with
      | Some _ =>
          ({| app_success := false;
              app_message := "You have already submitted your feedback. Thank you!" |}, d)
      | None =>
          if writeFails then
            ({| app_success := false;
                app_message := "Failed to submit feedback. Please try again." |}, d)
          else
            ({| app_success := true;
                app_message := "Thank you for your valuable feedback!" |},
             {| areaDocs := areaDocs d;
                feedbackDocs := feedbackDocs d;
                areaReports := areaReports d;
                appFeedbacks :=
                  setDoc (appFeedbacks d) uid
                    {| rating := rating; feedbackText := trim feedbackText;
                       app_timestamp := serverTime; app_userId := uid |} |})
      end
  end.

(** *** Reading a grid id back *)

(** A number as [parseFloat] can return it. *)
Inductive ParsedNumber :=
  | NaN
  | Infinite (negative : bool)
  | Finite (value : Q).

Definition isNaN (x : ParsedNumber) : bool :=
  match x with NaN => true | _ => false end.

Definition is_digit (c : ascii) : bool :=
  ((48 <=? N_of_ascii c) && (N_of_ascii c <=? 57))%N.

(** The longest prefix of decimal digits, and what follows it. *)
Fixpoint span_digits (s : string) : string * string :=
  match s with
  | EmptyString => (EmptyString, EmptyString)
  | String c rest =>
      if is_digit c
      then let (ds, after) := span_digits rest in (String c ds, after)
      else (EmptyString, s)
  end.

(** The value of a string of decimal digits; the empty string counts 0. *)
Definition digits_value (ds : string) : N :=
  match NilEmpty.uint_of_string ds with
  | Some u => N.of_uint u
  | None => 0%N
  end.

(** The value of an [ExponentPart] at the start of [s], 0 when there is
    none: [e] or [E], an optional sign, and at least one digit. *)
Definition exponent_value (s : string) : Z :=
  match s with
  | String c rest =>
      if Ascii.eqb c "e" || Ascii.eqb c "E" then
        match rest with
        | String sign r =>
            if Ascii.eqb sign "+" then
              let (ds, _) := span_digits r in Z.of_N (digits_value ds)
            else if Ascii.eqb sign "-" then
              let (ds, _) := span_digits r in (- Z.of_N (digits_value ds))%Z
            else
              let (ds, _) := span_digits rest in Z.of_N (digits_value ds)
        | EmptyString => 0%Z
        end
      else 0%Z
  | EmptyString => 0%Z
  end.

(** The longest prefix that is a [StrUnsignedDecimalLiteral], as a number:
    [Infinity], digits with an optional fraction, or a fraction alone, each
    with an optional exponent. *)
Definition parse_unsigned (s : string) : ParsedNumber :=
  if String.prefix "Infinity" s then Infinite false
  else
    let (int_part, after_int) := span_digits s in
    match after_int with
    | String "."%char after_point =>
        let (frac_part, after_frac) := span_digits after_point in
        if (String.length int_part =? 0)%nat && (String.length frac_part =? 0)%nat
        then NaN
        else
          Finite
            ((inject_Z (Z.of_N (digits_value int_part)) +
              inject_Z (Z.of_N (digits_value frac_part)) /
              Qpower 10 (Z.of_nat (String.length frac_part))) *
             Qpower 10 (exponent_value after_frac))
    | _ =>
        if (String.length int_part =? 0)%nat then NaN
        else
          Finite (inject_Z (Z.of_N (digits_value int_part)) *
                  Qpower 10 (exponent_value after_int))
    end.

Definition negated (x : ParsedNumber) : ParsedNumber :=
  match x with
  | NaN => NaN
  | Infinite negative => Infinite (negb negative)
  | Finite v => Finite (- v)
  end.

Definition trimStart (s : string) : string :=
  string_of_list_ascii
    (map ascii_of_N (trimStart_bytes (map N_of_ascii (list_ascii_of_string s)))).

(** [parseFloat]: leading white space is skipped, then an optional sign and
    the longest numeric prefix are read; [NaN] when there is none. *)
Definition parseFloat (s : string) : ParsedNumber :=
  match trimStart s with
  | String "+"%char rest => parse_unsigned rest
  | String "-"%char rest => negated (parse_unsigned rest)
  | t => parse_unsigned t
  end.

(** [String.prototype.split] with a one-character separator. *)
Fixpoint split_on (sep : ascii) (s : string) : list string :=
  match s with
  | EmptyString => [EmptyString]
  | String c rest =>
      if Ascii.eqb c sep then EmptyString :: split_on sep rest
      else
        match split_on sep rest with
        | first :: others => String c first :: others
        | [] => [String c EmptyString]
        end
  end.

Definition parseGridId (gridId : string) : option (ParsedNumber * ParsedNumber) :=
  match split_on "_" gridId with
  | [part0; part1] =>
      let lat := parseFloat part0 in
      let lng := parseFloat part1 in
      if isNaN lat || isNaN lng then None else Some (lat, lng)
  | _ => None
  end.

(** *** Polyline decoding

    The encoded polyline is given by its UTF-16 code units, the values
    [charCodeAt] reads; past the end [charCodeAt] yields [NaN], which the bit
    operations read as 0 and every comparison answers with false. *)

(** [ToInt32] *)
Definition to_int32 (z : Z) : Z := ((z + 2 ^ 31) mod 2 ^ 32 - 2 ^ 31)%Z.

(** [x << shift] on 32-bit integers; the shift count is taken modulo 32. *)
Definition shift_left32 (x shift : Z) : Z := to_int32 (x * 2 ^ (shift mod 32))%Z.

(** One [do ... while (byte >= 0x20)] loop: the value read and the code
    units left. *)
Fixpoint read_chunk (input : list Z) (shift result : Z) : Z * list Z :=
  match input with
  | [] => (result, [])
  | code :: rest =>
      let byte := (code - 63)%Z in
      let result := Z.lor result (shift_left32 (Z.land byte 31) shift) in
      if (32 <=? byte)%Z then read_chunk rest (shift + 5)%Z result
      else (result, rest)
  end.

(** [(result & 1) ? ~(result >> 1) : (result >> 1)] *)
Definition signed_delta (result : Z) : Z :=
  if negb (Z.land result 1 =? 0)%Z then Z.lnot (Z.shiftr result 1)
  else Z.shiftr result 1.

(** [Math.trunc], as the remainder operator uses it. *)
Definition truncate (x : Q) : Z := if lt x 0 then Qceiling x else Qfloor x.

(** [pointCount % sampleInterval === 0]; the remainder by 0 is [NaN]. *)
Definition sampled (pointCount : Z) (sampleInterval : number) : bool :=
  if strict_eq sampleInterval 0 then false
  else
    strict_eq
      (inject_Z pointCount -
       sampleInterval * inject_Z (truncate (inject_Z pointCount / sampleInterval)))
      0.

(** The [while (index < encodedPolyline.length)] loop; every round reads at
    least one code unit, so [fuel] rounds suffice for [fuel] code units. *)
Fixpoint decode_loop (fuel : nat) (input : list Z) (lat lng pointCount : Z)
    (sampleInterval : number) : list Point :=
  match fuel with
  | O => []
  | S fuel' =>
      match input with
      | [] => []
      | _ :: _ =>
          let (result, after_lat) := read_chunk input 0 0 in
          let lat := (lat + signed_delta result)%Z in
          let (result, after_lng) := read_chunk after_lat 0 0 in
          let lng := (lng + signed_delta result)%Z in
          (if sampled pointCount sampleInterval
           then [{| FirebaseSafety.lat := inject_Z lat / 100000;
                    FirebaseSafety.lng := inject_Z lng / 100000 |}]
           else []) ++
          decode_loop fuel' after_lng lat lng (pointCount + 1)%Z sampleInterval
      end
  end.

Definition decodePolylineToPoints (encodedPolyline : list Z) (sampleInterval : number)
    : list Point :=
  decode_loop (List.length encodedPolyline) encodedPolyline 0 0 0 sampleInterval.

(** The code units of a text of ASCII characters. *)
Definition code_units (s : string) : list Z :=
  map (fun c => Z.of_N (N_of_ascii c)) (list_ascii_of_string s).

End FirebaseSafety.


(** ** Double-precision arithmetic

    The functions above compute with exact rationals.  The program computes
    with IEEE 754 binary64 numbers: every decimal literal stands for the
    nearest double and every [+], [-], [*] and [/] rounds its exact result to
    the nearest double, ties to the even significand.  This module gives that
    arithmetic on the rationals (a finite double is a rational) and, on top of
    it, the functions of the two services whose results depend on the
    rounding.  Only finite doubles are modelled: a result of magnitude
    [2 ^ 1024] or more, which IEEE turns into an infinity, does not arise from
    finite arguments in the scoring engine, nor from counts and coordinates in
    the ranges the theorems state. *)

Module Binary64.
Import JS SafetyScorer FirebaseSafety.

Local Open Scope Q_scope.

(** [floor (log2 |x|)] for [x <> 0]. *)
Definition ilog2 (x : Q) : Z :=
  let k := (Z.log2 (Z.abs (Qnum x)) - Z.log2 (Zpos (Qden x)))%Z in
  if Qle_bool (2 ^ k) (Qabs x) then k else (k - 1)%Z.

(** The exponent of the last of the 53 significant bits; below [2 ^ -1022]
    the doubles are subnormal, all with last bit [2 ^ -1074]. *)
Definition exponent (x : Q) : Z := Z.max (ilog2 x - 52) (-1074).

(** The nearest integer, the even one of two that are equally near. *)
Definition nearest_even (x : Q) : Z :=
  let f := Qfloor x in
  match Qcompare (x - inject_Z f) (1 # 2) with
  | Lt => f
  | Gt => (f + 1)%Z
  | Eq => if Z.even f then f else (f + 1)%Z
  end.

(** The nearest double. *)
Definition round (x : Q) : Q :=
  inject_Z (nearest_even (x / 2 ^ exponent x)) * 2 ^ exponent x.

Definition add (a b : number) : number := round (a + b).
Definition sub (a b : number) : number := round (a - b).
Definition mul (a b : number) : number := round (a * b).
Definition div (a b : number) : number := round (a / b).

(** The value of a decimal literal of the source. *)
Definition double (literal : Q) : number := round literal.

(** The finite doubles: [m * 2 ^ e] with a significand below [2 ^ 53] and an
    exponent of at least [-1074]. *)
Definition representable (x : Q) : Prop :=
  exists m e : Z, (-1074 <= e)%Z /\ (Z.abs m < 2 ^ 53)%Z /\ x == inject_Z m * 2 ^ e.

(** *** The scoring engine *)

Definition WEIGHTS : Weights := {|
  w_crime := double 0.25;
  w_lighting := double 0.15;
  w_time := double 0.15;
  w_distance := double 0.10;
  w_duration := double 0.10;
  w_roadType := double 0.10;
  w_weather := double 0.10;
  w_turn := double 0.05
|}.

Definition calculateDistanceRisk (distanceKm : number) : number :=
  Qmin (div distanceKm 10) 1.

Definition calculateDurationRisk (durationMin : number) : number :=
  Qmin (div durationMin 30) 1.

Definition calculateTurnRisk (turnCount : number) : number :=
  Qmin (div turnCount 20) 1.

Definition calculateTimeRisk (hour : number) : number :=
  if geq hour 22 || leq hour 5 then 1.0
  else if geq hour 19 || leq hour 7 then double 0.6
  else double 0.2.

Definition calculateWeatherRisk (weather : WeatherCondition) : number :=
  match weather with
  | clear => double 0.1
  | cloudy => double 0.3
  | rain => double 0.6
  | storm => double 0.9
  | fog => double 0.9
  end.

Definition calculateCrimeRisk (c : CrimeLevel) : number :=
  match c with
  | low => double 0.2
  | medium => double 0.5
  | high => double 0.9
  end.

Definition calculateLightingRisk (l : LightingLevel) : number :=
  match l with
  | well_lit => double 0.2
  | partially_lit => double 0.5
  | dark => double 0.9
  end.

Definition calculateRoadTypeRisk (r : RoadType) : number :=
  match r with
  | highway => double 0.3
  | main_road => double 0.4
  | residential => double 0.6
  | alley => double 0.8
  end.

Definition generateExplanation (rf : RiskFactors) (rank totalRoutes : Z)
    (_environment : EnvironmentData) : string :=
  let parts :=
    if (rank =? 1)%Z then ["This is the SAFEST option among available routes"%string]
    else if (rank =? totalRoutes)%Z then
      ["This route has the highest relative risk among alternatives"%string]
    else ["This route offers a balanced option between safety and convenience"%string] in
  let keyFactors : list string := [] in
  let keyFactors :=
    if geq (crimeRisk rf) (double 0.7) then keyFactors ++ ["higher crime area"%string]
    else push_if (leq (crimeRisk rf) (double 0.3)) "lower crime area" keyFactors in
  let keyFactors :=
    if geq (lightingRisk rf) (double 0.7) then keyFactors ++ ["limited lighting"%string]
    else push_if (leq (lightingRisk rf) (double 0.3)) "well-lit streets" keyFactors in
  let keyFactors :=
    if geq (timeRisk rf) (double 0.8) then keyFactors ++ ["late night travel"%string]
    else push_if (leq (timeRisk rf) (double 0.3)) "daytime travel" keyFactors in
  let keyFactors :=
    if geq (distanceRisk rf) (double 0.7) then keyFactors ++ ["longer distance"%string]
    else push_if (leq (distanceRisk rf) (double 0.3)) "shorter distance" keyFactors in
  let parts :=
    if (0 <? List.length keyFactors)%nat
    then parts ++ [("Key factors: " ++ join ", " keyFactors)%string]
    else parts in
  (join ". " parts ++ ".")%string.

Definition generateHighlights (rf : RiskFactors) (rank totalRoutes : Z)
    (environment : EnvironmentData) : list string :=
  let highlights : list string := [] in
  (* Rank-based highlight *)
  let highlights :=
    if (rank =? 1)%Z then highlights ++ ["✓ Safest among all alternatives"%string]
    else if (rank =? totalRoutes)%Z && (totalRoutes >? 1)%Z
    then highlights ++ ["⚠ Highest risk among alternatives"%string]
    else highlights in
  (* Positive highlights (low risk factors) *)
  let highlights := push_if (leq (crimeRisk rf) (double 0.3)) "Lower crime area" highlights in
  let highlights := push_if (leq (lightingRisk rf) (double 0.3)) "Well-lit streets" highlights in
  let highlights := push_if (leq (timeRisk rf) (double 0.3)) "Safe travel time" highlights in
  let highlights := push_if (leq (roadTypeRisk rf) (double 0.4)) "Main roads preferred" highlights in
  let highlights := push_if (leq (weatherRisk rf) (double 0.2)) "Clear weather conditions" highlights in
  let highlights := push_if (leq (turnRisk rf) (double 0.3)) "Straightforward route" highlights in
  let highlights := push_if (leq (distanceRisk rf) (double 0.3)) "Short distance" highlights in
  (* Negative highlights (high risk factors) *)
  let highlights :=
    push_if (geq (crimeRisk rf) (double 0.7)) "Higher crime area - stay alert" highlights in
  let highlights := push_if (geq (lightingRisk rf) (double 0.7)) "Limited street lighting" highlights in
  let highlights := push_if (geq (timeRisk rf) (double 0.8)) "Late night travel" highlights in
  let highlights :=
    push_if (geq (roadTypeRisk rf) (double 0.7)) "Includes narrow streets/alleys" highlights in
  let highlights :=
    push_if (geq (weatherRisk rf) (double 0.7))
      (weather_text (weatherCondition environment) ++ " weather advisory") highlights in
  (* Ensure at least 3 highlights *)
  let highlights :=
    if (List.length highlights <? 3)%nat then
      let highlights :=
        push_if (negb (some (fun h => includes h "traffic") highlights))
          "Moderate traffic expected" highlights in
      push_if (negb (some (fun h => includes h "conditions") highlights))
        "Standard route conditions" highlights
    else highlights in
  slice0 5 highlights.

Definition generateRecommendations (rf : RiskFactors) (rank totalRoutes : Z)
    : list string :=
  let recommendations := ["Share your live location with trusted contacts"%string] in
  let recommendations :=
    if (rank =? 1)%Z
    then recommendations ++ ["This is your safest option - recommended"%string]
    else if (rank =? totalRoutes)%Z && (totalRoutes >? 1)%Z
    then recommendations ++ ["Consider the safest alternative if possible"%string]
    else recommendations in
  let recommendations :=
    if geq (timeRisk rf) (double 0.8)
    then recommendations ++ ["Consider traveling with a companion at night"%string;
                             "Keep your phone charged and accessible"%string]
    else recommendations in
  let recommendations :=
    push_if (geq (crimeRisk rf) (double 0.7)) "Stay on well-populated streets" recommendations in
  let recommendations :=
    push_if (geq (lightingRisk rf) (double 0.7)) "Stay aware of your surroundings" recommendations in
  slice0 4 recommendations.

Definition calculateRawRiskScore (route : RouteInputData)
    (environment : EnvironmentData) : RawRisk :=
  let crimeLevel := default (crimeLevel route) medium in
  let lightingLevel := default (lightingLevel route) partially_lit in
  let roadType := default (roadType route) residential in
  let dR := calculateDistanceRisk (distanceKm route) in
  let uR := calculateDurationRisk (durationMin route) in
  let tR := calculateTurnRisk (turnCount route) in
  let hR := calculateTimeRisk (currentHour environment) in
  let wR := calculateWeatherRisk (weatherCondition environment) in
  let cR := calculateCrimeRisk crimeLevel in
  let lR := calculateLightingRisk lightingLevel in
  let rR := calculateRoadTypeRisk roadType in
  let totalRisk :=
    add (add (add (add (add (add (add
      (mul cR (w_crime WEIGHTS))
      (mul lR (w_lighting WEIGHTS)))
      (mul hR (w_time WEIGHTS)))
      (mul dR (w_distance WEIGHTS)))
      (mul uR (w_duration WEIGHTS)))
      (mul rR (w_roadType WEIGHTS)))
      (mul wR (w_weather WEIGHTS)))
      (mul tR (w_turn WEIGHTS)) in
  {| rr_riskFactors := {|
       distanceRisk := dR; durationRisk := uR; turnRisk := tR; timeRisk := hR;
       weatherRisk := wR; crimeRisk := cR; lightingRisk := lR; roadTypeRisk := rR;
       totalRawRisk := totalRisk |};
     rr_totalRisk := totalRisk |}.

Definition positionInRange (rawRisk : number) (allRawRisks : list number) : number :=
  match Math_min allRawRisks, Math_max allRawRisks with
  | Some minRisk, Some maxRisk =>
      let riskSpread := sub maxRisk minRisk in
      if lt riskSpread (double 0.01) then double 0.7
      else
        let normalizedRisk := div (sub rawRisk minRisk) riskSpread in
        sub 1 normalizedRisk
  | _, _ => double 0.7
  end.

Definition calculateRelativeScore (rank totalRoutes : Z) (rawRisk : number)
    (allRawRisks : list number) : Z :=
  if (totalRoutes =? 1)%Z then
    Math_round (Qmax 55 (Qmin 90 (add (mul (sub 1 rawRisk) 100) 15)))
  else
    let scoreRange :=
      if (rank =? 1)%Z then RANGE_safest
      else if (rank =? totalRoutes)%Z then RANGE_riskiest
      else RANGE_moderate in
    let score :=
      add (range_min scoreRange)
        (mul (sub (range_max scoreRange) (range_min scoreRange))
           (positionInRange rawRisk allRawRisks)) in
    Math_round score.

Definition routeRisk_of (environment : EnvironmentData) (r : RouteInputData) : RouteRisk :=
  let raw := calculateRawRiskScore r environment in
  {| route := r; rk_riskFactors := rr_riskFactors raw; totalRisk := rr_totalRisk raw |}.

Definition calculateMultipleRoutesSafety (routes : list RouteInputData)
    (environment : EnvironmentData) : list SafetyResult :=
  if (List.length routes =? 0)%nat then []
  else
    let n := Z.of_nat (List.length routes) in
    let routeRisks := map (routeRisk_of environment) routes in
    let sortedByRisk :=
      Array_sort (fun a b => sub (totalRisk a) (totalRisk b)) routeRisks in
    let allRawRisks := map totalRisk routeRisks in
    map (fun rr =>
           let rank := rankOf sortedByRisk (route rr) in
           {| res_routeId := routeId (route rr);
              safetyScore :=
                calculateRelativeScore rank n (totalRisk rr) allRawRisks;
              rawRiskScore := Math_round (mul (totalRisk rr) 100);
              safetyCategory := getSafetyCategory rank n;
              explanation := generateExplanation (rk_riskFactors rr) rank n environment;
              riskFactors := rk_riskFactors rr;
              highlights := generateHighlights (rk_riskFactors rr) rank n environment;
              recommendations := generateRecommendations (rk_riskFactors rr) rank n;
              rank := rank;
              isRelativeScore := true |})
        routeRisks.

Definition calculateRouteSafetyScore (r : RouteInputData)
    (environment : EnvironmentData) : option SafetyResult :=
  hd_error (calculateMultipleRoutesSafety [r] environment).

(** *** The feedback service *)

Definition calculateAreaSafetyScore (safeCount unsafeCount : number) : Z :=
  let total := add safeCount unsafeCount in
  if strict_eq total 0 then 50%Z
  else Math_round (mul (div safeCount total) 100).

Definition getGridId (latitude longitude : number) : string :=
  let lat := div (inject_Z (Math_round (mul latitude 100))) 100 in
  let lng := div (inject_Z (Math_round (mul longitude 100))) 100 in
  (toFixed2 lat ++ "_" ++ toFixed2 lng)%string.

(** [parseFloat] answers the double nearest to the decimal it reads. *)
Definition parseFloat (s : string) : ParsedNumber :=
  match FirebaseSafety.parseFloat s with
  | Finite v => Finite (round v)
  | other => other
  end.

Definition parseGridId (gridId : string) : option (ParsedNumber * ParsedNumber) :=
  match split_on "_" gridId with
  | [part0; part1] =>
      let lat := parseFloat part0 in
      let lng := parseFloat part1 in
      if isNaN lat || isNaN lng then None else Some (lat, lng)
  | _ => None
  end.

(** *** Vocabulary *)

(** Linear interpolation inside a band as the program computes it. *)
Definition interpolate (b : Z * Z) (position : number) : Z :=
  Math_round
    (add (inject_Z (fst b)) (mul (sub (inject_Z (snd b)) (inject_Z (fst b))) position)).

(** The weighted sum of the eight risk factors as the program computes it,
    from left to right. *)
Definition weighted_sum (rf : RiskFactors) : number :=
  add (add (add (add (add (add (add
    (mul (crimeRisk rf) (double 0.25))
    (mul (lightingRisk rf) (double 0.15)))
    (mul (timeRisk rf) (double 0.15)))
    (mul (distanceRisk rf) (double 0.10)))
    (mul (durationRisk rf) (double 0.10)))
    (mul (roadTypeRisk rf) (double 0.10)))
    (mul (weatherRisk rf) (double 0.10)))
    (mul (turnRisk rf) (double 0.05)).

(** The factors of a route all of whose risks are [x]. *)
Definition all_factors (x : number) : RiskFactors :=
  {| distanceRisk := x; durationRisk := x; turnRisk := x; timeRisk := x;
     weatherRisk := x; crimeRisk := x; lightingRisk := x; roadTypeRisk := x;
     totalRawRisk := 0 |}.

(** The least and the largest value each factor can take for a route with
    non-negative distance, duration and turn count. *)
Definition least_factors : RiskFactors :=
  {| distanceRisk := 0; durationRisk := 0; turnRisk := 0; timeRisk := double 0.2;
     weatherRisk := double 0.1; crimeRisk := double 0.2; lightingRisk := double 0.2;
     roadTypeRisk := double 0.3; totalRawRisk := 0 |}.

Definition largest_factors : RiskFactors :=
  {| distanceRisk := 1; durationRisk := 1; turnRisk := 1; timeRisk := 1;
     weatherRisk := double 0.9; crimeRisk := double 0.9; lightingRisk := double 0.9;
     roadTypeRisk := double 0.8; totalRawRisk := 0 |}.


End Binary64.


(** ** Vocabulary of the specification *)

Module Spec.
Import JS SafetyScorer FirebaseSafety.

Local Open Scope Q_scope.

(** The score band of a rank in a batch of [N > 1] routes. *)
Definition band (rank N : Z) : Z * Z :=
  if (rank =? 1)%Z then (75, 92)%Z
  else if (rank =? N)%Z then (42, 57)%Z
  else (58, 74)%Z.


Definition lowest (m : Q) (xs : list Q) : Prop :=
  In m xs /\ forall x, In x xs -> m <= x.

Definition highest (m : Q) (xs : list Q) : Prop :=
  In m xs /\ forall x, In x xs -> x <= m.

(** Linear interpolation inside a band, rounded to the nearest integer. *)
Definition interpolate (b : Z * Z) (position : Q) : Z :=
  Math_round (inject_Z (fst b) + (inject_Z (snd b) - inject_Z (fst b)) * position).

Definition in_band (b : Z * Z) (s : Z) : Prop := (fst b <= s <= snd b)%Z.

Definition unit_interval (x : Q) : Prop := 0 <= x /\ x <= 1.

(** The weighted sum of the eight risk factors. *)
Definition weighted_sum (rf : RiskFactors) : Q :=
  crimeRisk rf * 0.25 + lightingRisk rf * 0.15 + timeRisk rf * 0.15 +
  distanceRisk rf * 0.10 + durationRisk rf * 0.10 + roadTypeRisk rf * 0.10 +
  weatherRisk rf * 0.10 + turnRisk rf * 0.05.

(** Hours elapsed between two millisecond timestamps. *)
Definition hours_between (earlier later : Z) : Q :=
  inject_Z (later - earlier) / 3600000.

(** A grid cell holds community data when its document exists. *)
Definition holds_data (db : Firestore) (gridId : string) : bool :=
  match areas db gridId with
  | Resolved (Some _) => true
  | _ => false
  end.

Definition sumZ (xs : list Z) : Z := fold_right Z.add 0%Z xs.

(** [a] occurs in [xs] somewhere in front of [b]. *)
Definition precedes {A : Type} (xs : list A) (a b : A) : Prop :=
  exists front between back, xs = front ++ a :: between ++ b :: back.

End Spec.

(** ** Concrete batches and stores used below *)

Module Examples.
Import JS SafetyScorer FirebaseSafety.

Local Open Scope Q_scope.
Local Open Scope string_scope.

Definition evening_rain : EnvironmentData :=
  {| currentHour := 19; weatherCondition := rain |}.

Definition route_a : RouteInputData :=
  {| routeId := "a"; distanceKm := 2; durationMin := 10; turnCount := 4;
     roadType := Some highway; crimeLevel := Some low;
     lightingLevel := Some well_lit |}.

(** A route that leaves its optional fields out. *)
Definition route_b : RouteInputData :=
  {| routeId := "b"; distanceKm := 5; durationMin := 15; turnCount := 10;
     roadType := None; crimeLevel := None; lightingLevel := None |}.

Definition route_c : RouteInputData :=
  {| routeId := "c"; distanceKm := 9; durationMin := 28; turnCount := 18;
     roadType := Some alley; crimeLevel := Some high;
     lightingLevel := Some dark |}.

(** A second route with the attributes of [route_b], so with the same risk. *)
Definition route_b_twin : RouteInputData :=
  {| routeId := "b2"; distanceKm := 5; durationMin := 15; turnCount := 10;
     roadType := None; crimeLevel := None; lightingLevel := None |}.

(** The risk factors [route_b] gets in [evening_rain]. *)
Definition middling : RiskFactors :=
  rr_riskFactors (calculateRawRiskScore route_b evening_rain).

(** A store whose only area document has one safe and one unsafe report. *)
Definition balanced_store : Firestore :=
  {| areas := fun gridId =>
       if String.eqb gridId "12.34_77.65"
       then Resolved (Some {| safeCount := 1; unsafeCount := 1; lastUpdated := Some 0%Z |})
       else Resolved None;
     userGridFeedbacks := fun _ => Resolved None |}.

Definition balanced_point : Point := {| lat := 12.34; lng := 77.65 |}.

(** A store holding one submission record, made at time [at_ms]. *)
Definition store_with_submission (docId : string) (at_ms : Z) : Firestore :=
  {| areas := fun _ => Resolved None;
     userGridFeedbacks := fun k =>
       if String.eqb k docId
       then Resolved (Some {| lastSubmittedAt := at_ms |})
       else Resolved None |}.

(** A store whose reads are all rejected. *)
Definition failing_store : Firestore :=
  {| areas := fun _ => Rejected; userGridFeedbacks := fun _ => Rejected |}.

End Examples.

(** ** Vocabulary for the store *)

Module StoreSpec.
Import JS SafetyScorer FirebaseSafety.

Local Open Scope Q_scope.

(** The number of safe and of unsafe reports counted for a cell; a cell
    without document counts none. *)
Definition safe_reports (d : Database) (gridId : string) : Q :=
  match areaDocs d gridId with Some a => safeCount a | None => 0 end.

Definition unsafe_reports (d : Database) (gridId : string) : Q :=
  match areaDocs d gridId with Some a => unsafeCount a | None => 0 end.

(** The document id of a user's cooldown record for a cell. *)
Definition cooldown_key (userId gridId : string) : string :=
  (userId ++ "_" ++ gridId)%string.

(** One submission of a sequence: who submits, when, and what. *)
Record Submission := {
  by_user : string;
  at_clock : Clock;
  says_safe : bool;
  with_text : option string;
  with_ratings : option SafetyRatings
}.

(** Submissions for one position, made one after the other, none failing. *)
Definition submit_each (latitude longitude : number) (subs : list Submission)
    (d : Database) : Database :=
  fold_left
    (fun db s =>
       snd (submitSafetyFeedback (Some (by_user s)) no_faults (at_clock s) db
              latitude longitude (says_safe s) (with_text s) (with_ratings s)))
    subs d.

Definition count_safe (subs : list Submission) : Z :=
  Z.of_nat (List.length (filter says_safe subs)).

Definition count_unsafe (subs : list Submission) : Z :=
  Z.of_nat (List.length (filter (fun s => negb (says_safe s)) subs)).

Definition empty_database : Database :=
  {| areaDocs := fun _ => None; feedbackDocs := fun _ => None;
     areaReports := []; appFeedbacks := fun _ => None |}.

Definition noon : Clock :=
  {| clientNow := 43200000%Z; transactionTime := 43200100%Z;
     recordTime := 43200200%Z; reportTime := 43200300%Z |}.

Definition only_record_fails : Faults :=
  {| eligibilityReadFails := false; transactionFails := false; recordFails := true;
     reportFails := false; scoreReadFails := false |}.

End StoreSpec.

(** ** Vocabulary for grid ids *)

Module GridSpec.
Import JS FirebaseSafety.

(** The character [c] does not occur in [s]. *)
Fixpoint lacks (c : ascii) (s : string) : bool :=
  match s with
  | EmptyString => true
  | String a rest => negb (Ascii.eqb a c) && lacks c rest
  end.



(** Every [interval]-th point of a list, counting from [count]. *)
Fixpoint sample_from (count interval : Z) (points : list Point) : list Point :=
  match points with
  | [] => []
  | p :: rest =>
      (if (count mod interval =? 0)%Z then [p] else []) ++
      sample_from (count + 1) interval rest
  end.

End GridSpec.

(** ** Scenarios *)

Module Scenarios.
Import JS SafetyScorer FirebaseSafety Examples StoreSpec.

Local Open Scope Q_scope.
Local Open Scope string_scope.

(** Four alternatives, two of them with the same risk. *)
Definition four_routes : list RouteInputData :=
  [route_c; route_b; route_b_twin; route_a].

(** An hour, and a day, after [noon]. *)
Definition one_hour_later : Clock :=
  {| clientNow := 46800000%Z; transactionTime := 46800100%Z;
     recordTime := 46800200%Z; reportTime := 46800300%Z |}.

Definition next_day : Clock :=
  {| clientNow := 129600200%Z; transactionTime := 129600300%Z;
     recordTime := 129600400%Z; reportTime := 129600500%Z |}.

(** The store after the first report for the cell of [balanced_point]. *)
Definition after_first_report : Database :=
  snd (submitSafetyFeedback (Some "alice") no_faults noon empty_database
         12.34 77.65 true None None).

Definition two_submissions : list Submission :=
  [ {| by_user := "alice"; at_clock := noon; says_safe := true;
       with_text := None; with_ratings := None |};
    {| by_user := "bob"; at_clock := one_hour_later; says_safe := false;
       with_text := Some "poorly lit"; with_ratings := None |} ].

(** A second point in the cell of [balanced_point]. *)
Definition nearby_point : Point := {| lat := 12.3414; lng := 77.6532 |}.

(** An encoded path of three points. *)
Definition encoded_path : string := "_p~iF~ps|U_ulLnnqC_mqNvxq`@".

Definition noon_clear : EnvironmentData :=
  {| currentHour := 12; weatherCondition := clear |}.

(** A route on a well-lit highway in a low-crime area. *)
Definition highway_route (id : string) (km minutes turns : number) : RouteInputData :=
  {| routeId := id; distanceKm := km; durationMin := minutes; turnCount := turns;
     roadType := Some highway; crimeLevel := Some low;
     lightingLevel := Some well_lit |}.

Definition winding_route : RouteInputData := highway_route "winding" 4 6 18.
Definition slow_route : RouteInputData := highway_route "slow" 0 18 6.
Definition route_p : RouteInputData := highway_route "p" 0 0 12.
Definition route_q : RouteInputData := highway_route "q" 0 9 0.
Definition route_x : RouteInputData := highway_route "x" 0 0 8.
Definition route_y : RouteInputData := highway_route "y" 3 0 0.

End Scenarios.

Import JS SafetyScorer FirebaseSafety Spec Examples.
Import StoreSpec GridSpec Scenarios.
Local Open Scope Q_scope.

(** ** Comparisons and rounding *)

Section NumberFacts.

Lemma leq_true (a b : Q) : leq a b = true <-> a <= b.
Proof. unfold leq. apply Qle_bool_iff. Qed.

Lemma leq_false (a b : Q) : leq a b = false <-> b < a.
Proof.
  unfold leq. split; intro H.
  - apply Qnot_le_lt. intro Hle. apply Qle_bool_iff in Hle. congruence.
  - destruct (Qle_bool a b) eqn:E; [|reflexivity].
    apply Qle_bool_iff in E. exfalso. exact (Qlt_not_le _ _ H E).
Qed.

Lemma geq_true (a b : Q) : geq a b = true <-> b <= a.
Proof. unfold geq. apply Qle_bool_iff. Qed.

Lemma geq_false (a b : Q) : geq a b = false <-> a < b.
Proof. unfold geq. apply (leq_false b a). Qed.

Lemma lt_true (a b : Q) : lt a b = true <-> a < b.
Proof.
  unfold lt. rewrite negb_true_iff. apply (leq_false b a).
Qed.

Lemma lt_false (a b : Q) : lt a b = false <-> b <= a.
Proof.
  unfold lt. rewrite negb_false_iff. apply Qle_bool_iff.
Qed.

Lemma leq_inject_Z (a b : Z) : leq (inject_Z a) (inject_Z b) = (a <=? b)%Z.
Proof.
  unfold leq, Qle_bool, inject_Z; simpl. now rewrite !Z.mul_1_r.
Qed.

Lemma geq_inject_Z (a b : Z) : geq (inject_Z a) (inject_Z b) = (b <=? a)%Z.
Proof. unfold geq. apply (leq_inject_Z b a). Qed.

Lemma Math_round_Z (n : Z) : Math_round (inject_Z n) = n.
Proof.
  unfold Math_round.
  assert (Hlo : (n <= Qfloor (inject_Z n + (1 # 2)))%Z).
  { rewrite <- (Qfloor_Z n) at 1. apply Qfloor_resp_le. lra. }
  assert (Hhi : (Qfloor (inject_Z n + (1 # 2)) < n + 1)%Z).
  { rewrite Zlt_Qlt. eapply Qle_lt_trans; [apply Qfloor_le|].
    rewrite inject_Z_plus. change (inject_Z 1) with 1. lra. }
  lia.
Qed.

Lemma Math_round_le (x y : Q) : x <= y -> (Math_round x <= Math_round y)%Z.
Proof. intro H. unfold Math_round. apply Qfloor_resp_le. lra. Qed.

Lemma Math_round_between (lo hi : Z) (x : Q) :
  inject_Z lo <= x -> x <= inject_Z hi -> (lo <= Math_round x <= hi)%Z.
Proof.
  intros Hlo Hhi. split.
  - rewrite <- (Math_round_Z lo). now apply Math_round_le.
  - rewrite <- (Math_round_Z hi). now apply Math_round_le.
Qed.


Lemma Qmin_cases (x y : Q) : Qmin x y = x \/ Qmin x y = y.
Proof.
  unfold Qmin, GenericMinMax.gmin. destruct (x ?= y); auto.
Qed.

Lemma Qmax_cases (x y : Q) : Qmax x y = x \/ Qmax x y = y.
Proof.
  unfold Qmax, GenericMinMax.gmax. destruct (x ?= y); auto.
Qed.

End NumberFacts.

(** ** Double-precision rounding *)

Section Powers.
Import Binary64.

Lemma two_nonzero : ~ 2 == 0.
Proof. discriminate. Qed.

Lemma pow2_pos (e : Z) : 0 < 2 ^ e.
Proof. apply Qpower_0_lt. reflexivity. Qed.

Lemma pow2_nonzero (e : Z) : ~ 2 ^ e == 0.
Proof. apply Qpower_not_0, two_nonzero. Qed.

Lemma pow2_add (a b : Z) : 2 ^ (a + b) == 2 ^ a * 2 ^ b.
Proof. apply Qpower_plus, two_nonzero. Qed.

Lemma pow2_sub (a b : Z) : 2 ^ (a - b) == 2 ^ a / 2 ^ b.
Proof. apply Qpower_minus, two_nonzero. Qed.

Lemma pow2_le (a b : Z) : (a <= b)%Z -> 2 ^ a <= 2 ^ b.
Proof. intro H. apply Qpower_le_compat_l; [exact H | discriminate]. Qed.

Lemma pow2_lt (a b : Z) : (a < b)%Z -> 2 ^ a < 2 ^ b.
Proof. intro H. apply Qpower_lt_compat_l; [exact H | reflexivity]. Qed.

Lemma pow2_lt_inv (a b : Z) : 2 ^ a < 2 ^ b -> (a < b)%Z.
Proof. intro H. apply (Qpower_lt_compat_l_inv 2); [exact H | reflexivity]. Qed.

Lemma pow2_Z (n : Z) : (0 <= n)%Z -> 2 ^ n == inject_Z (2 ^ n).
Proof. intro H. symmetry. apply (Zpower_Qpower 2 n H). Qed.

Lemma pow2_succ (a : Z) : 2 ^ (a + 1) == 2 * 2 ^ a.
Proof. rewrite pow2_add. change (2 ^ 1) with 2. ring. Qed.

End Powers.

Section Logarithm.
Import Binary64.

Lemma Qabs_quotient (x : Q) :
  Qabs x == inject_Z (Z.abs (Qnum x)) / inject_Z (Zpos (Qden x)).
Proof. destruct x as [n d]. cbn [Qabs Qnum Qden]. apply Qmake_Qdiv. Qed.

Lemma ilog2_spec (x : Q) :
  ~ x == 0 -> 2 ^ ilog2 x <= Qabs x /\ Qabs x < 2 ^ (ilog2 x + 1).
Proof.
  intro Hx.
  set (n := Z.abs (Qnum x)). set (d := Zpos (Qden x)).
  assert (Hn : (0 < n)%Z).
  { unfold n. assert (Qnum x <> 0)%Z; [|lia].
    intro E. apply Hx. unfold Qeq. rewrite E. reflexivity. }
  assert (Hd : (0 < d)%Z) by (unfold d; lia).
  destruct (Z.log2_spec n Hn) as [Ha1 Ha2].
  destruct (Z.log2_spec d Hd) as [Hb1 Hb2].
  pose proof (Z.log2_nonneg n) as Ha0. pose proof (Z.log2_nonneg d) as Hb0.
  set (a := Z.log2 n) in *. set (b := Z.log2 d) in *.
  assert (Habs : Qabs x == inject_Z n / inject_Z d) by apply Qabs_quotient.
  assert (HdQ : 0 < inject_Z d).
  { change 0 with (inject_Z 0). rewrite <- Zlt_Qlt. exact Hd. }
  assert (Hup : Qabs x < 2 ^ (a - b + 1)).
  { rewrite Habs. apply Qlt_shift_div_r; [exact HdQ|].
    replace (a - b + 1)%Z with ((a + 1) - b)%Z by ring.
    rewrite pow2_sub, (pow2_Z (a + 1)), (pow2_Z b) by lia.
    assert (Hb' : 0 < inject_Z (2 ^ b)).
    { change 0 with (inject_Z 0). rewrite <- Zlt_Qlt. lia. }
    unfold Qdiv. rewrite <- Qmult_assoc, (Qmult_comm (/ _)), Qmult_assoc.
    apply Qlt_shift_div_l; [exact Hb'|].
    rewrite <- !inject_Z_mult, <- Zlt_Qlt. nia. }
  assert (Hlow : 2 ^ (a - b - 1) <= Qabs x).
  { rewrite Habs. apply Qle_shift_div_l; [exact HdQ|].
    replace (a - b - 1)%Z with (a - (b + 1))%Z by ring.
    rewrite pow2_sub, (pow2_Z a), (pow2_Z (b + 1)) by lia.
    assert (Hb' : 0 < inject_Z (2 ^ (b + 1))).
    { change 0 with (inject_Z 0). rewrite <- Zlt_Qlt. lia. }
    unfold Qdiv. rewrite <- Qmult_assoc, (Qmult_comm (/ _)), Qmult_assoc.
    apply Qle_shift_div_r; [exact Hb'|].
    rewrite <- !inject_Z_mult, <- Zle_Qle. nia. }
  unfold ilog2. fold n d a b.
  destruct (Qle_bool (2 ^ (a - b)) (Qabs x)) eqn:E.
  - apply Qle_bool_iff in E. split; assumption.
  - split; [exact Hlow|].
    replace (a - b - 1 + 1)%Z with (a - b)%Z by ring.
    apply Qnot_le_lt. intro H. apply Qle_bool_iff in H. congruence.
Qed.

Lemma ilog2_unique (x : Q) (k : Z) :
  2 ^ k <= Qabs x -> Qabs x < 2 ^ (k + 1) -> ilog2 x = k.
Proof.
  intros Hlo Hhi.
  assert (Hx : ~ x == 0).
  { intro E. rewrite E in Hlo. pose proof (pow2_pos k). cbn in Hlo. lra. }
  destruct (ilog2_spec x Hx) as [Slo Shi].
  assert (H1 : (ilog2 x < k + 1)%Z).
  { apply pow2_lt_inv. eapply Qle_lt_trans; eassumption. }
  assert (H2 : (k < ilog2 x + 1)%Z).
  { apply pow2_lt_inv. eapply Qle_lt_trans; eassumption. }
  lia.
Qed.

Lemma ilog2_below (x : Q) (k : Z) :
  ~ x == 0 -> Qabs x < 2 ^ k -> (ilog2 x < k)%Z.
Proof.
  intros Hx H. destruct (ilog2_spec x Hx) as [Slo _].
  apply pow2_lt_inv. eapply Qle_lt_trans; eassumption.
Qed.

Lemma ilog2_above (x : Q) (k : Z) :
  ~ x == 0 -> 2 ^ k <= Qabs x -> (k <= ilog2 x)%Z.
Proof.
  intros Hx H. destruct (ilog2_spec x Hx) as [_ Shi].
  assert (k < ilog2 x + 1)%Z; [|lia].
  apply pow2_lt_inv. eapply Qle_lt_trans; eassumption.
Qed.

Lemma ilog2_monotone (x y : Q) :
  ~ x == 0 -> Qabs x <= Qabs y -> (ilog2 x <= ilog2 y)%Z.
Proof.
  intros Hx H.
  assert (Hy : ~ y == 0).
  { intro E. rewrite E in H. cbn in H.
    apply Hx. apply Qabs_Qle_condition in H. lra. }
  apply ilog2_above; [exact Hy|].
  destruct (ilog2_spec x Hx) as [Slo _]. lra.
Qed.

End Logarithm.

Section NearestEven.
Import Binary64.

Lemma nearest_even_cases (x : Q) :
  let f := Qfloor x in
  (x - inject_Z f < 1 # 2 /\ nearest_even x = f) \/
  (1 # 2 < x - inject_Z f /\ nearest_even x = (f + 1)%Z) \/
  (x - inject_Z f == 1 # 2 /\ (nearest_even x = f \/ nearest_even x = (f + 1)%Z)).
Proof.
  cbv zeta. unfold nearest_even.
  destruct (Qcompare_spec (x - inject_Z (Qfloor x)) (1 # 2)) as [E | E | E].
  - right. right. split; [exact E|]. destruct (Z.even (Qfloor x)); auto.
  - left. auto.
  - right. left. auto.
Qed.

Lemma floor_bounds (x : Q) : inject_Z (Qfloor x) <= x /\ x < inject_Z (Qfloor x) + 1.
Proof.
  split; [apply Qfloor_le|].
  pose proof (Qlt_floor x) as H. rewrite inject_Z_plus in H. exact H.
Qed.

Lemma nearest_even_Z (n : Z) : nearest_even (inject_Z n) = n.
Proof.
  destruct (nearest_even_cases (inject_Z n)) as [[_ E] | [[H _] | [H _]]];
    rewrite Qfloor_Z in *; [exact E | lra | lra].
Qed.

Lemma nearest_even_error (x : Q) :
  x - (1 # 2) <= inject_Z (nearest_even x) /\ inject_Z (nearest_even x) <= x + (1 # 2).
Proof.
  destruct (floor_bounds x) as [Hlo Hhi].
  destruct (nearest_even_cases x) as [[H E] | [[H E] | [H [E | E]]]];
    rewrite E; try rewrite inject_Z_plus; change (inject_Z 1) with 1; lra.
Qed.

Lemma nearest_even_monotone (x y : Q) :
  x <= y -> (nearest_even x <= nearest_even y)%Z.
Proof.
  intro Hxy.
  pose proof (Qfloor_resp_le x y Hxy) as Hf.
  destruct (floor_bounds x) as [Hx1 Hx2]. destruct (floor_bounds y) as [Hy1 Hy2].
  destruct (Z.eq_dec (Qfloor x) (Qfloor y)) as [Eq | Ne].
  - unfold nearest_even. rewrite <- Eq.
    destruct (Qcompare_spec (x - inject_Z (Qfloor x)) (1 # 2)) as [E | E | E];
      destruct (Qcompare_spec (y - inject_Z (Qfloor x)) (1 # 2)) as [E' | E' | E'];
      try lia; try lra; destruct (Z.even (Qfloor x)); lia.
  - assert (Hlt : (Qfloor x + 1 <= Qfloor y)%Z) by lia.
    assert (Hx : (nearest_even x <= Qfloor x + 1)%Z).
    { destruct (nearest_even_cases x) as [[_ E] | [[_ E] | [_ [E | E]]]]; lia. }
    assert (Hy : (Qfloor y <= nearest_even y)%Z).
    { destruct (nearest_even_cases y) as [[_ E] | [[_ E] | [_ [E | E]]]]; lia. }
    lia.
Qed.

Lemma nearest_even_comp (x y : Q) : x == y -> nearest_even x = nearest_even y.
Proof.
  intro E. unfold nearest_even. rewrite (Qfloor_comp x y E).
  assert (E' : x - inject_Z (Qfloor y) == y - inject_Z (Qfloor y)).
  { apply Qplus_comp; [exact E | apply Qeq_refl]. }
  rewrite (Qcompare_comp _ _ E' _ _ (Qeq_refl (1 # 2))). reflexivity.
Qed.

Lemma nearest_even_ge (x : Q) (m : Z) : inject_Z m <= x -> (m <= nearest_even x)%Z.
Proof.
  intro H. rewrite <- (nearest_even_Z m). now apply nearest_even_monotone.
Qed.

Lemma nearest_even_le (x : Q) (m : Z) : x <= inject_Z m -> (nearest_even x <= m)%Z.
Proof.
  intro H. rewrite <- (nearest_even_Z m). now apply nearest_even_monotone.
Qed.

End NearestEven.

Section Rounding.
Import Binary64.

Lemma exponent_min (x : Q) : (-1074 <= exponent x)%Z.
Proof. unfold exponent. lia. Qed.

Lemma exponent_log (x : Q) : (ilog2 x - 52 <= exponent x)%Z.
Proof. unfold exponent. lia. Qed.

Lemma ilog2_comp (x y : Q) : ~ x == 0 -> x == y -> ilog2 x = ilog2 y.
Proof.
  intros Hx E. symmetry. 
  destruct (ilog2_spec x Hx) as [Slo Shi].
  apply ilog2_unique; rewrite <- E; assumption.
Qed.

Lemma round_zero (x : Q) : x == 0 -> round x == 0.
Proof.
  intro E. unfold round. set (e := exponent x).
  assert (E' : x / 2 ^ e == inject_Z 0).
  { rewrite E. unfold Qdiv. change (inject_Z 0) with 0. ring. }
  rewrite (nearest_even_comp _ _ E'), nearest_even_Z.
  change (inject_Z 0) with 0. ring.
Qed.

Lemma round_comp (x y : Q) : x == y -> round x == round y.
Proof.
  intro E.
  destruct (Qeq_dec x 0) as [Z0 | NZ].
  - rewrite (round_zero x Z0). rewrite E in Z0. rewrite (round_zero y Z0). reflexivity.
  - unfold round, exponent. rewrite (ilog2_comp x y NZ E).
    assert (E' : x / 2 ^ Z.max (ilog2 y - 52) (-1074) == y / 2 ^ Z.max (ilog2 y - 52) (-1074))
      by (rewrite E; reflexivity).
    rewrite (nearest_even_comp _ _ E'). reflexivity.
Qed.

#[global] Instance round_proper : Proper (Qeq ==> Qeq) round.
Proof. exact round_comp. Qed.

(** A multiple of a power of two that is not finer than the grid of [x]
    bounds [round x] as it bounds [x]. *)
Lemma grid_point (x : Q) (m e : Z) :
  (exponent x <= e)%Z ->
  inject_Z m * 2 ^ e == inject_Z (m * 2 ^ (e - exponent x)) * 2 ^ exponent x.
Proof.
  intro H. rewrite inject_Z_mult, <- (pow2_Z (e - exponent x)) by lia.
  rewrite <- Qmult_assoc, <- pow2_add.
  replace (e - exponent x + exponent x)%Z with e by ring. reflexivity.
Qed.

Lemma round_above (x : Q) (m e : Z) :
  (exponent x <= e)%Z -> inject_Z m * 2 ^ e <= x -> inject_Z m * 2 ^ e <= round x.
Proof.
  intros He H. rewrite (grid_point x m e He) in *.
  unfold round. pose proof (pow2_pos (exponent x)) as Hp.
  apply Qmult_le_compat_r; [|lra].
  rewrite <- Zle_Qle. apply nearest_even_ge.
  apply Qle_shift_div_l; assumption.
Qed.

Lemma round_below (x : Q) (m e : Z) :
  (exponent x <= e)%Z -> x <= inject_Z m * 2 ^ e -> round x <= inject_Z m * 2 ^ e.
Proof.
  intros He H. rewrite (grid_point x m e He) in *.
  unfold round. pose proof (pow2_pos (exponent x)) as Hp.
  apply Qmult_le_compat_r; [|lra].
  rewrite <- Zle_Qle. apply nearest_even_le.
  apply Qle_shift_div_r; assumption.
Qed.

Lemma round_exact (x : Q) (m e : Z) :
  (exponent x <= e)%Z -> x == inject_Z m * 2 ^ e -> round x == x.
Proof.
  intros He E. apply Qle_antisym.
  - apply Qle_trans with (inject_Z m * 2 ^ e); [|lra].
    apply round_below; [exact He | lra].
  - apply Qle_trans with (inject_Z m * 2 ^ e); [lra|].
    apply round_above; [exact He | lra].
Qed.

Lemma exponent_monotone (x y : Q) :
  ~ x == 0 -> Qabs x <= Qabs y -> (exponent x <= exponent y)%Z.
Proof.
  intros Hx H. unfold exponent. pose proof (ilog2_monotone x y Hx H). lia.
Qed.

Lemma round_nonneg (x : Q) : 0 <= x -> 0 <= round x.
Proof.
  intro H. setoid_replace 0 with (inject_Z 0 * 2 ^ exponent x) by (change (inject_Z 0) with 0; ring).
  apply round_above; [lia|]. change (inject_Z 0) with 0. lra.
Qed.

Lemma round_nonpos (x : Q) : x <= 0 -> round x <= 0.
Proof.
  intro H. setoid_replace 0 with (inject_Z 0 * 2 ^ exponent x) by (change (inject_Z 0) with 0; ring).
  apply round_below; [lia|]. change (inject_Z 0) with 0. lra.
Qed.

Theorem round_monotone (x y : Q) : x <= y -> round x <= round y.
Proof.
  intro Hxy.
  destruct (Qeq_dec x 0) as [X0 | XN].
  { rewrite (round_zero x X0). apply round_nonneg. lra. }
  destruct (Qeq_dec y 0) as [Y0 | YN].
  { rewrite (round_zero y Y0). apply round_nonpos. lra. }
  destruct (Z.lt_trichotomy (exponent x) (exponent y)) as [Hlt | [Heq | Hgt]].
  - (* y lies in a higher binade, so it is positive *)
    assert (Hy : 0 < y).
    { apply Qnot_le_lt. intro Hy.
      assert (Qabs y <= Qabs x).
      { rewrite (Qabs_neg y), (Qabs_neg x) by lra. lra. }
      pose proof (exponent_monotone y x YN H). lia. }
    destruct (ilog2_spec x XN) as [_ Sx]. destruct (ilog2_spec y YN) as [Sy _].
    rewrite (Qabs_pos y) in Sy by lra.
    assert (Hk : (ilog2 x + 1 <= ilog2 y)%Z) by (unfold exponent in Hlt; lia).
    pose proof (pow2_le _ _ Hk) as Hp.
    pose proof (Qle_Qabs x) as Hax.
    apply Qle_trans with (inject_Z 1 * 2 ^ ilog2 y).
    + apply round_below; [unfold exponent in *; lia|].
      change (inject_Z 1) with 1. lra.
    + apply round_above; [unfold exponent in *; lia|].
      change (inject_Z 1) with 1. lra.
  - unfold round. rewrite Heq. pose proof (pow2_pos (exponent y)) as Hp.
    apply Qmult_le_compat_r; [|lra].
    rewrite <- Zle_Qle. apply nearest_even_monotone.
    apply Qmult_le_compat_r; [exact Hxy|].
    apply Qlt_le_weak, Qinv_lt_0_compat, Hp.
  - assert (Hx : x < 0).
    { apply Qnot_le_lt. intro Hx.
      assert (Qabs x <= Qabs y).
      { rewrite (Qabs_pos y), (Qabs_pos x) by lra. lra. }
      pose proof (exponent_monotone x y XN H). lia. }
    destruct (ilog2_spec x XN) as [Sx _]. destruct (ilog2_spec y YN) as [_ Sy].
    rewrite (Qabs_neg x) in Sx by lra.
    assert (Hk : (ilog2 y + 1 <= ilog2 x)%Z) by (unfold exponent in Hgt; lia).
    pose proof (pow2_le _ _ Hk) as Hp.
    destruct (proj1 (Qabs_Qle_condition y (Qabs y)) (Qle_refl _)) as [Hay _].
    apply Qle_trans with (inject_Z (-1) * 2 ^ ilog2 x).
    + apply round_below; [unfold exponent in *; lia|].
      change (inject_Z (-1)) with (-1). lra.
    + apply round_above; [unfold exponent in *; lia|].
      change (inject_Z (-1)) with (-1). lra.
Qed.

End Rounding.

Section Doubles.
Import Binary64.

Lemma Qabs_inject_Z (m : Z) : Qabs (inject_Z m) == inject_Z (Z.abs m).
Proof. reflexivity. Qed.

Lemma exponent_of_grid (x : Q) (m e : Z) :
  ~ x == 0 -> (-1074 <= e)%Z -> (Z.abs m < 2 ^ 53)%Z -> x == inject_Z m * 2 ^ e ->
  (exponent x <= e)%Z.
Proof.
  intros Hx He Hm E.
  assert (H : Qabs x < 2 ^ (53 + e)).
  { rewrite E, Qabs_Qmult, Qabs_inject_Z, (Qabs_pos (2 ^ e))
      by (apply Qlt_le_weak, pow2_pos).
    rewrite pow2_add, (pow2_Z 53) by lia.
    apply Qmult_lt_compat_r; [apply pow2_pos|].
    rewrite <- Zlt_Qlt. exact Hm. }
  pose proof (ilog2_below x (53 + e) Hx H). unfold exponent. lia.
Qed.

Theorem round_representable_id (x : Q) : representable x -> round x == x.
Proof.
  intros (m & e & He & Hm & E).
  destruct (Qeq_dec x 0) as [X0 | XN].
  - rewrite (round_zero x X0). symmetry. exact X0.
  - apply (round_exact x m e); [|exact E].
    now apply (exponent_of_grid x m e).
Qed.

Lemma representable_Z (n : Z) : (Z.abs n < 2 ^ 53)%Z -> representable (inject_Z n).
Proof.
  intro H. exists n, 0%Z. split; [lia|]. split; [exact H|].
  change (2 ^ 0) with 1. ring.
Qed.

Lemma round_Z (n : Z) : (Z.abs n <= 2 ^ 53)%Z -> round (inject_Z n) == inject_Z n.
Proof.
  intro H. destruct (Z.eq_dec (Z.abs n) (2 ^ 53)) as [E | NE].
  - apply round_representable_id.
    change (2 ^ 53)%Z with 9007199254740992%Z in *.
    exists (n / 2)%Z, 1%Z. split; [lia|]. split.
    + change (2 ^ 53)%Z with 9007199254740992%Z.
      assert (n = 9007199254740992 \/ n = -9007199254740992)%Z as [-> | ->] by lia;
        reflexivity.
    + change (2 ^ 1) with (inject_Z 2). rewrite <- inject_Z_mult.
      assert (n = 9007199254740992 \/ n = -9007199254740992)%Z as [-> | ->] by lia;
        reflexivity.
  - apply round_representable_id, representable_Z. lia.
Qed.

Lemma representable_comp (x y : Q) : x == y -> representable x -> representable y.
Proof.
  intros E (m & e & He & Hm & Ex). exists m, e. repeat split; try assumption.
  rewrite <- E. exact Ex.
Qed.

Theorem round_representable (x : Q) : representable (round x).
Proof.
  destruct (Qeq_dec x 0) as [X0 | XN].
  { apply (representable_comp 0); [symmetry; now apply round_zero|].
    exists 0%Z, 0%Z. split; [lia | split; reflexivity]. }
  set (e := exponent x). set (M := nearest_even (x / 2 ^ e)).
  assert (He : (-1074 <= e)%Z) by apply exponent_min.
  pose proof (pow2_pos e) as Hp.
  destruct (ilog2_spec x XN) as [_ Shi].
  assert (Hq : Qabs (x / 2 ^ e) <= inject_Z (2 ^ 53)).
  { unfold Qdiv. rewrite Qabs_Qmult, Qabs_Qinv, (Qabs_pos (2 ^ e)) by lra.
    apply Qle_shift_div_r; [exact Hp|].
    rewrite <- (pow2_Z 53), <- pow2_add by lia.
    apply Qlt_le_weak. eapply Qlt_le_trans; [exact Shi|].
    apply pow2_le. pose proof (exponent_log x). fold e in H. lia. }
  apply Qabs_Qle_condition in Hq. destruct Hq as [Hq1 Hq2].
  assert (HM : (- 2 ^ 53 <= M <= 2 ^ 53)%Z).
  { split.
    - apply nearest_even_ge. rewrite inject_Z_opp. exact Hq1.
    - apply nearest_even_le. exact Hq2. }
  destruct (Z.eq_dec (Z.abs M) (2 ^ 53)) as [E | NE].
  - assert (EM : (M = 9007199254740992 \/ M = -9007199254740992)%Z).
    { change (2 ^ 53)%Z with 9007199254740992%Z in E. lia. }
    exists (M / 2)%Z, (e + 1)%Z. split; [lia|]. split.
    + destruct EM as [-> | ->]; reflexivity.
    + unfold round. fold e M. rewrite pow2_succ.
      assert (EM' : inject_Z M == inject_Z (M / 2) * 2).
      { destruct EM as [-> | ->]; reflexivity. }
      rewrite EM'. ring.
  - exists M, e. split; [exact He|]. split; [lia|]. reflexivity.
Qed.

Corollary round_idempotent (x : Q) : round (round x) == round x.
Proof. apply round_representable_id, round_representable. Qed.

(** Half a unit in the last place bounds the rounding error. *)
Theorem round_error (x : Q) : Qabs (round x - x) <= 2 ^ (exponent x - 1).
Proof.
  unfold round. set (e := exponent x). pose proof (pow2_pos e) as Hp.
  destruct (nearest_even_error (x / 2 ^ e)) as [Hlo Hhi].
  set (M := inject_Z (nearest_even (x / 2 ^ e))) in *.
  assert (Ex : x == x / 2 ^ e * 2 ^ e) by (field; lra).
  assert (E2 : 2 ^ (e - 1) == (1 # 2) * 2 ^ e).
  { rewrite pow2_sub. change (2 ^ 1) with 2. field. }
  rewrite E2. apply Qabs_Qle_condition. split.
  - assert ((x / 2 ^ e - (1 # 2)) * 2 ^ e <= M * 2 ^ e)
      by (apply Qmult_le_compat_r; lra).
    lra.
  - assert (M * 2 ^ e <= (x / 2 ^ e + (1 # 2)) * 2 ^ e)
      by (apply Qmult_le_compat_r; lra).
    lra.
Qed.

(** For values of magnitude below [2 ^ k], [k >= -1021]: error at most
    [2 ^ (k - 54)]. *)
Corollary round_error_below (x : Q) (k : Z) :
  (-1021 <= k)%Z -> Qabs x <= 2 ^ k -> Qabs (round x - x) <= 2 ^ (k - 54).
Proof.
  intros Hk H.
  destruct (Qeq_dec x 0) as [X0 | XN].
  { rewrite (round_zero x X0), X0. cbn. apply Qlt_le_weak, pow2_pos. }
  destruct (Qeq_dec (Qabs x) (2 ^ k)) as [E | NE].
  - (* a power of two is a double *)
    assert (R : representable x).
    { destruct (Qlt_le_dec x 0) as [N | P].
      - exists (-1)%Z, k. split; [lia|]. split; [reflexivity|].
        rewrite (Qabs_neg x) in E by lra. change (inject_Z (-1)) with (-1). lra.
      - exists 1%Z, k. split; [lia|]. split; [reflexivity|].
        rewrite (Qabs_pos x) in E by lra. change (inject_Z 1) with 1. lra. }
    rewrite (round_representable_id x R).
    setoid_replace (x - x) with 0 by ring. cbn. apply Qlt_le_weak, pow2_pos.
  - eapply Qle_trans; [apply round_error|]. apply pow2_le.
    assert (Qabs x < 2 ^ k) by (apply Qle_lt_or_eq in H; tauto).
    pose proof (ilog2_below x k XN H0). unfold exponent. lia.
Qed.

(** The difference of two doubles rounds to zero only when they are equal:
    a comparator [a - b] orders doubles as they are ordered. *)
Lemma representable_multiple (x : Q) :
  representable x -> exists j : Z, x == inject_Z j * 2 ^ (-1074).
Proof.
  intros (m & e & He & _ & E). exists (m * 2 ^ (e + 1074))%Z.
  rewrite inject_Z_mult, <- (pow2_Z (e + 1074)), <- Qmult_assoc, <- pow2_add by lia.
  replace (e + 1074 + -1074)%Z with e by ring. exact E.
Qed.

Theorem sub_sign (a b : Q) :
  representable a -> representable b -> (sub a b <= 0 <-> a <= b).
Proof.
  intros Ra Rb. unfold sub. split; intro H.
  - apply Qnot_lt_le. intro Hlt.
    destruct (representable_multiple a Ra) as [ja Ea].
    destruct (representable_multiple b Rb) as [jb Eb].
    pose proof (pow2_pos (-1074)) as Hp.
    assert (Hj : (jb < ja)%Z).
    { rewrite Zlt_Qlt. apply Qnot_le_lt. intro Hc.
      assert (inject_Z ja * 2 ^ (-1074) <= inject_Z jb * 2 ^ (-1074))
        by (apply Qmult_le_compat_r; lra).
      lra. }
    assert (Hd : inject_Z 1 * 2 ^ (-1074) <= a - b).
    { rewrite Ea, Eb.
      setoid_replace (inject_Z ja * 2 ^ (-1074) - inject_Z jb * 2 ^ (-1074))
        with (inject_Z (ja - jb) * 2 ^ (-1074))
        by (unfold Zminus; rewrite inject_Z_plus, inject_Z_opp; ring).
      apply Qmult_le_compat_r; [|lra]. rewrite <- Zle_Qle. lia. }
    assert (inject_Z 1 * 2 ^ (-1074) <= round (a - b)).
    { assert (R : round (inject_Z 1 * 2 ^ (-1074)) == inject_Z 1 * 2 ^ (-1074)).
      { apply round_representable_id. exists 1%Z, (-1074)%Z.
        split; [lia | split; reflexivity]. }
      rewrite <- R. apply round_monotone. exact Hd. }
    change (inject_Z 1) with 1 in *. lra.
  - apply round_nonpos. lra.
Qed.

End Doubles.

(** ** Risk factors *)

Section RiskFactorBounds.








(** The risk factors a route gets are those stored in its [RawRisk], and the
    stored total is the returned total. *)
Lemma calculateRawRiskScore_total route env :
  totalRawRisk (rr_riskFactors (calculateRawRiskScore route env)) =
  rr_totalRisk (calculateRawRiskScore route env).
Proof. reflexivity. Qed.

End RiskFactorBounds.

(** C7, as amended.  For every integer hour from 0 to 23 the time risk is
    1.0 when the hour is at least 22 or at most 5, otherwise 0.6 when the hour
    is at least 19 or at most 7, otherwise 0.2; hour 7 is in the 0.6 branch,
    and so is hour 6 (hour 8 is the first hour of the 0.2 branch). *)
Theorem C7_time_risk_piecewise (h : Z) (Hrange : (0 <= h <= 23)%Z) :
  let risk := calculateTimeRisk (inject_Z h) in
  ((22 <= h \/ h <= 5)%Z -> risk = 1.0) /\
  (~ (22 <= h \/ h <= 5)%Z -> (19 <= h \/ h <= 7)%Z -> risk = 0.6) /\
  (~ (22 <= h \/ h <= 5)%Z -> ~ (19 <= h \/ h <= 7)%Z -> risk = 0.2) /\
  calculateTimeRisk 7 = 0.6 /\
  calculateTimeRisk 6 = 0.6 /\
  calculateTimeRisk 8 = 0.2.
Proof.
  cbv zeta. unfold calculateTimeRisk.
  change 22 with (inject_Z 22). change 5 with (inject_Z 5).
  change 19 with (inject_Z 19). change 7 with (inject_Z 7) at 1 2 3.
  rewrite !geq_inject_Z, !leq_inject_Z.
  repeat split; try reflexivity.
  - intros [H | H].
    + apply Z.leb_le in H. now rewrite H.
    + apply Z.leb_le in H. rewrite H. now rewrite orb_true_r.
  - intros H1 [H | H].
    + destruct (22 <=? h)%Z eqn:E1; [apply Z.leb_le in E1; tauto|].
      destruct (h <=? 5)%Z eqn:E2; [apply Z.leb_le in E2; tauto|].
      apply Z.leb_le in H. now rewrite H.
    + destruct (22 <=? h)%Z eqn:E1; [apply Z.leb_le in E1; tauto|].
      destruct (h <=? 5)%Z eqn:E2; [apply Z.leb_le in E2; tauto|].
      apply Z.leb_le in H. rewrite H. now rewrite orb_true_r.
  - intros H1 H2.
    destruct (22 <=? h)%Z eqn:E1; [apply Z.leb_le in E1; tauto|].
    destruct (h <=? 5)%Z eqn:E2; [apply Z.leb_le in E2; tauto|].
    destruct (19 <=? h)%Z eqn:E3; [apply Z.leb_le in E3; tauto|].
    destruct (h <=? 7)%Z eqn:E4; [apply Z.leb_le in E4; tauto|].
    reflexivity.
Qed.

Lemma C7_time_risk_piecewise_witness :
  (0 <= 7 <= 23)%Z /\
  (~ (22 <= 7 \/ 7 <= 5)%Z -> (19 <= 7 \/ 7 <= 7)%Z ->
   calculateTimeRisk (inject_Z 7) = 0.6).
Proof.
  split; [lia|].
  exact (proj1 (proj2 (C7_time_risk_piecewise 7 ltac:(lia)))).
Defined.

(** C7, as stated, fails at hour 6: the claim puts hour 7 in the 0.6 branch
    and hour 6 outside it, but the code returns 0.6 for hour 6 as well. *)
Lemma C7_hour_six_counterexample :
  ~ (calculateTimeRisk 7 = 0.6 /\ calculateTimeRisk 6 <> 0.6).
Proof. intros [_ H]. apply H. reflexivity. Qed.



(** ** Area score *)

Section AreaScore.




End AreaScore.




(** ** Submission eligibility *)

Section Eligibility.

Lemma hours_at_least_24 (elapsed : Z) :
  24 <= inject_Z elapsed / (1000 * 60 * 60) <-> (86400000 <= elapsed)%Z.
Proof.
  rewrite Zle_Qle. change (inject_Z 86400000) with (24 * (1000 * 60 * 60)).
  split; intro H.
  - setoid_replace (inject_Z elapsed)
      with (inject_Z elapsed / (1000 * 60 * 60) * (1000 * 60 * 60)) by (field; lra).
    lra.
  - apply Qle_shift_div_l; [reflexivity | exact H].
Qed.

Lemma canUserSubmitFeedback_record (db : Firestore) (now : Z) (userId gridId : string)
    (data : UserGridFeedback) :
  userGridFeedbacks db (userId ++ "_" ++ gridId)%string = Resolved (Some data) ->
  let elapsed := (now - lastSubmittedAt data)%Z in
  ((86400000 <= elapsed)%Z ->
     canUserSubmitFeedback db now userId gridId =
     {| canSubmit := true; hoursRemaining := None |}) /\
  ((elapsed < 86400000)%Z ->
     canUserSubmitFeedback db now userId gridId =
     {| canSubmit := false;
        hoursRemaining :=
          Some (Math_ceil (24 - hours_between (lastSubmittedAt data) now)) |}).
Proof.
  intros Hread. cbv zeta. unfold canUserSubmitFeedback, hours_between.
  rewrite Hread.
  generalize (now - lastSubmittedAt data)%Z as elapsed. intro elapsed.
  split; intro H.
  - pose proof (proj2 (hours_at_least_24 elapsed) H) as H24.
    pose proof (proj2 (geq_true _ _) H24) as E. now rewrite E.
  - destruct (geq (inject_Z elapsed / (1000 * 60 * 60)) 24) eqn:E.
    + pose proof (proj1 (geq_true _ _) E) as H24.
      pose proof (proj1 (hours_at_least_24 elapsed) H24). lia.
    + assert (Hc : Math_ceil (24 - inject_Z elapsed / (1000 * 60 * 60)) =
                   Math_ceil (24 - inject_Z elapsed / 3600000)).
      { apply Qceiling_comp. apply Qplus_comp; [reflexivity|].
        apply Qopp_comp. apply Qdiv_comp; reflexivity. }
      now rewrite Hc.
Qed.

End Eligibility.

(** C5.  When the read of the user's record for the cell succeeds, the
    check allows the submission exactly when there is no record or the
    recorded submission is at least 24 hours (86,400,000 ms) before the call
    time; when it denies, the answer carries [ceil (24 - hoursSinceLast)]
    hours.  A submission made 23 hours ago is denied with one hour remaining,
    one made 25 hours ago is allowed, and a failed read is answered with
    [canSubmit = false]. *)
Theorem C5_eligibility (db : Firestore) (now : Z) (userId gridId : string) :
  let answer := canUserSubmitFeedback db now userId gridId in
  let read := userGridFeedbacks db (userId ++ "_" ++ gridId)%string in
  (forall snapshot, read = Resolved snapshot ->
     (canSubmit answer = true <->
      snapshot = None \/
      exists data, snapshot = Some data /\
                   24 <= hours_between (lastSubmittedAt data) now) /\
     (canSubmit answer = false ->
      exists data, snapshot = Some data /\
        hoursRemaining answer =
        Some (Math_ceil (24 - hours_between (lastSubmittedAt data) now)))) /\
  (forall data, read = Resolved (Some data) ->
     (now - lastSubmittedAt data = 23 * 3600000)%Z ->
     canSubmit answer = false /\ hoursRemaining answer = Some 1%Z) /\
  (forall data, read = Resolved (Some data) ->
     (now - lastSubmittedAt data = 25 * 3600000)%Z ->
     canSubmit answer = true) /\
  (read = Rejected -> canSubmit answer = false).
Proof.
  cbv zeta. split; [|split; [|split]].
  - intros [data|] Hread.
    + destruct (canUserSubmitFeedback_record db now userId gridId data Hread)
        as [Hold Hfresh].
      destruct (Z_le_gt_dec 86400000 (now - lastSubmittedAt data)) as [Hle | Hgt].
      * rewrite (Hold Hle); simpl. split.
        -- split; [|reflexivity].
           intros _. right. exists data. split; [reflexivity|].
           unfold hours_between. change 3600000 with (1000 * 60 * 60).
           exact (proj2 (hours_at_least_24 _) Hle).
        -- discriminate.
      * rewrite (Hfresh ltac:(lia)); simpl. split.
        -- split; [discriminate|].
           intros [Hnone | [d [Hd Hh]]]; [discriminate|].
           injection Hd as <-. unfold hours_between in Hh.
           change 3600000 with (1000 * 60 * 60) in Hh.
           pose proof (proj1 (hours_at_least_24 _) Hh). lia.
        -- intros _. exists data. split; reflexivity.
    + unfold canUserSubmitFeedback. rewrite Hread; simpl. split.
      * split; [intros _; now left | reflexivity].
      * discriminate.
  - intros data Hread Helapsed.
    destruct (canUserSubmitFeedback_record db now userId gridId data Hread)
      as [_ Hfresh].
    rewrite (Hfresh ltac:(lia)); simpl. split; [reflexivity|].
    unfold hours_between. rewrite Helapsed. reflexivity.
  - intros data Hread Helapsed.
    destruct (canUserSubmitFeedback_record db now userId gridId data Hread)
      as [Hold _].
    rewrite (Hold ltac:(lia)). reflexivity.
  - intro Hread. unfold canUserSubmitFeedback. rewrite Hread. reflexivity.
Qed.

Lemma C5_eligibility_witness :
  canUserSubmitFeedback (store_with_submission "u1_12.34_77.65" 1000%Z)
    (1000 + 23 * 3600000)%Z "u1" "12.34_77.65" =
    {| canSubmit := false; hoursRemaining := Some 1%Z |} /\
  canSubmit (canUserSubmitFeedback (store_with_submission "u1_12.34_77.65" 1000%Z)
               (1000 + 25 * 3600000)%Z "u1" "12.34_77.65") = true /\
  canSubmit (canUserSubmitFeedback failing_store 1000%Z "u1" "12.34_77.65") = false.
Proof.
  split; [|split].
  - destruct (proj1 (proj2 (C5_eligibility
        (store_with_submission "u1_12.34_77.65" 1000%Z) (1000 + 23 * 3600000)%Z
        "u1" "12.34_77.65")) {| lastSubmittedAt := 1000%Z |} eq_refl eq_refl)
      as [Hdenied Hhours].
    destruct (canUserSubmitFeedback _ _ _ _) as [c h].
    cbn [canSubmit hoursRemaining] in Hdenied, Hhours. now subst.
  - exact (proj1 (proj2 (proj2 (C5_eligibility
        (store_with_submission "u1_12.34_77.65" 1000%Z) (1000 + 25 * 3600000)%Z
        "u1" "12.34_77.65"))) {| lastSubmittedAt := 1000%Z |} eq_refl eq_refl).
  - exact (proj2 (proj2 (proj2 (C5_eligibility failing_store 1000%Z
        "u1" "12.34_77.65"))) eq_refl).
Defined.

(** ** Grid index *)

Section GridIndex.


End GridIndex.



(** ** Relative scoring *)

Section RelativeScore.

Lemma fold_min_in (rest : list Q) (x : Q) : In (fold_left Qmin rest x) (x :: rest).
Proof.
  revert x. induction rest as [|y rest IH]; intro x; simpl.
  - now left.
  - destruct (IH (Qmin x y)) as [H | H].
    + destruct (Qmin_cases x y) as [E | E]; rewrite E in H |- *; auto.
    + right. now right.
Qed.

Lemma fold_min_le_init (rest : list Q) (x : Q) : fold_left Qmin rest x <= x.
Proof.
  revert x. induction rest as [|y rest IH]; intro x; simpl.
  - apply Qle_refl.
  - eapply Qle_trans; [apply IH|]. apply Q.le_min_l.
Qed.

Lemma fold_min_le (rest : list Q) (x y : Q) :
  In y (x :: rest) -> fold_left Qmin rest x <= y.
Proof.
  revert x. induction rest as [|z rest IH]; intros x Hin; simpl.
  - destruct Hin as [<- | []]. apply Qle_refl.
  - destruct Hin as [<- | [<- | Hin]].
    + eapply Qle_trans; [apply fold_min_le_init|]. apply Q.le_min_l.
    + eapply Qle_trans; [apply fold_min_le_init|]. apply Q.le_min_r.
    + apply IH. now right.
Qed.

Lemma fold_max_in (rest : list Q) (x : Q) : In (fold_left Qmax rest x) (x :: rest).
Proof.
  revert x. induction rest as [|y rest IH]; intro x; simpl.
  - now left.
  - destruct (IH (Qmax x y)) as [H | H].
    + destruct (Qmax_cases x y) as [E | E]; rewrite E in H |- *; auto.
    + right. now right.
Qed.

Lemma fold_max_ge_init (rest : list Q) (x : Q) : x <= fold_left Qmax rest x.
Proof.
  revert x. induction rest as [|y rest IH]; intro x; simpl.
  - apply Qle_refl.
  - eapply Qle_trans; [|apply IH]. apply Q.le_max_l.
Qed.

Lemma fold_max_ge (rest : list Q) (x y : Q) :
  In y (x :: rest) -> y <= fold_left Qmax rest x.
Proof.
  revert x. induction rest as [|z rest IH]; intros x Hin; simpl.
  - destruct Hin as [<- | []]. apply Qle_refl.
  - destruct Hin as [<- | [<- | Hin]].
    + eapply Qle_trans; [|apply fold_max_ge_init]. apply Q.le_max_l.
    + eapply Qle_trans; [|apply fold_max_ge_init]. apply Q.le_max_r.
    + apply IH. now right.
Qed.

Lemma Math_min_lowest (xs : list Q) :
  xs <> [] -> exists m, Math_min xs = Some m /\ lowest m xs.
Proof.
  destruct xs as [|x rest]; [congruence|]. intros _.
  exists (fold_left Qmin rest x). split; [reflexivity|]. split.
  - apply fold_min_in.
  - intros y Hy. now apply fold_min_le.
Qed.

Lemma Math_max_highest (xs : list Q) :
  xs <> [] -> exists m, Math_max xs = Some m /\ highest m xs.
Proof.
  destruct xs as [|x rest]; [congruence|]. intros _.
  exists (fold_left Qmax rest x). split; [reflexivity|]. split.
  - apply fold_max_in.
  - intros y Hy. now apply fold_max_ge.
Qed.

(** A risk of the batch sits at a position between 0 and 1 of its range. *)
Lemma normalized_position_unit (risk mn mx : Q) :
  mn <= risk -> risk <= mx -> 0.01 <= mx - mn ->
  unit_interval (1 - (risk - mn) / (mx - mn)).
Proof.
  intros Hlo Hhi Hspread. unfold unit_interval.
  assert (Hpos : 0 < mx - mn) by lra.
  assert (H0 : 0 <= (risk - mn) / (mx - mn)).
  { apply Qle_shift_div_l; [assumption|]. lra. }
  assert (H1 : (risk - mn) / (mx - mn) <= 1).
  { apply Qle_shift_div_r; [assumption|]. lra. }
  lra.
Qed.

Lemma positionInRange_cases (risk mn mx : Q) (all : list Q) :
  Math_min all = Some mn -> Math_max all = Some mx ->
  (mx - mn < 0.01 -> positionInRange risk all = 0.7) /\
  (0.01 <= mx - mn -> positionInRange risk all = 1 - (risk - mn) / (mx - mn)).
Proof.
  intros Hmin Hmax. unfold positionInRange. rewrite Hmin, Hmax. split; intro H.
  - now rewrite (proj2 (lt_true _ _) H).
  - now rewrite (proj2 (lt_false _ _) H).
Qed.

Lemma interpolate_in_band (lo hi : Z) (position : Q) :
  (lo <= hi)%Z -> unit_interval position ->
  in_band (lo, hi) (interpolate (lo, hi) position).
Proof.
  intros Hle [H0 H1]. unfold in_band, interpolate; simpl.
  rewrite Zle_Qle in Hle.
  apply Math_round_between; nra.
Qed.

Lemma band_ordered (rank N : Z) : (fst (band rank N) <= snd (band rank N))%Z.
Proof.
  unfold band. destruct (rank =? 1)%Z; [simpl; lia|].
  destruct (rank =? N)%Z; simpl; lia.
Qed.

Lemma calculateRelativeScore_single (rank : Z) (risk : Q) (all : list Q) :
  calculateRelativeScore rank 1 risk all =
  Math_round (Qmax 55 (Qmin 90 ((1 - risk) * 100 + 15))) /\
  (55 <= calculateRelativeScore rank 1 risk all <= 90)%Z.
Proof.
  split; [reflexivity|].
  unfold calculateRelativeScore; simpl.
  apply Math_round_between.
  - apply Q.le_max_l.
  - apply Q.max_lub; [|apply Q.le_min_l]. change (inject_Z 90) with 90. lra.
Qed.

Lemma calculateRelativeScore_band (rank N : Z) (risk : Q) (all : list Q) :
  N <> 1%Z ->
  calculateRelativeScore rank N risk all =
  interpolate (band rank N) (positionInRange risk all).
Proof.
  intro HN. unfold calculateRelativeScore, band, interpolate.
  apply Z.eqb_neq in HN. rewrite HN.
  destruct (rank =? 1)%Z; [reflexivity|].
  destruct (rank =? N)%Z; reflexivity.
Qed.


End RelativeScore.



(** ** Sorting and ranking *)

Section StableSort.

Context {A : Type} (key : A -> Q).

Let by_key (a b : A) : Q := key a - key b.
Let key_le (a b : A) : Prop := key a <= key b.

Lemma sort_insert_split (x : A) (s : list A) :
  exists s1 s2,
    s = s1 ++ s2 /\ sort_insert by_key x s = s1 ++ x :: s2 /\
    Forall (fun y => key y < key x) s1 /\
    (forall y rest, s2 = y :: rest -> key x <= key y).
Proof.
  induction s as [|y s IH]; cbn [sort_insert].
  - exists [], []. split; [reflexivity|]. split; [reflexivity|].
    split; [constructor|]. intros; discriminate.
  - destruct (leq (by_key x y) 0) eqn:E.
    + exists [], (y :: s). split; [reflexivity|]. split; [reflexivity|].
      split; [constructor|].
      intros y' rest [= <- <-].
      pose proof (proj1 (leq_true _ _) E) as H. unfold by_key in H. lra.
    + destruct IH as [s1 [s2 [Hs [Hins [Hlt Hhd]]]]].
      exists (y :: s1), s2.
      split; [now rewrite Hs|]. split; [now rewrite Hins|].
      split; [|assumption].
      constructor; [|assumption].
      pose proof (proj1 (leq_false _ _) E) as H. unfold by_key in H. lra.
Qed.

Lemma sort_insert_perm (x : A) (s : list A) :
  Permutation (x :: s) (sort_insert by_key x s).
Proof.
  destruct (sort_insert_split x s) as [s1 [s2 [-> [-> _]]]].
  apply Permutation_middle.
Qed.

Lemma Array_sort_perm (l : list A) : Permutation l (Array_sort by_key l).
Proof.
  induction l as [|x l IH]; cbn [Array_sort]; [constructor|].
  eapply Permutation_trans; [|apply sort_insert_perm]. now constructor.
Qed.

Lemma sort_insert_sorted (x : A) (s : list A) :
  StronglySorted key_le s -> StronglySorted key_le (sort_insert by_key x s).
Proof.
  induction 1 as [|y s Hs IH Hy]; cbn [sort_insert].
  - constructor; constructor.
  - destruct (leq (by_key x y) 0) eqn:E.
    + pose proof (proj1 (leq_true _ _) E) as H. unfold by_key in H.
      constructor; [constructor; assumption|].
      constructor; [unfold key_le; lra|].
      eapply Forall_impl; [|exact Hy]. unfold key_le. intros z Hz. lra.
    + pose proof (proj1 (leq_false _ _) E) as H. unfold by_key in H.
      constructor; [assumption|].
      eapply Permutation_Forall; [apply sort_insert_perm|].
      constructor; [unfold key_le; lra | assumption].
Qed.

Lemma Array_sort_sorted (l : list A) : StronglySorted key_le (Array_sort by_key l).
Proof.
  induction l as [|x l IH]; cbn [Array_sort]; [constructor|].
  now apply sort_insert_sorted.
Qed.

(** Inserting into a sorted list: what ends up behind the new element is
    not smaller than it. *)
Lemma sort_insert_split_sorted (x : A) (s : list A) :
  StronglySorted key_le s ->
  exists s1 s2,
    s = s1 ++ s2 /\ sort_insert by_key x s = s1 ++ x :: s2 /\
    Forall (fun y => key y < key x) s1 /\
    Forall (fun y => key x <= key y) s2.
Proof.
  intro Hs.
  destruct (sort_insert_split x s) as [s1 [s2 [E [Hins [Hlt Hhd]]]]].
  exists s1, s2. split; [assumption|]. split; [assumption|]. split; [assumption|].
  destruct s2 as [|y rest]; [constructor|].
  pose proof (Hhd y rest eq_refl) as Hxy.
  subst s.
  assert (Hs2 : StronglySorted key_le (y :: rest)).
  { clear - Hs. induction s1 as [|z s1 IH]; [exact Hs|].
    apply IH. now inversion Hs. }
  inversion Hs2 as [|? ? _ Hall]; subst.
  constructor; [assumption|].
  eapply Forall_impl; [|exact Hall]. unfold key_le. intros z Hz. lra.
Qed.

Lemma precedes_cons (y : A) (l : list A) (a b : A) :
  precedes l a b -> precedes (y :: l) a b.
Proof. intros [f [m [k ->]]]. now exists (y :: f), m, k. Qed.

Lemma precedes_head (l : list A) (a b : A) : In b l -> precedes (a :: l) a b.
Proof.
  intro Hb. apply in_split in Hb. destruct Hb as [m [k ->]].
  now exists [], m, k.
Qed.

Lemma precedes_cons_inv (x : A) (l : list A) (a b : A) :
  precedes (x :: l) a b -> (a = x /\ In b l) \/ precedes l a b.
Proof.
  intros [f [m [k E]]]. destruct f as [|y f]; simpl in E.
  - injection E as <- ->. left. split; [reflexivity|].
    apply in_or_app. right. now left.
  - injection E as <- ->. right. now exists f, m, k.
Qed.

Lemma precedes_insert (s1 s2 : list A) (x a b : A) :
  precedes (s1 ++ s2) a b -> precedes (s1 ++ x :: s2) a b.
Proof.
  induction s1 as [|y s1 IH]; simpl; intro H.
  - now apply precedes_cons.
  - apply precedes_cons_inv in H. destruct H as [[-> Hb] | H].
    + apply precedes_head. apply in_app_or in Hb. apply in_or_app.
      destruct Hb as [Hb | Hb]; [now left | right; now right].
    + apply precedes_cons. now apply IH.
Qed.

Lemma precedes_new_back (s1 s2 : list A) (x b : A) :
  In b s2 -> precedes (s1 ++ x :: s2) x b.
Proof.
  intro Hb. apply in_split in Hb. destruct Hb as [m [k ->]].
  now exists s1, m, k.
Qed.

Lemma precedes_front_new (s1 s2 : list A) (x a : A) :
  In a s1 -> precedes (s1 ++ x :: s2) a x.
Proof.
  intro Ha. apply in_split in Ha. destruct Ha as [f [m ->]].
  exists f, m, s2. now rewrite <- app_assoc.
Qed.


(** Order: a strictly smaller element ends up in front. *)
Lemma Array_sort_order (l : list A) (a b : A) :
  In a l -> In b l -> key a < key b -> precedes (Array_sort by_key l) a b.
Proof.
  induction l as [|x l IH]; intros Ha Hb Hkey; [contradiction|].
  cbn [Array_sort].
  destruct (sort_insert_split_sorted x (Array_sort by_key l) (Array_sort_sorted l))
    as [s1 [s2 [Hs [-> [Hlt Hge]]]]].
  rewrite Forall_forall in Hlt, Hge.
  assert (Hmem : forall c, In c l -> In c s1 \/ In c s2).
  { intros c Hc. apply (Permutation_in _ (Array_sort_perm l)) in Hc.
    rewrite Hs in Hc. now apply in_app_or. }
  destruct Ha as [<- | Ha], Hb as [<- | Hb].
  - lra.
  - apply precedes_new_back. destruct (Hmem b Hb) as [H | H]; [|assumption].
    specialize (Hlt b H). lra.
  - apply precedes_front_new. destruct (Hmem a Ha) as [H | H]; [assumption|].
    specialize (Hge a H). lra.
  - apply precedes_insert. rewrite <- Hs. now apply IH.
Qed.

End StableSort.

Section Ranking.

Context {A : Type} (ident : A -> string).

Let same_id (a : A) : A -> bool := fun x => String.eqb (ident x) (ident a).

Lemma findIndex_from_skip (p : A -> bool) (l1 l2 : list A) (i : Z) :
  (forall x, In x l1 -> p x = false) ->
  findIndex_from p (l1 ++ l2) i = findIndex_from p l2 (i + Z.of_nat (List.length l1))%Z.
Proof.
  revert i. induction l1 as [|y l1 IH]; intros i Hp.
  - simpl. f_equal. lia.
  - cbn [app findIndex_from]. rewrite (Hp y (or_introl eq_refl)).
    rewrite IH by (intros x Hx; apply Hp; now right).
    f_equal. cbn [List.length]. lia.
Qed.

Lemma front_ids_fresh (front back : list A) (a : A) :
  NoDup (map ident (front ++ a :: back)) -> ~ In (ident a) (map ident front).
Proof.
  intros Hnd H. rewrite map_app in Hnd. cbn [map] in Hnd.
  apply NoDup_remove_2 in Hnd. apply Hnd. apply in_or_app. now left.
Qed.

Lemma findIndex_at (l1 l2 : list A) (a : A) :
  ~ In (ident a) (map ident l1) ->
  findIndex (same_id a) (l1 ++ a :: l2) = Z.of_nat (List.length l1).
Proof.
  intro Hfresh. unfold findIndex. rewrite findIndex_from_skip.
  - cbn [findIndex_from]. unfold same_id at 1. now rewrite String.eqb_refl.
  - intros x Hx. unfold same_id. apply String.eqb_neq. intro E.
    apply Hfresh. rewrite <- E. now apply in_map.
Qed.

Lemma findIndex_precedes (s : list A) (a b : A) :
  NoDup (map ident s) -> precedes s a b ->
  (0 <= findIndex (same_id a) s < findIndex (same_id b) s)%Z.
Proof.
  intros Hnd [f [m [k ->]]].
  assert (Ha : ~ In (ident a) (map ident f))
    by (exact (front_ids_fresh f (m ++ b :: k) a Hnd)).
  assert (Hb : ~ In (ident b) (map ident (f ++ a :: m))).
  { apply (front_ids_fresh (f ++ a :: m) k b).
    now rewrite <- app_assoc. }
  rewrite (findIndex_at f (m ++ b :: k) a Ha).
  replace (f ++ a :: m ++ b :: k) with ((f ++ a :: m) ++ b :: k)
    by (now rewrite <- app_assoc).
  rewrite (findIndex_at (f ++ a :: m) k b Hb).
  rewrite length_app. cbn [List.length]. lia.
Qed.

(** In a list without repeated ids every element is found at its own
    position. *)
Lemma findIndex_positions (pre suf : list A) :
  NoDup (map ident (pre ++ suf)) ->
  map (fun a => findIndex (same_id a) (pre ++ suf)) suf =
  map Z.of_nat (seq (List.length pre) (List.length suf)).
Proof.
  revert pre. induction suf as [|a suf IH]; intros pre Hnd; [reflexivity|].
  cbn [map List.length seq]. f_equal.
  - apply findIndex_at. exact (front_ids_fresh pre suf a Hnd).
  - specialize (IH (pre ++ [a])).
    rewrite <- app_assoc in IH. cbn [app] in IH.
    rewrite IH by assumption.
    rewrite length_app. cbn [List.length]. now rewrite Nat.add_1_r.
Qed.


End Ranking.

Section RankBySortedPosition.

Context {A : Type} (key : A -> Q) (ident : A -> string).

Variable l : list A.
Hypothesis ids_unique : NoDup (map ident l).

Let sorted : list A := Array_sort (fun a b => key a - key b) l.
Let rank_in_sorted (a : A) : Z :=
  (findIndex (fun x => String.eqb (ident x) (ident a)) sorted + 1)%Z.

Lemma sorted_ids_unique : NoDup (map ident sorted).
Proof.
  eapply Permutation_NoDup; [|exact ids_unique].
  apply Permutation_map. apply Array_sort_perm.
Qed.

Lemma ranks_enumerate :
  Permutation (map rank_in_sorted l) (map Z.of_nat (seq 1 (List.length l))).
Proof.
  eapply Permutation_trans.
  { apply Permutation_map. apply (Array_sort_perm key l). }
  fold sorted.
  replace (map rank_in_sorted sorted)
    with (map Z.of_nat (seq 1 (List.length l))); [apply Permutation_refl|].
  unfold rank_in_sorted.
  pose proof (findIndex_positions ident [] sorted sorted_ids_unique) as H.
  cbn [app List.length] in H.
  rewrite <- (map_map (fun a => findIndex (fun x => String.eqb (ident x) (ident a)) sorted)
                 (fun z => (z + 1)%Z)).
  rewrite H.
  replace (List.length sorted) with (List.length l)
    by (apply Permutation_length; apply Array_sort_perm).
  rewrite <- seq_shift, !map_map. apply map_ext. intro n. lia.
Qed.

Lemma smaller_key_smaller_rank (a b : A) :
  In a l -> In b l -> key a < key b ->
  (1 <= rank_in_sorted a < rank_in_sorted b)%Z.
Proof.
  intros Ha Hb Hlt. unfold rank_in_sorted.
  pose proof (findIndex_precedes ident sorted a b sorted_ids_unique
                (Array_sort_order key l a b Ha Hb Hlt)).
  lia.
Qed.

Lemma rank_order_is_key_order (a b : A) :
  In a l -> In b l -> (rank_in_sorted a < rank_in_sorted b)%Z -> key a <= key b.
Proof.
  intros Ha Hb Hrank. apply Qnot_lt_le. intro Hlt.
  pose proof (smaller_key_smaller_rank b a Hb Ha Hlt). lia.
Qed.



End RankBySortedPosition.

Section BatchResults.

Variable env : EnvironmentData.

Lemma routeRisk_ids (routes : list RouteInputData) :
  map (fun x => routeId (route x)) (map (routeRisk_of env) routes) = map routeId routes.
Proof. rewrite map_map. apply map_ext. reflexivity. Qed.

(** Every result is built from the route risk at the same position. *)
Lemma result_at (routes : list RouteInputData) (i : nat) (res : SafetyResult) :
  nth_error (calculateMultipleRoutesSafety routes env) i = Some res ->
  exists rr,
    nth_error (map (routeRisk_of env) routes) i = Some rr /\
    totalRawRisk (riskFactors res) = totalRisk rr /\
    rank res =
    (findIndex (fun x => String.eqb (routeId (route x)) (routeId (route rr)))
       (Array_sort (fun a b => (totalRisk a - totalRisk b)%Q)
          (map (routeRisk_of env) routes)) + 1)%Z.
Proof.
  unfold calculateMultipleRoutesSafety.
  destruct routes as [|r0 rs]; [destruct i; discriminate|].
  cbn [List.length Nat.eqb]. cbv zeta.
  set (routeRisks := map (routeRisk_of env) (r0 :: rs)).
  rewrite nth_error_map.
  destruct (nth_error routeRisks i) as [rr|] eqn:E; [|discriminate].
  intros [= <-]. exists rr. split; [reflexivity|]. split; [|reflexivity].
  cbn [riskFactors].
  apply nth_error_In in E. unfold routeRisks in E. apply in_map_iff in E.
  destruct E as [r [<- _]]. reflexivity.
Qed.

End BatchResults.



(** ** Highlights *)

Section Highlights.

Lemma generateHighlights_at_most_five (rf : RiskFactors) (rank totalRoutes : Z)
    (env : EnvironmentData) :
  (List.length (generateHighlights rf rank totalRoutes env) <= 5)%nat.
Proof. unfold generateHighlights, slice0. apply firstn_le_length. Qed.

Lemma some_push_if_absent (p : string -> bool) (c : bool) (s : string)
    (xs : list string) :
  p s = false -> some p (push_if c s xs) = some p xs.
Proof.
  intro H. unfold some, push_if. destruct c; [|reflexivity].
  rewrite existsb_app. cbn [existsb]. rewrite H. now rewrite !orb_false_r.
Qed.

Lemma length_push_if (c : bool) (s : string) (xs : list string) :
  (List.length xs <= List.length (push_if c s xs) <= S (List.length xs))%nat.
Proof.
  unfold push_if. destruct c; [|lia]. rewrite length_app. cbn [List.length]. lia.
Qed.

(** What the padding block guarantees: to a list of fewer than three
    highlights, none of which mentions traffic, it adds one or two entries,
    and two when the list is empty. *)
Lemma padding_length (pre : list string) :
  some (fun h => includes h "traffic") pre = false ->
  let padded :=
    if (List.length pre <? 3)%nat then
      let highlights :=
        push_if (negb (some (fun h => includes h "traffic") pre))
          "Moderate traffic expected" pre in
      push_if (negb (some (fun h => includes h "conditions") highlights))
        "Standard route conditions" highlights
    else pre in
  (2 <= List.length padded)%nat.
Proof.
  intro Hnone. cbv zeta. rewrite Hnone. cbn [negb push_if].
  destruct (List.length pre <? 3)%nat eqn:E.
  - destruct pre as [|h0 pre].
    + vm_compute. lia.
    + pose proof (length_push_if
        (negb (some (fun h => includes h "conditions")
                 ((h0 :: pre) ++ ["Moderate traffic expected"%string])))
        "Standard route conditions"
        ((h0 :: pre) ++ ["Moderate traffic expected"%string])) as [Hlo _].
      rewrite length_app in Hlo. cbn [List.length] in Hlo.
      cbn [List.length]. lia.
  - apply Nat.ltb_ge in E. lia.
Qed.

(** The guarantee the code does give: between two and five highlights. *)
Lemma generateHighlights_length_bounds (rf : RiskFactors) (rank totalRoutes : Z)
    (env : EnvironmentData) :
  (2 <= List.length (generateHighlights rf rank totalRoutes env) <= 5)%nat.
Proof.
  split; [|apply generateHighlights_at_most_five].
  unfold generateHighlights. cbv zeta.
  match goal with
  | |- context [if (List.length ?pre <? 3)%nat then _ else _] => set (h := pre)
  end.
  assert (Hnone : some (fun x => includes x "traffic") h = false).
  { unfold h. destruct (weatherCondition env); cbn [weather_text];
      rewrite !some_push_if_absent by reflexivity;
      destruct (rank =? 1)%Z; try reflexivity;
      destruct ((rank =? totalRoutes)%Z && (totalRoutes >? 1)%Z); reflexivity. }
  pose proof (padding_length h Hnone) as Hpad. cbv zeta in Hpad.
  unfold slice0. rewrite length_firstn.
  apply Nat.min_glb; [lia | exact Hpad].
Qed.

End Highlights.

(** C9 at its failing input.  The middle route of three, with medium crime,
    partial lighting, a residential road, 5 km, 10 turns, at 19 h in rain,
    triggers no highlight; the padding adds the two filler strings and the
    list has two entries, not three. *)
Theorem C9_two_highlights_only :
  generateHighlights middling 2 3 evening_rain =
    ["Moderate traffic expected"; "Standard route conditions"]%string /\
  map (fun r => (res_routeId r, rank r, List.length (highlights r)))
      (calculateMultipleRoutesSafety [route_c; route_b; route_a] evening_rain) =
    [("c", 3%Z, 4%nat); ("b", 2%Z, 2%nat); ("a", 1%Z, 5%nat)]%string.
Proof. split; vm_compute; reflexivity. Qed.

(** ** Route community score *)

Section RouteCommunity.

Lemma seen_true (x : string) (seen : list string) :
  existsb (String.eqb x) seen = true <-> In x seen.
Proof.
  rewrite existsb_exists. split.
  - intros [y [Hy E]]. apply String.eqb_eq in E. now subst.
  - intro H. exists x. split; [assumption | apply String.eqb_refl].
Qed.

Lemma seen_false (x : string) (seen : list string) :
  existsb (String.eqb x) seen = false <-> ~ In x seen.
Proof.
  rewrite <- seen_true. destruct (existsb (String.eqb x) seen); split; intro H;
    congruence.
Qed.

Lemma unique_from_sound (seen xs : list string) (x : string) :
  In x (unique_from seen xs) -> In x xs /\ ~ In x seen.
Proof.
  revert seen. induction xs as [|y xs IH]; intros seen H; [contradiction|].
  cbn [unique_from] in H. destruct (existsb (String.eqb y) seen) eqn:E.
  - destruct (IH _ H) as [H1 H2]. split; [now right | assumption].
  - destruct H as [<- | H].
    + split; [now left | now apply seen_false].
    + destruct (IH _ H) as [H1 H2]. split; [now right|].
      intro Hs. apply H2. now right.
Qed.

Lemma unique_from_complete (seen xs : list string) (x : string) :
  In x xs -> ~ In x seen -> In x (unique_from seen xs).
Proof.
  revert seen. induction xs as [|y xs IH]; intros seen Hx Hs; [contradiction|].
  cbn [unique_from]. destruct (existsb (String.eqb y) seen) eqn:E.
  - destruct Hx as [-> | Hx]; [apply seen_true in E; contradiction|].
    now apply IH.
  - destruct (string_dec y x) as [-> | Hne]; [now left|].
    right. apply IH.
    + destruct Hx as [Hx | Hx]; [contradiction | assumption].
    + intros [H | H]; [contradiction | apply Hs; assumption].
Qed.

Lemma unique_from_NoDup (seen xs : list string) : NoDup (unique_from seen xs).
Proof.
  revert seen. induction xs as [|y xs IH]; intro seen; cbn [unique_from].
  - constructor.
  - destruct (existsb (String.eqb y) seen); [apply IH|].
    constructor; [|apply IH].
    intro H. apply unique_from_sound in H. destruct H as [_ H].
    apply H. now left.
Qed.

Lemma unique_from_fixed (seen l : list string) :
  NoDup l -> (forall x, In x l -> ~ In x seen) -> unique_from seen l = l.
Proof.
  revert seen. induction l as [|y l IH]; intros seen Hnd Hs; [reflexivity|].
  cbn [unique_from].
  rewrite (proj2 (seen_false y seen) (Hs y (or_introl eq_refl))).
  f_equal. inversion Hnd as [|? ? Hy Hl]; subst. apply IH; [assumption|].
  intros x Hx [<- | H]; [contradiction|].
  apply (Hs x); [now right | assumption].
Qed.

Lemma Set_spread_distinct (xs : list string) :
  NoDup (Set_spread xs) /\ forall x, In x (Set_spread xs) <-> In x xs.
Proof.
  unfold Set_spread. split; [apply unique_from_NoDup|].
  intro x. split.
  - intro H. now apply unique_from_sound in H.
  - intro H. apply unique_from_complete; [assumption | intros []].
Qed.

Lemma Set_spread_fixed (l : list string) : NoDup l -> Set_spread l = l.
Proof. intro H. apply unique_from_fixed; [assumption | intros x _ []]. Qed.

Lemma Map_set_fresh (k : string) (v : Z) (m : ScoreMap) :
  ~ In k (map fst m) -> Map_set k v m = m ++ [(k, v)].
Proof.
  induction m as [|[k' v'] m IH]; intro H; [reflexivity|].
  cbn [Map_set]. destruct (String.eqb k' k) eqn:E.
  - apply String.eqb_eq in E. exfalso. apply H. now left.
  - cbn [app]. f_equal. apply IH. intro Hin. apply H. now right.
Qed.

Lemma scores_of_distinct (db : Firestore) (l : list string) (acc : ScoreMap) :
  NoDup l -> (forall g, In g l -> ~ In g (map fst acc)) ->
  fold_left (fun scores gridId => Map_set gridId (getAreaSafetyScore db gridId) scores)
    l acc =
  acc ++ map (fun g => (g, getAreaSafetyScore db g)) l.
Proof.
  revert acc. induction l as [|g l IH]; intros acc Hnd Hfresh.
  - cbn. now rewrite app_nil_r.
  - cbn [fold_left map]. inversion Hnd as [|? ? Hg Hl]; subst.
    rewrite Map_set_fresh by (apply Hfresh; now left).
    rewrite IH; [now rewrite <- app_assoc | assumption |].
    intros x Hx. rewrite map_app, in_app_iff. cbn [map fst].
    intros [H | [<- | []]]; [|contradiction].
    apply (Hfresh x); [now right | assumption].
Qed.

Lemma getMultipleAreaSafetyScores_distinct (db : Firestore) (l : list string) :
  NoDup l ->
  getMultipleAreaSafetyScores db l = map (fun g => (g, getAreaSafetyScore db g)) l.
Proof.
  intro Hnd. unfold getMultipleAreaSafetyScores.
  rewrite (Set_spread_fixed l Hnd).
  rewrite scores_of_distinct; [reflexivity | assumption | intros g _ []].
Qed.

Lemma route_statistics (entries : ScoreMap) (total covered : Z) :
  fold_left
    (fun acc entry =>
       let '(totalScore, gridsWithData) := acc in
       let score := snd entry in
       ((totalScore + score)%Z,
        if negb (score =? 50)%Z then (gridsWithData + 1)%Z else gridsWithData))
    entries (total, covered) =
  ((total + sumZ (map snd entries))%Z,
   (covered +
    Z.of_nat (List.length (filter (fun s => negb (s =? 50)%Z) (map snd entries))))%Z).
Proof.
  revert total covered. induction entries as [|[g v] entries IH]; intros total covered.
  - cbn. f_equal; lia.
  - cbn [fold_left map snd filter sumZ fold_right]. rewrite IH.
    fold (sumZ (map snd entries)).
    destruct (negb (v =? 50)%Z); cbn [List.length]; f_equal; lia.
Qed.

(** What the route aggregator computes: the number of distinct cells, the
    rounded mean of their scores, and the number of cells whose score is not
    50. *)
Lemma calculateRouteCommunityScore_computes (db : Firestore) (routePoints : list Point) :
  routePoints <> [] ->
  let cells := Set_spread (map (fun p => getGridId (lat p) (lng p)) routePoints) in
  let cellScores := map (getAreaSafetyScore db) cells in
  let result := calculateRouteCommunityScore db routePoints in
  cells <> [] /\
  totalGrids result = Z.of_nat (List.length cells) /\
  score result =
    Math_round (inject_Z (sumZ cellScores) / inject_Z (Z.of_nat (List.length cells))) /\
  coveredGrids result =
    Z.of_nat (List.length (filter (fun s => negb (s =? 50)%Z) cellScores)).
Proof.
  intros Hne. cbv zeta.
  set (cells := Set_spread (map (fun p => getGridId (lat p) (lng p)) routePoints)).
  destruct (Set_spread_distinct (map (fun p => getGridId (lat p) (lng p)) routePoints))
    as [Hnd Hmem]. fold cells in Hnd, Hmem.
  assert (Hcells : cells <> []).
  { destruct routePoints as [|p ps]; [congruence|].
    intro E. specialize (Hmem (getGridId (lat p) (lng p))).
    rewrite E in Hmem. apply (proj2 Hmem). now left. }
  split; [assumption|].
  unfold calculateRouteCommunityScore.
  destruct routePoints as [|p ps]; [congruence|].
  cbn [List.length Nat.eqb]. cbv zeta. fold cells.
  rewrite (getMultipleAreaSafetyScores_distinct db cells Hnd).
  rewrite route_statistics. rewrite !map_map. cbn [snd].
  assert (Hpos : (Z.of_nat (List.length cells) >? 0)%Z = true).
  { destruct cells; [congruence|]. cbn [List.length]. apply Z.gtb_lt. lia. }
  rewrite Hpos. cbn [totalGrids score coveredGrids].
  repeat split; f_equal; lia.
Qed.

(** A cell whose score is not 50 holds data; the converse fails. *)
Lemma score_not_50_holds_data (db : Firestore) (gridId : string) :
  getAreaSafetyScore db gridId <> 50%Z -> holds_data db gridId = true.
Proof.
  unfold getAreaSafetyScore, getAreaSafetyData, holds_data.
  destruct (areas db gridId) as [|[data|]]; congruence.
Qed.

End RouteCommunity.

(** C10 at its failing input.  A route through one cell that holds one safe
    and one unsafe report gets score 50 over one cell, and the cell, although
    it holds data, is not counted as covered. *)
Theorem C10_balanced_cell_not_covered :
  holds_data balanced_store (getGridId (lat balanced_point) (lng balanced_point)) = true /\
  calculateRouteCommunityScore balanced_store [balanced_point] =
    {| score := 50; coveredGrids := 0; totalGrids := 1 |}.
Proof. split; vm_compute; reflexivity. Qed.

(** * Further properties of the scoring engine *)

Section BatchScores.

Lemma Math_round_comp (x y : Q) : x == y -> Math_round x = Math_round y.
Proof. intro H. unfold Math_round. apply Qfloor_comp. now rewrite H. Qed.

Lemma positionInRange_unit (risk : Q) (all : list Q) :
  In risk all -> unit_interval (positionInRange risk all).
Proof.
  intro Hin.
  assert (Hne : all <> []) by (intro E; rewrite E in Hin; contradiction).
  destruct (Math_min_lowest all Hne) as [mn [Hmin [_ Hlow]]].
  destruct (Math_max_highest all Hne) as [mx [Hmax [_ Hhigh]]].
  destruct (positionInRange_cases risk mn mx all Hmin Hmax) as [Hnear Hfar].
  destruct (Qlt_le_dec (mx - mn) 0.01) as [Hs | Hs].
  - rewrite (Hnear Hs). unfold unit_interval. lra.
  - rewrite (Hfar Hs). apply normalized_position_unit; auto.
Qed.

(** The fields of the result at position [i], in terms of the route risk at
    the same position. *)
Lemma result_fields (env : EnvironmentData) (routes : list RouteInputData)
    (i : nat) (res : SafetyResult) :
  nth_error (calculateMultipleRoutesSafety routes env) i = Some res ->
  exists rr,
    nth_error (map (routeRisk_of env) routes) i = Some rr /\
    let n := Z.of_nat (List.length routes) in
    res_routeId res = routeId (route rr) /\
    riskFactors res = rk_riskFactors rr /\
    totalRawRisk (riskFactors res) = totalRisk rr /\
    safetyScore res =
      calculateRelativeScore (rank res) n (totalRisk rr)
        (map totalRisk (map (routeRisk_of env) routes)) /\
    rawRiskScore res = Math_round (totalRisk rr * 100) /\
    safetyCategory res = getSafetyCategory (rank res) n /\
    highlights res = generateHighlights (rk_riskFactors rr) (rank res) n env /\
    recommendations res = generateRecommendations (rk_riskFactors rr) (rank res) n.
Proof.
  unfold calculateMultipleRoutesSafety.
  destruct routes as [|r0 rs]; [destruct i; discriminate|].
  cbn [List.length Nat.eqb]. cbv zeta.
  set (routeRisks := map (routeRisk_of env) (r0 :: rs)).
  rewrite nth_error_map.
  destruct (nth_error routeRisks i) as [rr|] eqn:E; [|discriminate].
  intros [= <-]. exists rr. split; [reflexivity|].
  cbn [res_routeId riskFactors safetyScore rawRiskScore safetyCategory highlights
       recommendations rank].
  repeat (split; [reflexivity|]).
  split.
  - apply nth_error_In in E. unfold routeRisks in E. apply in_map_iff in E.
    destruct E as [r [<- _]]. reflexivity.
  - repeat (split; [reflexivity|]). reflexivity.
Qed.

Lemma relative_score_range (rank n : Z) (risk : Q) (all : list Q) :
  In risk all -> (42 <= calculateRelativeScore rank n risk all <= 92)%Z.
Proof.
  intro Hin. destruct (Z.eq_dec n 1) as [-> | Hn].
  - pose proof (proj2 (calculateRelativeScore_single rank risk all)). lia.
  - rewrite (calculateRelativeScore_band rank n risk all Hn).
    pose proof (interpolate_in_band (fst (band rank n)) (snd (band rank n))
                  (positionInRange risk all) (band_ordered rank n)
                  (positionInRange_unit risk all Hin)) as H.
    rewrite <- surjective_pairing in H. unfold in_band in H.
    revert H. unfold band.
    destruct (rank =? 1)%Z; [cbn [fst snd]; lia|].
    destruct (rank =? n)%Z; cbn [fst snd]; lia.
Qed.

End BatchScores.

(** X1.  Every score the batch function hands out, for any batch and any
    environment, lies between 42 and 92. *)
Theorem X1_scores_between_42_and_92 (routes : list RouteInputData) (env : EnvironmentData) :
  Forall (fun r => (42 <= safetyScore r <= 92)%Z)
    (calculateMultipleRoutesSafety routes env).
Proof.
  apply Forall_forall. intros r Hr.
  apply In_nth_error in Hr. destruct Hr as [i Hi].
  destruct (result_fields env routes i r Hi) as [rr [Hrr Hf]]. cbv zeta in Hf.
  destruct Hf as [_ [_ [_ [Hscore _]]]]. rewrite Hscore.
  apply relative_score_range. apply in_map. eapply nth_error_In. exact Hrr.
Qed.

Section RankRange.

Context {A : Type} (key : A -> Q) (ident : A -> string).

Variable l : list A.
Hypothesis ids_unique : NoDup (map ident l).

Let position_rank (a : A) : Z :=
  (findIndex (fun x => String.eqb (ident x) (ident a))
     (Array_sort (fun a b => (key a - key b)%Q) l) + 1)%Z.

Lemma rank_in_range (a : A) :
  In a l -> (1 <= position_rank a <= Z.of_nat (List.length l))%Z.
Proof.
  intro Ha.
  pose proof (ranks_enumerate key ident l ids_unique) as Hperm.
  assert (Hin : In (position_rank a) (map Z.of_nat (seq 1 (List.length l)))).
  { eapply Permutation_in; [exact Hperm|].
    apply (in_map (fun a => position_rank a)). exact Ha. }
  apply in_map_iff in Hin. destruct Hin as [n [<- Hn]].
  apply in_seq in Hn. lia.
Qed.


End RankRange.

Section ScoreOrder.

Lemma positionInRange_antitone (r1 r2 : Q) (all : list Q) :
  r1 <= r2 -> positionInRange r2 all <= positionInRange r1 all.
Proof.
  intro Hle. unfold positionInRange.
  destruct (Math_min all) as [mn|]; [|apply Qle_refl].
  destruct (Math_max all) as [mx|]; [|apply Qle_refl].
  destruct (JS.lt (mx - mn) 0.01) eqn:E; [apply Qle_refl|].
  pose proof (proj1 (lt_false _ _) E) as Hs.
  assert (Hpos : 0 < mx - mn) by lra.
  assert (H : (r1 - mn) / (mx - mn) <= (r2 - mn) / (mx - mn)).
  { apply Qle_shift_div_l; [assumption|].
    setoid_replace ((r1 - mn) / (mx - mn) * (mx - mn)) with (r1 - mn)
      by (field; lra).
    lra. }
  lra.
Qed.

Lemma interpolate_monotone (lo hi : Z) (p q : Q) :
  (lo <= hi)%Z -> p <= q -> (interpolate (lo, hi) p <= interpolate (lo, hi) q)%Z.
Proof.
  intros Hle Hpq. unfold interpolate; cbn [fst snd].
  rewrite Zle_Qle in Hle. apply Math_round_le. nra.
Qed.

(** A result of the batch, tied to the route risk it was built from. *)
Lemma result_link (env : EnvironmentData) (routes : list RouteInputData)
    (r : SafetyResult) :
  In r (calculateMultipleRoutesSafety routes env) ->
  exists rr,
    In rr (map (routeRisk_of env) routes) /\
    totalRawRisk (riskFactors r) = totalRisk rr /\
    rank r =
      (findIndex (fun x => String.eqb (routeId (route x)) (routeId (route rr)))
         (Array_sort (fun a b => (totalRisk a - totalRisk b)%Q)
            (map (routeRisk_of env) routes)) + 1)%Z /\
    safetyScore r =
      calculateRelativeScore (rank r) (Z.of_nat (List.length routes)) (totalRisk rr)
        (map totalRisk (map (routeRisk_of env) routes)).
Proof.
  intro Hr. apply In_nth_error in Hr. destruct Hr as [i Hi].
  destruct (result_at env routes i r Hi) as [rr [Hrr [Hrisk Hrank]]].
  destruct (result_fields env routes i r Hi) as [rr' [Hrr' Hf]]. cbv zeta in Hf.
  rewrite Hrr in Hrr'. injection Hrr' as <-.
  exists rr. split; [eapply nth_error_In; exact Hrr|].
  split; [exact Hrisk|]. split; [exact Hrank|].
  exact (proj1 (proj2 (proj2 (proj2 Hf)))).
Qed.

End ScoreOrder.

(** X2.  In a batch with pairwise distinct route ids a route ranked before
    another never gets the lower score; the route of rank 1 scores strictly
    above, and the route of the last rank strictly below, every other
    route. *)
Theorem X2_better_rank_never_scores_lower (routes : list RouteInputData)
    (env : EnvironmentData) (Hids : NoDup (map routeId routes)) :
  let results := calculateMultipleRoutesSafety routes env in
  let N := Z.of_nat (List.length routes) in
  forall ri rj, In ri results -> In rj results -> (rank ri < rank rj)%Z ->
    (safetyScore rj <= safetyScore ri)%Z /\
    (rank ri = 1%Z \/ rank rj = N -> (safetyScore rj < safetyScore ri)%Z).
Proof.
  cbv zeta. intros ri rj Hi Hj Hlt.
  set (routeRisks := map (routeRisk_of env) routes).
  assert (Hnd : NoDup (map (fun x => routeId (route x)) routeRisks)).
  { unfold routeRisks. now rewrite routeRisk_ids. }
  destruct (result_link env routes ri Hi) as [a [Ha [Hra [Hka Hsa]]]].
  destruct (result_link env routes rj Hj) as [b [Hb [Hrb [Hkb Hsb]]]].
  fold routeRisks in Ha, Hb, Hka, Hkb, Hsa, Hsb.
  assert (Hrange_a : (1 <= rank ri <= Z.of_nat (List.length routeRisks))%Z).
  { rewrite Hka.
    exact (rank_in_range totalRisk (fun x => routeId (route x)) routeRisks Hnd a Ha). }
  assert (Hrange_b : (1 <= rank rj <= Z.of_nat (List.length routeRisks))%Z).
  { rewrite Hkb.
    exact (rank_in_range totalRisk (fun x => routeId (route x)) routeRisks Hnd b Hb). }
  assert (Hlen : Z.of_nat (List.length routeRisks) = Z.of_nat (List.length routes)).
  { unfold routeRisks. now rewrite length_map. }
  rewrite Hlen in Hrange_a, Hrange_b.
  set (N := Z.of_nat (List.length routes)) in *.
  assert (HN : N <> 1%Z) by lia.
  rewrite Hsa, Hsb.
  rewrite !(calculateRelativeScore_band _ N _ _ HN).
  set (all := map totalRisk routeRisks).
  assert (Hpa : unit_interval (positionInRange (totalRisk a) all))
    by (apply positionInRange_unit; now apply in_map).
  assert (Hpb : unit_interval (positionInRange (totalRisk b) all))
    by (apply positionInRange_unit; now apply in_map).
  pose proof (interpolate_in_band (fst (band (rank ri) N)) (snd (band (rank ri) N))
                _ (band_ordered (rank ri) N) Hpa) as Hba.
  pose proof (interpolate_in_band (fst (band (rank rj) N)) (snd (band (rank rj) N))
                _ (band_ordered (rank rj) N) Hpb) as Hbb.
  rewrite <- surjective_pairing in Hba, Hbb. unfold in_band in Hba, Hbb.
  destruct (Z.eq_dec (rank ri) 1) as [Hi1 | Hi1].
  - (* the first rank against a later one *)
    assert (Ea : band (rank ri) N = (75, 92)%Z).
    { unfold band. now rewrite (proj2 (Z.eqb_eq _ _) Hi1). }
    assert (Eb : (snd (band (rank rj) N) <= 74)%Z).
    { unfold band. rewrite (proj2 (Z.eqb_neq (rank rj) 1) ltac:(lia)).
      destruct (rank rj =? N)%Z; cbn [snd]; lia. }
    rewrite Ea in Hba |- *. cbn [fst snd] in Hba. split; [lia|]. intros _. lia.
  - destruct (Z.eq_dec (rank rj) N) as [HjN | HjN].
    + (* a middle rank against the last one *)
      assert (Ea : band (rank ri) N = (58, 74)%Z).
      { unfold band. rewrite (proj2 (Z.eqb_neq (rank ri) 1) Hi1).
        now rewrite (proj2 (Z.eqb_neq (rank ri) N) ltac:(lia)). }
      assert (Eb : band (rank rj) N = (42, 57)%Z).
      { unfold band. rewrite (proj2 (Z.eqb_neq (rank rj) 1) ltac:(lia)).
        now rewrite (proj2 (Z.eqb_eq (rank rj) N) HjN). }
      rewrite Ea in Hba |- *. rewrite Eb in Hbb |- *. cbn [fst snd] in Hba, Hbb.
      split; [lia|]. intros _. lia.
    + (* two middle ranks: the same band, ordered by risk *)
      assert (Ea : band (rank ri) N = (58, 74)%Z).
      { unfold band. rewrite (proj2 (Z.eqb_neq (rank ri) 1) Hi1).
        now rewrite (proj2 (Z.eqb_neq (rank ri) N) ltac:(lia)). }
      assert (Eb : band (rank rj) N = (58, 74)%Z).
      { unfold band. rewrite (proj2 (Z.eqb_neq (rank rj) 1) ltac:(lia)).
        now rewrite (proj2 (Z.eqb_neq (rank rj) N) HjN). }
      rewrite Ea, Eb. split; [|intros [H | H]; contradiction].
      apply interpolate_monotone; [lia|].
      apply positionInRange_antitone.
      apply (rank_order_is_key_order totalRisk (fun x => routeId (route x))
               routeRisks Hnd a b Ha Hb).
      rewrite <- Hka, <- Hkb. exact Hlt.
Qed.

Lemma X2_better_rank_never_scores_lower_witness :
  NoDup (map routeId four_routes) /\
  match calculateMultipleRoutesSafety four_routes evening_rain with
  | [rc; rb; rb2; ra] =>
      (rank ra < rank rb)%Z /\ (safetyScore rb < safetyScore ra)%Z /\
      (rank rb < rank rb2)%Z /\ (safetyScore rb2 <= safetyScore rb)%Z
  | _ => False
  end.
Proof.
  assert (Hnd : NoDup (map routeId four_routes)).
  { cbn. repeat constructor; cbn; intuition discriminate. }
  split; [exact Hnd|].
  pose proof (X2_better_rank_never_scores_lower four_routes evening_rain Hnd) as H.
  cbv zeta in H.
  destruct (calculateMultipleRoutesSafety four_routes evening_rain)
    as [|rc [|rb [|rb2 [|ra [|extra rest]]]]] eqn:E;
    try (vm_compute in E; discriminate E).
  assert (Hranks : (rank ra = 1 /\ rank rb = 2 /\ rank rb2 = 3)%Z).
  { vm_compute in E. injection E as _ <- <- <-. repeat split. }
  destruct Hranks as (Ha & Hb & Hb2).
  assert (Hab : (rank ra < rank rb)%Z) by (rewrite Ha, Hb; reflexivity).
  assert (Hbb : (rank rb < rank rb2)%Z) by (rewrite Hb, Hb2; reflexivity).
  split; [exact Hab|]. split.
  - apply (H ra rb); [cbn; tauto | cbn; tauto | exact Hab | left; exact Ha].
  - split; [exact Hbb|]. apply (H rb rb2); [cbn; tauto | cbn; tauto | exact Hbb].
Defined.

Section ExtremeRanks.





End ExtremeRanks.



Section RawRiskRange.



End RawRiskRange.



Section ListEntries.

Lemma push_if_keeps (c : bool) (s : string) (xs : list string) (i : nat) (v : string) :
  nth_error xs i = Some v -> nth_error (push_if c s xs) i = Some v.
Proof.
  intro H. unfold push_if. destruct c; [|exact H].
  rewrite nth_error_app1; [exact H|]. apply nth_error_Some. congruence.
Qed.

Lemma slice0_keeps (n : nat) (xs : list string) (i : nat) (v : string) :
  (i < n)%nat -> nth_error xs i = Some v -> nth_error (slice0 n xs) i = Some v.
Proof.
  intros Hi H. unfold slice0. rewrite nth_error_firstn.
  destruct (Nat.ltb_spec i n); [exact H | lia].
Qed.

End ListEntries.

(** X5.  Scoring a single route is total: it yields one result that carries
    the route's id, rank 1 and the category "Safest Option", a score between
    55 and 90, the rank highlight first and the rank recommendation second. *)
Theorem X5_single_route_score (r : RouteInputData) (env : EnvironmentData) :
  exists res,
    calculateRouteSafetyScore r env = Some res /\
    res_routeId res = routeId r /\
    rank res = 1%Z /\
    safetyCategory res = Safest_Option /\
    (55 <= safetyScore res <= 90)%Z /\
    nth_error (highlights res) 0 = Some "✓ Safest among all alternatives"%string /\
    nth_error (recommendations res) 1 =
      Some "This is your safest option - recommended"%string.
Proof.
  unfold calculateRouteSafetyScore, calculateMultipleRoutesSafety.
  cbn [List.length Nat.eqb map hd_error]. cbv zeta.
  eexists. split; [reflexivity|].
  cbn [res_routeId rank safetyCategory safetyScore highlights recommendations].
  assert (Hrank : rankOf (Array_sort (fun a b => totalRisk a - totalRisk b)
                            [routeRisk_of env r]) (route (routeRisk_of env r)) = 1%Z).
  { unfold rankOf, findIndex. cbn [Array_sort sort_insert findIndex_from].
    now rewrite String.eqb_refl. }
  rewrite Hrank.
  split; [reflexivity|]. split; [reflexivity|]. split; [reflexivity|].
  split; [apply (proj2 (calculateRelativeScore_single 1 _ _))|].
  split.
  - unfold generateHighlights. cbv zeta. cbn [Z.eqb Pos.eqb].
    apply slice0_keeps; [lia|].
    repeat first [ apply push_if_keeps
                 | match goal with
                   | |- nth_error (if ?c then _ else _) _ = _ => destruct c
                   end ];
      reflexivity.
  - unfold generateRecommendations. cbv zeta. cbn [Z.eqb Pos.eqb].
    apply slice0_keeps; [lia|].
    repeat first [ apply push_if_keeps
                 | match goal with
                   | |- nth_error (if ?c then _ else _) _ = _ => destruct c
                   end ];
      reflexivity.
Qed.

(** X6.  There are always between one and four recommendations and the
    first is the advice to share the live location.  At night (time risk at
    least 0.8) the route of rank 1, and the route of the last rank of a batch
    with more than one route, get exactly the location advice, their rank
    advice and the two night advices: the slice to four entries drops the
    crime and the lighting advice, whatever the crime and lighting risk. *)
Theorem X6_recommendations_shape (rf : RiskFactors) (rank totalRoutes : Z) :
  let recs := generateRecommendations rf rank totalRoutes in
  (1 <= List.length recs <= 4)%nat /\
  nth_error recs 0 = Some "Share your live location with trusted contacts"%string /\
  (0.8 <= timeRisk rf -> rank = 1%Z ->
     recs = ["Share your live location with trusted contacts";
             "This is your safest option - recommended";
             "Consider traveling with a companion at night";
             "Keep your phone charged and accessible"]%string) /\
  (0.8 <= timeRisk rf -> rank <> 1%Z -> rank = totalRoutes -> (1 < totalRoutes)%Z ->
     recs = ["Share your live location with trusted contacts";
             "Consider the safest alternative if possible";
             "Consider traveling with a companion at night";
             "Keep your phone charged and accessible"]%string).
Proof.
  cbv zeta.
  assert (Hfirst : nth_error (generateRecommendations rf rank totalRoutes) 0 =
                   Some "Share your live location with trusted contacts"%string).
  { unfold generateRecommendations. cbv zeta.
    apply slice0_keeps; [lia|].
    repeat first [ apply push_if_keeps
                 | match goal with
                   | |- context [if ?c then _ else _] => destruct c
                   end ];
      reflexivity. }
  split; [|split; [exact Hfirst|split]].
  - split.
    + assert (H : (0 < List.length (generateRecommendations rf rank totalRoutes))%nat).
      { apply nth_error_Some. congruence. }
      lia.
    + unfold generateRecommendations, slice0. apply firstn_le_length.
  - intros Hnight ->. unfold generateRecommendations. cbv zeta.
    rewrite (proj2 (geq_true _ _) Hnight). cbn [Z.eqb Pos.eqb].
    unfold push_if, slice0.
    destruct (geq (crimeRisk rf) 0.7); destruct (geq (lightingRisk rf) 0.7); reflexivity.
  - intros Hnight Hnot1 HrankN Hmany. unfold generateRecommendations. cbv zeta.
    rewrite (proj2 (geq_true _ _) Hnight).
    rewrite (proj2 (Z.eqb_neq rank 1) Hnot1).
    rewrite (proj2 (Z.eqb_eq rank totalRoutes) HrankN).
    rewrite (proj2 (Z.gtb_lt totalRoutes 1) Hmany). cbn [andb].
    unfold push_if, slice0.
    destruct (geq (crimeRisk rf) 0.7); destruct (geq (lightingRisk rf) 0.7); reflexivity.
Qed.

(** X7.  The lighting estimate agrees with the time risk: whenever the time
    risk is the daytime value 0.2, and more generally at every hour after 6 and
    before 19, the estimate is "well lit" for every road type; the estimate is
    "dark" only for an alley at an hour whose time risk is at least 0.6. *)
Theorem X7_lighting_estimate_follows_time (road : RoadType) (hour : Q) :
  (calculateTimeRisk hour = 0.2 -> estimateLightingLevel road hour = well_lit) /\
  (6 < hour -> hour < 19 -> estimateLightingLevel road hour = well_lit) /\
  (estimateLightingLevel road hour = dark ->
     road = alley /\ 0.6 <= calculateTimeRisk hour).
Proof.
  unfold estimateLightingLevel, calculateTimeRisk. cbv zeta.
  destruct (geq hour 22) eqn:E22; destruct (leq hour 5) eqn:E5;
    destruct (geq hour 19) eqn:E19; destruct (leq hour 7) eqn:E7;
    destruct (leq hour 6) eqn:E6; cbn [orb negb];
    repeat match goal with
           | H : geq _ _ = true |- _ => apply geq_true in H
           | H : geq _ _ = false |- _ => apply geq_false in H
           | H : leq _ _ = true |- _ => apply leq_true in H
           | H : leq _ _ = false |- _ => apply leq_false in H
           end;
    try (exfalso; lra);
    (split; [|split]);
    try discriminate; try reflexivity;
    try (intros; exfalso; lra);
    destruct road; try discriminate; try reflexivity;
    try (intros _; split; [reflexivity | lra]).
Qed.

(** * Further properties of the feedback store *)

Section SubmitCases.

Variables (faults : Faults) (clock : Clock) (d : Database).
Variables (latitude longitude : number) (isSafe : bool).
Variables (experienceText : option string) (ratings : option SafetyRatings).

Let gridId := getGridId latitude longitude.

Let eligibility (u : string) : Eligibility :=
  canUserSubmitFeedback (snapshot (eligibilityReadFails faults) false d)
    (clientNow clock) u gridId.

Let report (u : string) : AreaReport :=
  {| report_gridId := gridId; report_userId := u; FirebaseSafety.isSafe := isSafe;
     FirebaseSafety.experienceText :=
       match experienceText with Some t => trim t | None => ""%string end;
     timestamp := reportTime clock;
     FirebaseSafety.ratings := ratings |}.

Let committed (u : string) : Database :=
  addReport
    (recordUserFeedback (runAreaTransaction d gridId isSafe (transactionTime clock))
       u gridId (recordTime clock))
    (report u).

Lemma submit_refused (cu : option string) :
  (forall u, cu = Some u -> canSubmit (eligibility u) = false) ->
  let out := submitSafetyFeedback cu faults clock d latitude longitude isSafe
               experienceText ratings in
  success (fst out) = false /\ snd out = d /\ newSafetyScore (fst out) = None.
Proof.
  intro H. unfold submitSafetyFeedback. destruct cu as [u|].
  - fold gridId. fold (eligibility u). rewrite (H u eq_refl). cbn. auto.
  - cbn. auto.
Qed.

Lemma submit_committed (u : string) :
  canSubmit (eligibility u) = true ->
  transactionFails faults = false -> recordFails faults = false ->
  reportFails faults = false ->
  submitSafetyFeedback (Some u) faults clock d latitude longitude isSafe
    experienceText ratings =
  ({| success := true;
      message := if isSafe then "Thank you! Area marked as safe."%string
                 else "Thank you! Area marked as unsafe. Stay safe!"%string;
      result_gridId := Some gridId;
      newSafetyScore :=
        Some (getAreaSafetyScore (snapshot false (scoreReadFails faults) (committed u))
                gridId) |},
   committed u).
Proof.
  intros He Ht Hr Hp. unfold submitSafetyFeedback.
  fold gridId. fold (eligibility u). rewrite He, Ht, Hr, Hp. reflexivity.
Qed.

Lemma submit_success_inv (cu : option string) :
  success (fst (submitSafetyFeedback cu faults clock d latitude longitude isSafe
                  experienceText ratings)) = true ->
  exists u,
    cu = Some u /\ canSubmit (eligibility u) = true /\
    transactionFails faults = false /\ recordFails faults = false /\
    reportFails faults = false.
Proof.
  unfold submitSafetyFeedback. destruct cu as [u|]; [|cbn; discriminate].
  fold gridId. fold (eligibility u).
  destruct (canSubmit (eligibility u)) eqn:He; [|cbn; discriminate].
  destruct (transactionFails faults); [cbn; discriminate|].
  destruct (recordFails faults); [cbn; discriminate|].
  destruct (reportFails faults); [cbn; discriminate|].
  intros _. exists u. split; [reflexivity|]. split; [exact He|].
  repeat split; reflexivity.
Qed.

End SubmitCases.

Section DocumentUpdates.

Lemma setDoc_same {A : Type} (docs : string -> option A) (k : string) (v : A) :
  setDoc docs k v k = Some v.
Proof. unfold setDoc. now rewrite String.eqb_refl. Qed.

Lemma setDoc_other {A : Type} (docs : string -> option A) (k k' : string) (v : A) :
  k' <> k -> setDoc docs k v k' = docs k'.
Proof. intro H. unfold setDoc. now rewrite (proj2 (String.eqb_neq k' k) H). Qed.

End DocumentUpdates.

(** X8.  A call that is refused - nobody is signed in, or the cooldown check
    denies the user, also when its read fails - reports failure without a new
    score and leaves the store exactly as it was. *)
Theorem X8_refused_submission_changes_nothing (cu : option string) (faults : Faults)
    (clock : Clock) (d : Database) (latitude longitude : number) (isSafe : bool)
    (experienceText : option string) (ratings : option SafetyRatings)
    (Hrefused : forall u, cu = Some u ->
       canSubmit (canUserSubmitFeedback (snapshot (eligibilityReadFails faults) false d)
                    (clientNow clock) u (getGridId latitude longitude)) = false) :
  let out := submitSafetyFeedback cu faults clock d latitude longitude isSafe
               experienceText ratings in
  success (fst out) = false /\ snd out = d /\ newSafetyScore (fst out) = None.
Proof. now apply submit_refused. Qed.

Lemma X8_refused_submission_changes_nothing_witness :
  canSubmit (canUserSubmitFeedback (snapshot false false after_first_report)
               (clientNow one_hour_later) "alice" (getGridId 12.34 77.65)) = false /\
  success (fst (submitSafetyFeedback (Some "alice"%string) no_faults one_hour_later
                  after_first_report 12.34 77.65 false None None)) = false /\
  snd (submitSafetyFeedback (Some "alice"%string) no_faults one_hour_later
         after_first_report 12.34 77.65 false None None) = after_first_report /\
  newSafetyScore (fst (submitSafetyFeedback (Some "alice"%string) no_faults
                         one_hour_later after_first_report 12.34 77.65 false None None))
    = None.
Proof.
  assert (Hrefused :
    canSubmit (canUserSubmitFeedback (snapshot false false after_first_report)
                 (clientNow one_hour_later) "alice" (getGridId 12.34 77.65)) = false).
  { vm_compute. reflexivity. }
  split; [exact Hrefused|].
  apply (X8_refused_submission_changes_nothing (Some "alice"%string) no_faults
           one_hour_later after_first_report 12.34 77.65 false None None).
  intros u [= <-]. exact Hrefused.
Defined.

(** X9.  A call that reports success was made by a signed-in user and has
    done exactly this: the cell's document holds one more safe (or unsafe)
    report than before and the other count as before, every other cell is
    untouched; the user's cooldown record for the cell holds the server time
    of the write and no other cooldown record changed; one report with the
    cell, the user and the answer was appended to the log; and the new score
    returned is the score of the updated counts (50 if the final read
    failed). *)
Theorem X9_successful_submission_effect (cu : option string) (faults : Faults)
    (clock : Clock) (d : Database) (latitude longitude : number) (isSafe : bool)
    (experienceText : option string) (ratings : option SafetyRatings) :
  let g := getGridId latitude longitude in
  let out := submitSafetyFeedback cu faults clock d latitude longitude isSafe
               experienceText ratings in
  let d' := snd out in
  success (fst out) = true ->
  exists u,
    cu = Some u /\
    safe_reports d' g == safe_reports d g + (if isSafe then 1 else 0) /\
    unsafe_reports d' g == unsafe_reports d g + (if isSafe then 0 else 1) /\
    (forall g', g' <> g -> areaDocs d' g' = areaDocs d g') /\
    feedbackDocs d' (cooldown_key u g) = Some {| lastSubmittedAt := recordTime clock |} /\
    (forall k, k <> cooldown_key u g -> feedbackDocs d' k = feedbackDocs d k) /\
    (exists report,
       areaReports d' = areaReports d ++ [report] /\
       report_gridId report = g /\ report_userId report = u /\
       FirebaseSafety.isSafe report = isSafe /\
       timestamp report = reportTime clock) /\
    appFeedbacks d' = appFeedbacks d /\
    result_gridId (fst out) = Some g /\
    newSafetyScore (fst out) =
      Some (if scoreReadFails faults then 50%Z
            else calculateAreaSafetyScore (safe_reports d' g) (unsafe_reports d' g)).
Proof.
  cbv zeta. intro Hsuccess.
  destruct (submit_success_inv faults clock d latitude longitude isSafe
              experienceText ratings cu Hsuccess) as [u [-> [He [Ht [Hr Hp]]]]].
  rewrite (submit_committed faults clock d latitude longitude isSafe
             experienceText ratings u He Ht Hr Hp).
  cbn [fst snd success result_gridId newSafetyScore].
  set (g := getGridId latitude longitude).
  exists u. split; [reflexivity|].
  unfold safe_reports, unsafe_reports, addReport, recordUserFeedback,
    runAreaTransaction; cbn [areaDocs feedbackDocs areaReports appFeedbacks].
  rewrite setDoc_same.
  split; [|split; [|split; [|split; [|split; [|split; [|split; [|split]]]]]]].
  - unfold updatedArea. destruct (areaDocs d g); destruct isSafe; cbn [safeCount]; lra.
  - unfold updatedArea. destruct (areaDocs d g); destruct isSafe; cbn [unsafeCount]; lra.
  - intros g' Hg'. now apply setDoc_other.
  - apply setDoc_same.
  - intros k Hk. now apply setDoc_other.
  - eexists. split; [reflexivity|]. cbn. auto.
  - reflexivity.
  - reflexivity.
  - unfold getAreaSafetyScore, getAreaSafetyData, snapshot; cbn [areas areaDocs].
    destruct (scoreReadFails faults); [reflexivity|].
    now rewrite setDoc_same.
Qed.

Lemma X9_successful_submission_effect_witness :
  success (fst (submitSafetyFeedback (Some "alice"%string) no_faults noon empty_database
                  12.34 77.65 true None None)) = true /\
  exists u,
    Some "alice"%string = Some u /\
    safe_reports after_first_report (getGridId 12.34 77.65) ==
      safe_reports empty_database (getGridId 12.34 77.65) + 1 /\
    unsafe_reports after_first_report (getGridId 12.34 77.65) ==
      unsafe_reports empty_database (getGridId 12.34 77.65) + 0 /\
    (forall g', g' <> getGridId 12.34 77.65 ->
       areaDocs after_first_report g' = areaDocs empty_database g') /\
    feedbackDocs after_first_report (cooldown_key u (getGridId 12.34 77.65)) =
      Some {| lastSubmittedAt := recordTime noon |} /\
    (forall k, k <> cooldown_key u (getGridId 12.34 77.65) ->
       feedbackDocs after_first_report k = feedbackDocs empty_database k) /\
    (exists report,
       areaReports after_first_report = areaReports empty_database ++ [report] /\
       report_gridId report = getGridId 12.34 77.65 /\ report_userId report = u /\
       FirebaseSafety.isSafe report = true /\
       timestamp report = reportTime noon) /\
    appFeedbacks after_first_report = appFeedbacks empty_database /\
    result_gridId (fst (submitSafetyFeedback (Some "alice"%string) no_faults noon
                          empty_database 12.34 77.65 true None None)) =
      Some (getGridId 12.34 77.65) /\
    newSafetyScore (fst (submitSafetyFeedback (Some "alice"%string) no_faults noon
                           empty_database 12.34 77.65 true None None)) =
      Some (if scoreReadFails no_faults then 50%Z
            else calculateAreaSafetyScore
                   (safe_reports after_first_report (getGridId 12.34 77.65))
                   (unsafe_reports after_first_report (getGridId 12.34 77.65))).
Proof.
  assert (Hsuccess :
    success (fst (submitSafetyFeedback (Some "alice"%string) no_faults noon
                    empty_database 12.34 77.65 true None None)) = true).
  { vm_compute. reflexivity. }
  split; [exact Hsuccess|].
  exact (X9_successful_submission_effect (Some "alice"%string) no_faults noon
           empty_database 12.34 77.65 true None None Hsuccess).
Defined.

Section Cooldown.

Lemma eligible_without_record (d : Database) (now : Z) (u g : string) :
  feedbackDocs d (cooldown_key u g) = None ->
  canSubmit (canUserSubmitFeedback (snapshot false false d) now u g) = true.
Proof.
  intro H. unfold canUserSubmitFeedback, snapshot; cbn [userGridFeedbacks].
  unfold cooldown_key in H. now rewrite H.
Qed.

Lemma denied_within_24_hours (d : Database) (readFails : bool) (now : Z)
    (u g : string) (last : Z) :
  feedbackDocs d (cooldown_key u g) = Some {| lastSubmittedAt := last |} ->
  (now - last < 86400000)%Z ->
  canSubmit (canUserSubmitFeedback (snapshot readFails false d) now u g) = false.
Proof.
  intros Hdoc Hfresh. destruct readFails.
  - unfold canUserSubmitFeedback, snapshot; cbn [userGridFeedbacks]. reflexivity.
  - assert (Hread : userGridFeedbacks (snapshot false false d) (u ++ "_" ++ g)%string =
                    Resolved (Some {| lastSubmittedAt := last |})).
    { unfold snapshot; cbn [userGridFeedbacks]. unfold cooldown_key in Hdoc.
      now rewrite Hdoc. }
    destruct (canUserSubmitFeedback_record _ now u g _ Hread) as [_ H].
    cbn [lastSubmittedAt] in H. now rewrite (H Hfresh).
Qed.

Lemma allowed_after_24_hours (d : Database) (now : Z) (u g : string) (last : Z) :
  feedbackDocs d (cooldown_key u g) = Some {| lastSubmittedAt := last |} ->
  (86400000 <= now - last)%Z ->
  canSubmit (canUserSubmitFeedback (snapshot false false d) now u g) = true.
Proof.
  intros Hdoc Hold.
  assert (Hread : userGridFeedbacks (snapshot false false d) (u ++ "_" ++ g)%string =
                  Resolved (Some {| lastSubmittedAt := last |})).
  { unfold snapshot; cbn [userGridFeedbacks]. unfold cooldown_key in Hdoc.
    now rewrite Hdoc. }
  destruct (canUserSubmitFeedback_record _ now u g _ Hread) as [H _].
  cbn [lastSubmittedAt] in H. now rewrite (H Hold).
Qed.

(** The store a successful call leaves holds the user's cooldown record. *)
Lemma success_records_cooldown (cu : option string) (faults : Faults) (clock : Clock)
    (d : Database) (latitude longitude : number) (isSafe : bool)
    (experienceText : option string) (ratings : option SafetyRatings) :
  success (fst (submitSafetyFeedback cu faults clock d latitude longitude isSafe
                  experienceText ratings)) = true ->
  exists u,
    cu = Some u /\
    feedbackDocs
      (snd (submitSafetyFeedback cu faults clock d latitude longitude isSafe
              experienceText ratings))
      (cooldown_key u (getGridId latitude longitude)) =
    Some {| lastSubmittedAt := recordTime clock |}.
Proof.
  intro Hsuccess.
  destruct (submit_success_inv faults clock d latitude longitude isSafe
              experienceText ratings cu Hsuccess) as [u [-> [He [Ht [Hr Hp]]]]].
  rewrite (submit_committed faults clock d latitude longitude isSafe
             experienceText ratings u He Ht Hr Hp).
  exists u. split; [reflexivity|].
  cbn [snd]. unfold addReport, recordUserFeedback; cbn [feedbackDocs].
  apply setDoc_same.
Qed.

End Cooldown.

(** X10.  After a successful submission the same user is refused for the
    same cell, with the store left unchanged, by every call whose client
    clock is less than 24 hours (86,400,000 ms) after the server time of the
    cooldown record - whatever else the call says and whether or not its
    reads fail; a call at least 24 hours later in which nothing fails
    succeeds again. *)
Theorem X10_cooldown_after_success (cu : option string) (faults : Faults)
    (clock : Clock) (d : Database) (latitude longitude : number) (isSafe : bool)
    (experienceText : option string) (ratings : option SafetyRatings)
    (Hsuccess :
       success (fst (submitSafetyFeedback cu faults clock d latitude longitude isSafe
                       experienceText ratings)) = true) :
  let d1 := snd (submitSafetyFeedback cu faults clock d latitude longitude isSafe
                   experienceText ratings) in
  forall (faults' : Faults) (clock' : Clock) (latitude' longitude' : number)
         (isSafe' : bool) (experienceText' : option string)
         (ratings' : option SafetyRatings),
    getGridId latitude' longitude' = getGridId latitude longitude ->
    let out := submitSafetyFeedback cu faults' clock' d1 latitude' longitude' isSafe'
                 experienceText' ratings' in
    ((clientNow clock' - recordTime clock < 86400000)%Z ->
       success (fst out) = false /\ snd out = d1) /\
    ((86400000 <= clientNow clock' - recordTime clock)%Z -> faults' = no_faults ->
       success (fst out) = true).
Proof.
  cbv zeta. intros faults' clock' latitude' longitude' isSafe' text' ratings' Hcell.
  destruct (success_records_cooldown cu faults clock d latitude longitude isSafe
              experienceText ratings Hsuccess) as [u [-> Hdoc]].
  set (d1 := snd (submitSafetyFeedback (Some u) faults clock d latitude longitude
                    isSafe experienceText ratings)) in *.
  split.
  - intro Hfresh.
    destruct (submit_refused faults' clock' d1 latitude' longitude' isSafe' text'
                ratings' (Some u)) as [H1 [H2 _]]; [|auto].
    intros u' [= <-]. rewrite Hcell.
    eapply denied_within_24_hours; eassumption.
  - intros Hold ->.
    rewrite (submit_committed no_faults clock' d1 latitude' longitude' isSafe' text'
               ratings' u); try reflexivity.
    cbn [eligibilityReadFails no_faults]. rewrite Hcell.
    eapply allowed_after_24_hours; eassumption.
Qed.

Lemma X10_cooldown_after_success_witness :
  success (fst (submitSafetyFeedback (Some "alice"%string) no_faults noon empty_database
                  12.34 77.65 true None None)) = true /\
  (success (fst (submitSafetyFeedback (Some "alice"%string) only_record_fails
                   one_hour_later after_first_report 12.3414 77.6532 false None None))
     = false /\
   snd (submitSafetyFeedback (Some "alice"%string) only_record_fails one_hour_later
          after_first_report 12.3414 77.6532 false None None) = after_first_report) /\
  success (fst (submitSafetyFeedback (Some "alice"%string) no_faults next_day
                  after_first_report 12.3414 77.6532 false None None)) = true.
Proof.
  assert (Hsuccess :
    success (fst (submitSafetyFeedback (Some "alice"%string) no_faults noon
                    empty_database 12.34 77.65 true None None)) = true).
  { vm_compute. reflexivity. }
  assert (Hcell : getGridId 12.3414 77.6532 = getGridId 12.34 77.65).
  { vm_compute. reflexivity. }
  split; [exact Hsuccess|].
  pose proof (X10_cooldown_after_success (Some "alice"%string) no_faults noon
                empty_database 12.34 77.65 true None None Hsuccess) as H.
  cbv zeta in H. split.
  - apply (proj1 (H only_record_fails one_hour_later 12.3414 77.6532 false None None
                    Hcell)).
    cbn. lia.
  - apply (proj2 (H no_faults next_day 12.3414 77.6532 false None None Hcell));
      [cbn; lia | reflexivity].
Defined.

Section SequentialSubmissions.

Lemma length_append (s t : string) :
  String.length (s ++ t) = (String.length s + String.length t)%nat.
Proof.
  induction s as [|c s IH]; cbn [append String.length]; [reflexivity|].
  now rewrite IH.
Qed.

Lemma append_right_cancel (u u' t : string) :
  (u ++ t = u' ++ t)%string -> u = u'.
Proof.
  revert u'. induction u as [|c u IH]; intros [|c' u'] H.
  - reflexivity.
  - exfalso. apply (f_equal String.length) in H.
    cbn [append String.length] in H. rewrite length_append in H. lia.
  - exfalso. apply (f_equal String.length) in H.
    cbn [append String.length] in H. rewrite length_append in H. lia.
  - cbn [append] in H. injection H as -> H. f_equal. now apply IH.
Qed.

Lemma cooldown_key_user (u u' g : string) :
  cooldown_key u g = cooldown_key u' g -> u = u'.
Proof. unfold cooldown_key. apply append_right_cancel. Qed.

Variables (latitude longitude : number).

Let g := getGridId latitude longitude.

Let step (db : Database) (s : Submission) : Database :=
  snd (submitSafetyFeedback (Some (by_user s)) no_faults (at_clock s) db
         latitude longitude (says_safe s) (with_text s) (with_ratings s)).

(** One fault-free submission of a user without cooldown record. *)
Lemma step_effect (db : Database) (s : Submission) :
  feedbackDocs db (cooldown_key (by_user s) g) = None ->
  safe_reports (step db s) g == safe_reports db g + (if says_safe s then 1 else 0) /\
  unsafe_reports (step db s) g == unsafe_reports db g + (if says_safe s then 0 else 1) /\
  List.length (areaReports (step db s)) = S (List.length (areaReports db)) /\
  feedbackDocs (step db s) (cooldown_key (by_user s) g) =
    Some {| lastSubmittedAt := recordTime (at_clock s) |} /\
  (forall k, k <> cooldown_key (by_user s) g ->
     feedbackDocs (step db s) k = feedbackDocs db k).
Proof.
  intro Hnone. unfold step.
  rewrite (submit_committed no_faults (at_clock s) db latitude longitude (says_safe s)
             (with_text s) (with_ratings s) (by_user s)); try reflexivity.
  2:{ cbn [eligibilityReadFails no_faults]. now apply eligible_without_record. }
  cbn [snd]. fold g.
  unfold safe_reports, unsafe_reports, addReport, recordUserFeedback,
    runAreaTransaction; cbn [areaDocs feedbackDocs areaReports].
  rewrite setDoc_same.
  split; [|split; [|split; [|split]]].
  - unfold updatedArea. destruct (areaDocs db g); destruct (says_safe s);
      cbn [safeCount]; lra.
  - unfold updatedArea. destruct (areaDocs db g); destruct (says_safe s);
      cbn [unsafeCount]; lra.
  - rewrite length_app. cbn [List.length]. lia.
  - apply setDoc_same.
  - intros k Hk. now apply setDoc_other.
Qed.

Lemma submit_each_effect (subs : list Submission) (d : Database) :
  NoDup (map by_user subs) ->
  (forall s, In s subs -> feedbackDocs d (cooldown_key (by_user s) g) = None) ->
  let d' := submit_each latitude longitude subs d in
  safe_reports d' g == safe_reports d g + inject_Z (count_safe subs) /\
  unsafe_reports d' g == unsafe_reports d g + inject_Z (count_unsafe subs) /\
  List.length (areaReports d') = (List.length (areaReports d) + List.length subs)%nat /\
  (forall s, In s subs ->
     feedbackDocs d' (cooldown_key (by_user s) g) =
     Some {| lastSubmittedAt := recordTime (at_clock s) |}) /\
  (forall k, (forall s, In s subs -> k <> cooldown_key (by_user s) g) ->
     feedbackDocs d' k = feedbackDocs d k).
Proof.
  revert d. induction subs as [|s rest IH]; intros d Hnd Hnone; cbv zeta.
  - unfold submit_each, count_safe, count_unsafe.
    cbn [fold_left filter List.length Z.of_nat].
    change (inject_Z 0) with 0.
    split; [lra|]. split; [lra|]. split; [lia|]. split; [intros s []|]. reflexivity.
  - unfold submit_each. cbn [fold_left]. fold (step d s).
    fold (submit_each latitude longitude rest (step d s)).
    cbn [map] in Hnd. inversion Hnd as [|? ? Hfresh Hnd']; subst.
    destruct (step_effect d s (Hnone s (or_introl eq_refl)))
      as [Hsafe [Hunsafe [Hlen [Hrec Hframe]]]].
    assert (Hdistinct : forall s', In s' rest ->
              cooldown_key (by_user s') g <> cooldown_key (by_user s) g).
    { intros s' Hs' E. apply cooldown_key_user in E.
      apply Hfresh. rewrite <- E. now apply in_map. }
    assert (Hnone' : forall s', In s' rest ->
              feedbackDocs (step d s) (cooldown_key (by_user s') g) = None).
    { intros s' Hs'. rewrite Hframe by (now apply Hdistinct).
      apply Hnone. now right. }
    destruct (IH (step d s) Hnd' Hnone') as [Isafe [Iunsafe [Ilen [Irec Iframe]]]].
    split; [|split; [|split; [|split]]].
    + rewrite Isafe, Hsafe. unfold count_safe. cbn [filter].
      destruct (says_safe s); cbn [List.length];
        rewrite ?Nat2Z.inj_succ, ?inject_Z_plus; unfold Z.succ;
        rewrite ?inject_Z_plus; change (inject_Z 1) with 1; lra.
    + rewrite Iunsafe, Hunsafe. unfold count_unsafe. cbn [filter].
      destruct (says_safe s); cbn [negb List.length];
        rewrite ?Nat2Z.inj_succ, ?inject_Z_plus; unfold Z.succ;
        rewrite ?inject_Z_plus; change (inject_Z 1) with 1; lra.
    + rewrite Ilen, Hlen. cbn [List.length]. lia.
    + intros s' [<- | Hs'].
      * rewrite Iframe; [exact Hrec|].
        intros s' Hs' E. exact (Hdistinct s' Hs' (eq_sym E)).
      * now apply Irec.
    + intros k Hk. rewrite Iframe.
      * apply Hframe. apply Hk. now left.
      * intros s' Hs'. apply Hk. now right.
Qed.

End SequentialSubmissions.

(** X11.  When users with pairwise distinct ids, none of whom has a cooldown
    record for the cell, submit for the same position one after the other and
    nothing fails, every submission is counted: the cell's safe count grows
    by the number of "safe" answers and its unsafe count by the number of
    "unsafe" answers, the log grows by one report per submission, and every
    user's cooldown record holds the server time of that user's write. *)
Theorem X11_sequential_submissions_all_counted (latitude longitude : number)
    (subs : list Submission) (d : Database)
    (Hdistinct : NoDup (map by_user subs))
    (Hfresh : forall s, In s subs ->
       feedbackDocs d (cooldown_key (by_user s) (getGridId latitude longitude)) = None) :
  let g := getGridId latitude longitude in
  let d' := submit_each latitude longitude subs d in
  safe_reports d' g == safe_reports d g + inject_Z (count_safe subs) /\
  unsafe_reports d' g == unsafe_reports d g + inject_Z (count_unsafe subs) /\
  List.length (areaReports d') = (List.length (areaReports d) + List.length subs)%nat /\
  (forall s, In s subs ->
     feedbackDocs d' (cooldown_key (by_user s) g) =
     Some {| lastSubmittedAt := recordTime (at_clock s) |}).
Proof.
  cbv zeta.
  destruct (submit_each_effect latitude longitude subs d Hdistinct Hfresh)
    as [H1 [H2 [H3 [H4 _]]]].
  auto.
Qed.

Lemma X11_sequential_submissions_all_counted_witness :
  NoDup (map by_user two_submissions) /\
  safe_reports (submit_each 12.34 77.65 two_submissions empty_database)
      (getGridId 12.34 77.65) ==
    safe_reports empty_database (getGridId 12.34 77.65) +
    inject_Z (count_safe two_submissions) /\
  unsafe_reports (submit_each 12.34 77.65 two_submissions empty_database)
      (getGridId 12.34 77.65) ==
    unsafe_reports empty_database (getGridId 12.34 77.65) +
    inject_Z (count_unsafe two_submissions) /\
  List.length (areaReports (submit_each 12.34 77.65 two_submissions empty_database)) =
    (List.length (areaReports empty_database) + List.length two_submissions)%nat /\
  (forall s, In s two_submissions ->
     feedbackDocs (submit_each 12.34 77.65 two_submissions empty_database)
       (cooldown_key (by_user s) (getGridId 12.34 77.65)) =
     Some {| lastSubmittedAt := recordTime (at_clock s) |}).
Proof.
  assert (Hdistinct : NoDup (map by_user two_submissions)).
  { cbn. repeat constructor; cbn; intuition discriminate. }
  split; [exact Hdistinct|].
  apply (X11_sequential_submissions_all_counted 12.34 77.65 two_submissions
           empty_database Hdistinct).
  intros s _. reflexivity.
Defined.

Section StoreGrowth.

(** [d'] holds everything [d] holds, and at most one report more. *)
Let extends (d d' : Database) : Prop :=
  (exists added, areaReports d' = areaReports d ++ added /\ (List.length added <= 1)%nat) /\
  (forall g,
     safe_reports d g <= safe_reports d' g /\
     unsafe_reports d g <= unsafe_reports d' g /\
     safe_reports d' g + unsafe_reports d' g <=
       safe_reports d g + unsafe_reports d g + 1) /\
  (forall g, areaDocs d g <> None -> areaDocs d' g <> None) /\
  (forall k, feedbackDocs d k <> None -> feedbackDocs d' k <> None) /\
  appFeedbacks d' = appFeedbacks d.

Lemma extends_refl (d : Database) : extends d d.
Proof.
  unfold extends. split; [exists []; rewrite app_nil_r; split; [reflexivity | cbn; lia]|].
  split; [intro g; lra|]. auto.
Qed.

Lemma extends_transaction (d : Database) (g : string) (isSafe : bool) (t : Z) :
  extends d (runAreaTransaction d g isSafe t).
Proof.
  unfold extends, runAreaTransaction, safe_reports, unsafe_reports;
    cbn [areaDocs feedbackDocs areaReports appFeedbacks].
  split; [exists []; rewrite app_nil_r; split; [reflexivity | cbn; lia]|].
  split; [|split; [|auto]].
  - intro g'. unfold setDoc. destruct (String.eqb_spec g' g) as [-> | Hne].
    + unfold updatedArea. destruct (areaDocs d g); destruct isSafe;
        cbn [safeCount unsafeCount]; lra.
    + destruct (areaDocs d g'); lra.
  - intros g' H. unfold setDoc. destruct (String.eqb g' g); [discriminate | exact H].
Qed.

Lemma extends_record (d0 d : Database) (u g : string) (t : Z) :
  extends d0 d -> extends d0 (recordUserFeedback d u g t).
Proof.
  unfold extends, recordUserFeedback, safe_reports, unsafe_reports;
    cbn [areaDocs feedbackDocs areaReports appFeedbacks].
  intros [Hr [Hc [Ha [Hf Happ]]]].
  split; [exact Hr|]. split; [exact Hc|]. split; [exact Ha|]. split; [|exact Happ].
  intros k Hk. unfold setDoc. destruct (String.eqb k (u ++ "_" ++ g));
    [discriminate | now apply Hf].
Qed.

Lemma extends_report (d0 d : Database) (r : AreaReport) :
  areaReports d = areaReports d0 -> extends d0 d -> extends d0 (addReport d r).
Proof.
  unfold extends, addReport, safe_reports, unsafe_reports;
    cbn [areaDocs feedbackDocs areaReports appFeedbacks].
  intros Hsame [_ [Hc [Ha [Hf Happ]]]].
  split; [|auto]. exists [r]. rewrite Hsame. split; [reflexivity | cbn; lia].
Qed.

Lemma submit_extends (cu : option string) (faults : Faults) (clock : Clock)
    (d : Database) (latitude longitude : number) (isSafe : bool)
    (experienceText : option string) (ratings : option SafetyRatings) :
  extends d (snd (submitSafetyFeedback cu faults clock d latitude longitude isSafe
                    experienceText ratings)).
Proof.
  unfold submitSafetyFeedback. destruct cu as [u|]; [|apply extends_refl].
  cbv zeta.
  destruct (negb (canSubmit _)); [apply extends_refl|].
  destruct (transactionFails faults); [apply extends_refl|].
  destruct (recordFails faults); [apply extends_transaction|].
  destruct (reportFails faults);
    [apply extends_record, extends_transaction|].
  cbn [snd]. apply extends_report; [reflexivity|].
  apply extends_record, extends_transaction.
Qed.

End StoreGrowth.

(** X12.  Whatever a call of the submission function is given and whichever
    of its operations fail, the store only grows: the report log keeps its
    entries and gains at most one, no cell's safe or unsafe count decreases
    and the two together rise by at most one, no area document and no
    cooldown record disappears, and the app feedback is untouched. *)
Theorem X12_submission_never_removes (cu : option string) (faults : Faults)
    (clock : Clock) (d : Database) (latitude longitude : number) (isSafe : bool)
    (experienceText : option string) (ratings : option SafetyRatings) :
  let d' := snd (submitSafetyFeedback cu faults clock d latitude longitude isSafe
                   experienceText ratings) in
  (exists added, areaReports d' = areaReports d ++ added /\ (List.length added <= 1)%nat) /\
  (forall g,
     safe_reports d g <= safe_reports d' g /\
     unsafe_reports d g <= unsafe_reports d' g /\
     safe_reports d' g + unsafe_reports d' g <=
       safe_reports d g + unsafe_reports d g + 1) /\
  (forall g, areaDocs d g <> None -> areaDocs d' g <> None) /\
  (forall k, feedbackDocs d k <> None -> feedbackDocs d' k <> None) /\
  appFeedbacks d' = appFeedbacks d.
Proof.
  exact (submit_extends cu faults clock d latitude longitude isSafe experienceText
           ratings).
Qed.

(** X13.  The count update and the cooldown record can diverge: when the
    cooldown write of a call fails after its transaction has committed, the
    call reports failure although the cell's count has already been raised,
    no cooldown record and no report is written, and the same user's next
    call is accepted and raises the count again - two counted answers, one
    logged report. *)
Theorem X13_failed_cooldown_write_counts_twice (u : string) (clock clock' : Clock)
    (d : Database) (latitude longitude : number) (isSafe : bool)
    (text text' : option string) (ratings ratings' : option SafetyRatings)
    (Hfresh : feedbackDocs d (cooldown_key u (getGridId latitude longitude)) = None) :
  let g := getGridId latitude longitude in
  let out1 := submitSafetyFeedback (Some u) only_record_fails clock d latitude longitude
                isSafe text ratings in
  let out2 := submitSafetyFeedback (Some u) no_faults clock' (snd out1) latitude
                longitude isSafe text' ratings' in
  success (fst out1) = false /\
  feedbackDocs (snd out1) (cooldown_key u g) = None /\
  areaReports (snd out1) = areaReports d /\
  success (fst out2) = true /\
  safe_reports (snd out2) g == safe_reports d g + (if isSafe then 2 else 0) /\
  unsafe_reports (snd out2) g == unsafe_reports d g + (if isSafe then 0 else 2) /\
  List.length (areaReports (snd out2)) = S (List.length (areaReports d)).
Proof.
  cbv zeta. set (g := getGridId latitude longitude).
  assert (E1 : submitSafetyFeedback (Some u) only_record_fails clock d latitude longitude
                 isSafe text ratings =
               (submit_failed, runAreaTransaction d g isSafe (transactionTime clock))).
  { unfold submitSafetyFeedback. fold g. cbn [eligibilityReadFails only_record_fails].
    rewrite (eligible_without_record d (clientNow clock) u g Hfresh). reflexivity. }
  rewrite E1. cbn [fst snd success submit_failed].
  set (d1 := runAreaTransaction d g isSafe (transactionTime clock)).
  assert (Hfresh1 : feedbackDocs d1 (cooldown_key u g) = None) by exact Hfresh.
  rewrite (submit_committed no_faults clock' d1 latitude longitude isSafe text' ratings' u);
    try reflexivity.
  2:{ cbn [eligibilityReadFails no_faults]. fold g.
      now apply eligible_without_record. }
  cbn [fst snd success]. fold g.
  split; [reflexivity|]. split; [exact Hfresh1|]. split; [reflexivity|].
  split; [reflexivity|].
  unfold safe_reports, unsafe_reports, addReport, recordUserFeedback, d1,
    runAreaTransaction; cbn [areaDocs feedbackDocs areaReports].
  rewrite !setDoc_same.
  split; [|split].
  - unfold updatedArea. destruct (areaDocs d g); destruct isSafe; cbn [safeCount]; lra.
  - unfold updatedArea. destruct (areaDocs d g); destruct isSafe; cbn [unsafeCount]; lra.
  - rewrite length_app. cbn [List.length]. lia.
Qed.

Lemma X13_failed_cooldown_write_counts_twice_witness :
  feedbackDocs empty_database (cooldown_key "alice" (getGridId 12.34 77.65)) = None /\
  success (fst (submitSafetyFeedback (Some "alice"%string) only_record_fails noon
                  empty_database 12.34 77.65 true None None)) = false /\
  safe_reports
    (snd (submitSafetyFeedback (Some "alice"%string) no_faults one_hour_later
            (snd (submitSafetyFeedback (Some "alice"%string) only_record_fails noon
                    empty_database 12.34 77.65 true None None))
            12.34 77.65 true None None))
    (getGridId 12.34 77.65) ==
  safe_reports empty_database (getGridId 12.34 77.65) + 2 /\
  List.length
    (areaReports
       (snd (submitSafetyFeedback (Some "alice"%string) no_faults one_hour_later
               (snd (submitSafetyFeedback (Some "alice"%string) only_record_fails noon
                       empty_database 12.34 77.65 true None None))
               12.34 77.65 true None None))) =
  S (List.length (areaReports empty_database)).
Proof.
  assert (Hfresh :
    feedbackDocs empty_database (cooldown_key "alice" (getGridId 12.34 77.65)) = None)
    by reflexivity.
  split; [exact Hfresh|].
  pose proof (X13_failed_cooldown_write_counts_twice "alice" noon one_hour_later
                empty_database 12.34 77.65 true None None None None Hfresh) as H.
  cbv zeta in H.
  destruct H as (H1 & _ & _ & _ & H5 & _ & H7).
  split; [exact H1|]. split; [exact H5 | exact H7].
Defined.

(** X14.  The public eligibility check predicts the submission: for the same
    user, store, cell and clock, and the same fate of the cooldown read, a
    negative answer means that submitting is refused with the very message of
    the check and without any change of the store, and a positive answer
    means that submitting succeeds unless one of its writes fails. *)
Theorem X14_check_predicts_submission (cu : option string) (faults : Faults)
    (clock : Clock) (d : Database) (latitude longitude : number) (isSafe : bool)
    (experienceText : option string) (ratings : option SafetyRatings) :
  let answer :=
    checkFeedbackEligibility cu (eligibilityReadFails faults) (clientNow clock) d
      (getGridId latitude longitude) in
  let out := submitSafetyFeedback cu faults clock d latitude longitude isSafe
               experienceText ratings in
  (ans_canSubmit answer = false ->
     success (fst out) = false /\ snd out = d /\
     ans_message answer = Some (message (fst out))) /\
  (ans_canSubmit answer = true ->
     transactionFails faults = false -> recordFails faults = false ->
     reportFails faults = false ->
     success (fst out) = true).
Proof.
  cbv zeta. unfold checkFeedbackEligibility.
  destruct cu as [u|].
  - destruct (canSubmit (canUserSubmitFeedback
                (snapshot (eligibilityReadFails faults) false d) (clientNow clock) u
                (getGridId latitude longitude))) eqn:He; cbn [negb ans_canSubmit ans_message].
    + split; [discriminate|]. intros _ Ht Hr Hp.
      now rewrite (submit_committed faults clock d latitude longitude isSafe
                     experienceText ratings u He Ht Hr Hp).
    + split; [|discriminate]. intros _.
      unfold submitSafetyFeedback. rewrite He. cbn. auto.
  - cbn. split; [auto | discriminate].
Qed.

(** X15.  App feedback is written once: after a user's feedback has been
    stored, a later call of the same user whose existence check can read the
    store is turned down and changes nothing.  The check fails open, though:
    when its read fails the call is treated as the first one and, unless the
    write fails too, replaces the stored feedback. *)
Theorem X15_app_feedback_once_unless_read_fails (u : string) (readFails : bool)
    (serverTime : Z) (d : Database) (rating : number) (feedbackText : string)
    (Hstored :
       app_success (fst (submitAppFeedback (Some u) readFails false serverTime d rating
                           feedbackText)) = true) :
  let d1 := snd (submitAppFeedback (Some u) readFails false serverTime d rating
                   feedbackText) in
  appFeedbacks d1 u =
    Some {| FirebaseSafety.rating := rating; FirebaseSafety.feedbackText := trim feedbackText;
            app_timestamp := serverTime; app_userId := u |} /\
  forall (writeFails : bool) (serverTime' : Z) (rating' : number) (text' : string),
    (let out := submitAppFeedback (Some u) false writeFails serverTime' d1 rating' text' in
     app_success (fst out) = false /\ snd out = d1) /\
    (let out := submitAppFeedback (Some u) true false serverTime' d1 rating' text' in
     app_success (fst out) = true /\
     appFeedbacks (snd out) u =
       Some {| FirebaseSafety.rating := rating';
               FirebaseSafety.feedbackText := trim text';
               app_timestamp := serverTime'; app_userId := u |}).
Proof.
  cbv zeta.
  assert (E : snd (submitAppFeedback (Some u) readFails false serverTime d rating
                     feedbackText) =
              {| areaDocs := areaDocs d;
                 feedbackDocs := feedbackDocs d;
                 areaReports := areaReports d;
                 appFeedbacks :=
                   setDoc (appFeedbacks d) u
                     {| FirebaseSafety.rating := rating;
                        FirebaseSafety.feedbackText := trim feedbackText;
                        app_timestamp := serverTime; app_userId := u |} |}).
  { revert Hstored. unfold submitAppFeedback.
    destruct (getExistingAppFeedback (Some u) readFails d); [cbn; discriminate|].
    reflexivity. }
  rewrite E. cbn [appFeedbacks].
  split; [apply setDoc_same|].
  intros writeFails serverTime' rating' text'. split.
  - unfold submitAppFeedback, getExistingAppFeedback; cbn [appFeedbacks].
    rewrite setDoc_same. cbn [fst snd app_success]. auto.
  - unfold submitAppFeedback, getExistingAppFeedback. cbn [fst snd app_success appFeedbacks].
    split; [reflexivity | apply setDoc_same].
Qed.

Lemma X15_app_feedback_once_unless_read_fails_witness :
  app_success (fst (submitAppFeedback (Some "alice"%string) false false 43200000%Z
                      empty_database 5 " works well "%string)) = true /\
  appFeedbacks
    (snd (submitAppFeedback (Some "alice"%string) false false 43200000%Z empty_database 5
            " works well "%string)) "alice"%string =
    Some {| FirebaseSafety.rating := 5;
            FirebaseSafety.feedbackText := trim " works well "%string;
            app_timestamp := 43200000%Z; app_userId := "alice"%string |} /\
  app_success
    (fst (submitAppFeedback (Some "alice"%string) false false 46800000%Z
            (snd (submitAppFeedback (Some "alice"%string) false false 43200000%Z
                    empty_database 5 " works well "%string))
            1 "changed my mind"%string)) = false.
Proof.
  assert (Hstored :
    app_success (fst (submitAppFeedback (Some "alice"%string) false false 43200000%Z
                        empty_database 5 " works well "%string)) = true)
    by reflexivity.
  split; [exact Hstored|].
  pose proof (X15_app_feedback_once_unless_read_fails "alice" false 43200000%Z
                empty_database 5 " works well "%string Hstored) as H.
  cbv zeta in H. destruct H as [H1 H2].
  split; [exact H1|].
  exact (proj1 (proj1 (H2 false 46800000%Z 1 "changed my mind"%string))).
Defined.

(** * Further properties of area and route scores *)

Section AreaScoreOrder.

Lemma calculateAreaSafetyScore_positive_total (s u : Q) :
  0 < s + u ->
  calculateAreaSafetyScore s u = Math_round (s / (s + u) * 100).
Proof.
  intro H. unfold calculateAreaSafetyScore.
  destruct (strict_eq (s + u) 0) eqn:E; [|reflexivity].
  unfold strict_eq in E. apply Qeq_bool_iff in E. lra.
Qed.

Lemma calculateAreaSafetyScore_zero_total (s u : Q) :
  s + u == 0 -> calculateAreaSafetyScore s u = 50%Z.
Proof.
  intro H. unfold calculateAreaSafetyScore.
  destruct (strict_eq (s + u) 0) eqn:E; [reflexivity|].
  unfold strict_eq in E. apply Qeq_bool_neq in E. contradiction.
Qed.

Lemma share_unit (s u : Q) : 0 <= s -> 0 <= u -> 0 < s + u -> 0 <= s / (s + u) <= 1.
Proof.
  intros Hs Hu Ht. split.
  - apply Qle_shift_div_l; [assumption | lra].
  - apply Qle_shift_div_r; [assumption | lra].
Qed.

Lemma calculateAreaSafetyScore_range (s u : Q) :
  0 <= s -> 0 <= u -> (0 <= calculateAreaSafetyScore s u <= 100)%Z.
Proof.
  intros Hs Hu. destruct (Qlt_le_dec 0 (s + u)) as [Ht | Ht].
  - rewrite calculateAreaSafetyScore_positive_total by assumption.
    destruct (share_unit s u Hs Hu Ht) as [H0 H1].
    apply Math_round_between.
    + change (inject_Z 0) with 0. lra.
    + change (inject_Z 100) with 100. lra.
  - rewrite calculateAreaSafetyScore_zero_total by lra. lia.
Qed.

Lemma share_monotone (s u s' u' : Q) :
  0 <= s -> 0 <= u' -> s <= s' -> u' <= u -> 0 < s + u -> 0 < s' + u' ->
  s / (s + u) <= s' / (s' + u').
Proof.
  intros Hs Hu' Hss Huu Ht Ht'.
  apply Qle_shift_div_l; [assumption|].
  setoid_replace (s / (s + u) * (s' + u')) with (s * (s' + u') / (s + u))
    by (field; lra).
  apply Qle_shift_div_r; [assumption|]. nra.
Qed.

End AreaScoreOrder.

(** X16.  For non-negative counts the area score lies between 0 and 100 and
    is monotone: more safe reports, or fewer unsafe ones, never lower it -
    also across the neutral 50 of a cell without reports. *)
Theorem X16_area_score_monotone (s u s' u' : Q)
    (Hs : 0 <= s) (Hu' : 0 <= u') (Hss : s <= s') (Huu : u' <= u) :
  (0 <= calculateAreaSafetyScore s u <= 100)%Z /\
  (calculateAreaSafetyScore s u <= calculateAreaSafetyScore s' u')%Z.
Proof.
  split; [apply calculateAreaSafetyScore_range; lra|].
  destruct (Qlt_le_dec 0 (s + u)) as [Ht | Ht];
    destruct (Qlt_le_dec 0 (s' + u')) as [Ht' | Ht'].
  - rewrite !calculateAreaSafetyScore_positive_total by assumption.
    apply Math_round_le.
    pose proof (share_monotone s u s' u' Hs Hu' Hss Huu Ht Ht'). lra.
  - (* the better counts are empty: the worse ones hold unsafe reports only *)
    rewrite (calculateAreaSafetyScore_zero_total s' u') by lra.
    rewrite calculateAreaSafetyScore_positive_total by assumption.
    assert (Hzero : s == 0) by lra.
    assert (E : s / (s + u) * 100 == inject_Z 0).
    { rewrite Hzero. change (inject_Z 0) with 0. field. lra. }
    rewrite (Math_round_comp _ _ E), Math_round_Z. lia.
  - (* the worse counts are empty: the better ones hold safe reports only *)
    rewrite (calculateAreaSafetyScore_zero_total s u) by lra.
    rewrite calculateAreaSafetyScore_positive_total by assumption.
    assert (Hzero : u' == 0) by lra.
    assert (E : s' / (s' + u') * 100 == inject_Z 100).
    { rewrite Hzero. change (inject_Z 100) with 100. field. lra. }
    rewrite (Math_round_comp _ _ E), Math_round_Z. lia.
  - rewrite !calculateAreaSafetyScore_zero_total by lra. lia.
Qed.

Lemma X16_area_score_monotone_witness :
  (0 <= 3 /\ 0 <= 1 /\ 3 <= 4 /\ 1 <= 2) /\
  (0 <= calculateAreaSafetyScore 3%Q 2%Q <= 100)%Z /\
  (calculateAreaSafetyScore 3%Q 2%Q <= calculateAreaSafetyScore 4%Q 1%Q)%Z.
Proof.
  assert (Hs : 0 <= 3) by discriminate.
  assert (Hu' : 0 <= 1) by discriminate.
  assert (Hss : 3 <= 4) by discriminate.
  assert (Huu : 1 <= 2) by discriminate.
  split; [repeat split; assumption|].
  exact (X16_area_score_monotone 3 2 4 1 Hs Hu' Hss Huu).
Defined.

Section ScoreMaps.


Lemma Set_spread_length (xs : list string) :
  (List.length (Set_spread xs) <= List.length xs)%nat.
Proof.
  destruct (Set_spread_distinct xs) as [Hnd Hmem].
  apply NoDup_incl_length; [assumption|].
  intros x Hx. now apply Hmem.
Qed.

Lemma sumZ_bounds (lo hi : Z) (xs : list Z) :
  Forall (fun x => (lo <= x <= hi)%Z) xs ->
  (lo * Z.of_nat (List.length xs) <= sumZ xs <= hi * Z.of_nat (List.length xs))%Z.
Proof.
  induction 1 as [|x xs Hx Hxs IH]; cbn [sumZ fold_right List.length].
  - lia.
  - fold (sumZ xs). rewrite Nat2Z.inj_succ. lia.
Qed.

Lemma sumZ_permutation (xs ys : list Z) : Permutation xs ys -> sumZ xs = sumZ ys.
Proof.
  induction 1; cbn [sumZ fold_right]; fold sumZ; try lia.
  unfold sumZ in *. lia.
Qed.

Lemma filter_length_permutation {A : Type} (p : A -> bool) (xs ys : list A) :
  Permutation xs ys -> List.length (filter p xs) = List.length (filter p ys).
Proof.
  induction 1; cbn [filter]; try lia.
  - destruct (p x); cbn [List.length]; lia.
  - destruct (p x); destruct (p y); cbn [List.length]; lia.
Qed.

End ScoreMaps.


Section RouteScoreFacts.

Variable db : Firestore.

Hypothesis counts_nonnegative :
  forall g a, areas db g = Resolved (Some a) -> 0 <= safeCount a /\ 0 <= unsafeCount a.

Lemma getAreaSafetyScore_range (g : string) :
  (0 <= getAreaSafetyScore db g <= 100)%Z.
Proof.
  unfold getAreaSafetyScore, getAreaSafetyData.
  destruct (areas db g) as [|[a|]] eqn:E; try lia.
  destruct (counts_nonnegative g a E) as [Hs Hu].
  now apply calculateAreaSafetyScore_range.
Qed.

Lemma mean_score_range (gs : list string) :
  gs <> [] ->
  (0 <= Math_round (inject_Z (sumZ (map (getAreaSafetyScore db) gs)) /
                    inject_Z (Z.of_nat (List.length gs))) <= 100)%Z.
Proof.
  intro Hne.
  assert (Hall : Forall (fun x => (0 <= x <= 100)%Z) (map (getAreaSafetyScore db) gs)).
  { apply Forall_forall. intros x Hx. apply in_map_iff in Hx.
    destruct Hx as [g [<- _]]. apply getAreaSafetyScore_range. }
  pose proof (sumZ_bounds 0 100 _ Hall) as [Hlo Hhi].
  rewrite length_map in Hlo, Hhi.
  assert (Hn : (0 < Z.of_nat (List.length gs))%Z).
  { destruct gs; [congruence|]. cbn [List.length]. lia. }
  set (n := Z.of_nat (List.length gs)) in *.
  set (total := sumZ (map (getAreaSafetyScore db) gs)) in *.
  assert (HnQ : 0 < inject_Z n) by (change 0 with (inject_Z 0); now rewrite <- Zlt_Qlt).
  apply Math_round_between.
  - change (inject_Z 0) with 0. apply Qle_shift_div_l; [assumption|].
    setoid_replace (0 * inject_Z n) with (inject_Z 0) by (change (inject_Z 0) with 0; ring).
    rewrite <- Zle_Qle. lia.
  - apply Qle_shift_div_r; [assumption|].
    change (inject_Z 100) with (inject_Z 100). rewrite <- inject_Z_mult, <- Zle_Qle. lia.
Qed.

End RouteScoreFacts.

(** X18.  For a route with at least one point, in a store whose counts are
    non-negative, the route aggregator reports the number of distinct cells
    of the points, the rounded mean of the scores of these cells, and the
    number of these cells whose score is not 50; so there is at least one
    cell and at most one per point, the covered cells are at most the cells,
    and the score lies between 0 and 100.  A route without points gets
    score 50 over no cells. *)
Theorem X18_route_community_score_summary (db : Firestore) (routePoints : list Point)
    (Hcounts : forall g a, areas db g = Resolved (Some a) ->
                 0 <= safeCount a /\ 0 <= unsafeCount a) :
  let result := calculateRouteCommunityScore db routePoints in
  let cells := Set_spread (map (fun p => getGridId (lat p) (lng p)) routePoints) in
  let cellScores := map (getAreaSafetyScore db) cells in
  (routePoints = [] -> result = {| score := 50; coveredGrids := 0; totalGrids := 0 |}) /\
  (routePoints <> [] ->
     totalGrids result = Z.of_nat (List.length cells) /\
     score result =
       Math_round (inject_Z (sumZ cellScores) / inject_Z (Z.of_nat (List.length cells))) /\
     coveredGrids result =
       Z.of_nat (List.length (filter (fun s => negb (s =? 50)%Z) cellScores)) /\
     (1 <= totalGrids result <= Z.of_nat (List.length routePoints))%Z /\
     (0 <= coveredGrids result <= totalGrids result)%Z /\
     (0 <= score result <= 100)%Z).
Proof.
  cbv zeta. split; [intros ->; reflexivity|]. intro Hne.
  destruct (calculateRouteCommunityScore_computes db routePoints Hne)
    as [Hcells [Htotal [Hscore Hcovered]]].
  cbv zeta in Hcells, Htotal, Hscore, Hcovered.
  set (cells := Set_spread (map (fun p => getGridId (lat p) (lng p)) routePoints)) in *.
  split; [exact Htotal|]. split; [exact Hscore|]. split; [exact Hcovered|].
  rewrite Htotal, Hscore, Hcovered.
  split; [|split].
  - split.
    + destruct cells; [congruence|]. cbn [List.length]. lia.
    + pose proof (Set_spread_length (map (fun p => getGridId (lat p) (lng p)) routePoints))
        as H. fold cells in H. rewrite length_map in H. lia.
  - split; [lia|].
    pose proof (filter_length_le (fun s => negb (s =? 50)%Z)
                  (map (getAreaSafetyScore db) cells)) as H.
    rewrite length_map in H. lia.
  - now apply mean_score_range.
Qed.

Lemma X18_route_community_score_summary_witness :
  calculateRouteCommunityScore balanced_store [] =
    {| score := 50; coveredGrids := 0; totalGrids := 0 |} /\
  (1 <= totalGrids (calculateRouteCommunityScore balanced_store
                      [balanced_point; nearby_point])
     <= Z.of_nat (List.length [balanced_point; nearby_point]))%Z /\
  (0 <= score (calculateRouteCommunityScore balanced_store
                 [balanced_point; nearby_point]) <= 100)%Z.
Proof.
  assert (Hcounts : forall g a, areas balanced_store g = Resolved (Some a) ->
                      0 <= safeCount a /\ 0 <= unsafeCount a).
  { intros g a. unfold balanced_store. cbn [areas].
    destruct (String.eqb g "12.34_77.65"); intros [= <-].
    cbn. split; discriminate. }
  split.
  - exact (proj1 (X18_route_community_score_summary balanced_store [] Hcounts) eq_refl).
  - pose proof (proj2 (X18_route_community_score_summary balanced_store
                         [balanced_point; nearby_point] Hcounts)
                  ltac:(discriminate)) as H.
    cbv zeta in H. destruct H as (_ & _ & _ & H4 & _ & H6).
    split; [exact H4 | exact H6].
Defined.

(** X19.  The route score depends on the set of cells the route touches and
    on nothing else: two routes whose points fall into the same cells - in
    any order, with any repetition - get the same score, the same covered
    count and the same total. *)
Theorem X19_route_score_depends_on_cells_only (db : Firestore)
    (points points' : list Point)
    (Hsame : forall g,
       In g (map (fun p => getGridId (lat p) (lng p)) points) <->
       In g (map (fun p => getGridId (lat p) (lng p)) points')) :
  calculateRouteCommunityScore db points = calculateRouteCommunityScore db points'.
Proof.
  destruct points as [|p ps]; destruct points' as [|p' ps'].
  - reflexivity.
  - exfalso. apply (proj2 (Hsame (getGridId (lat p') (lng p')))). now left.
  - exfalso. apply (proj1 (Hsame (getGridId (lat p) (lng p)))). now left.
  - destruct (calculateRouteCommunityScore_computes db (p :: ps) ltac:(discriminate))
      as [_ [Ht [Hs Hc]]].
    destruct (calculateRouteCommunityScore_computes db (p' :: ps') ltac:(discriminate))
      as [_ [Ht' [Hs' Hc']]].
    cbv zeta in Ht, Hs, Hc, Ht', Hs', Hc'.
    set (gids := map (fun q => getGridId (lat q) (lng q)) (p :: ps)) in *.
    set (gids' := map (fun q => getGridId (lat q) (lng q)) (p' :: ps')) in *.
    assert (Hperm : Permutation (Set_spread gids) (Set_spread gids')).
    { destruct (Set_spread_distinct gids) as [Hnd Hmem].
      destruct (Set_spread_distinct gids') as [Hnd' Hmem'].
      apply NoDup_Permutation; try assumption.
      intro g. rewrite Hmem, Hmem'. apply Hsame. }
    assert (Hscores : Permutation (map (getAreaSafetyScore db) (Set_spread gids))
                        (map (getAreaSafetyScore db) (Set_spread gids')))
      by (now apply Permutation_map).
    rewrite (Permutation_length Hperm) in Ht, Hs.
    rewrite (sumZ_permutation _ _ Hscores) in Hs.
    rewrite (filter_length_permutation _ _ _ Hscores) in Hc.
    destruct (calculateRouteCommunityScore db (p :: ps)) as [s c t].
    destruct (calculateRouteCommunityScore db (p' :: ps')) as [s' c' t'].
    cbn [score coveredGrids totalGrids] in *. congruence.
Qed.

Lemma X19_route_score_depends_on_cells_only_witness :
  calculateRouteCommunityScore balanced_store [balanced_point; nearby_point] =
  calculateRouteCommunityScore balanced_store [balanced_point].
Proof.
  apply (X19_route_score_depends_on_cells_only balanced_store
           [balanced_point; nearby_point] [balanced_point]).
  intro g. cbn [map In].
  assert (E : getGridId (lat nearby_point) (lng nearby_point) =
              getGridId (lat balanced_point) (lng balanced_point)).
  { vm_compute. reflexivity. }
  rewrite E. tauto.
Defined.

(** * Grid ids read back *)

Section DecimalStrings.











End DecimalStrings.

Section GridIdShape.

Lemma lt_inject_Z (a b : Z) : JS.lt (inject_Z a) (inject_Z b) = (a <? b)%Z.
Proof.
  unfold JS.lt. change (Qle_bool (inject_Z b) (inject_Z a)) with (leq (inject_Z b) (inject_Z a)).
  rewrite leq_inject_Z. rewrite Z.ltb_antisym. reflexivity.
Qed.



Lemma split_on_lacking (sep : ascii) (s : string) :
  lacks sep s = true -> split_on sep s = [s].
Proof.
  induction s as [|a s IH]; cbn [lacks split_on]; [reflexivity|].
  intro H. apply andb_true_iff in H. destruct H as [Ha Hs].
  apply negb_true_iff in Ha. rewrite Ha, (IH Hs). reflexivity.
Qed.


Lemma split_on_nonempty (sep : ascii) (s : string) : split_on sep s <> [].
Proof.
  destruct s as [|a s]; cbn [split_on]; [discriminate|].
  destruct (Ascii.eqb a sep); [discriminate|].
  destruct (split_on sep s); discriminate.
Qed.

Lemma split_on_parts (sep : ascii) (s t : string) :
  List.length (split_on sep (s ++ String sep t)) =
  (List.length (split_on sep s) + List.length (split_on sep t))%nat.
Proof.
  induction s as [|a s IH]; cbn [append split_on].
  - now rewrite Ascii.eqb_refl.
  - destruct (Ascii.eqb a sep).
    + cbn [List.length]. now rewrite IH.
    + pose proof (split_on_nonempty sep (s ++ String sep t)) as H1.
      pose proof (split_on_nonempty sep s) as H2.
      destruct (split_on sep (s ++ String sep t)); [congruence|].
      destruct (split_on sep s); [congruence|].
      cbn [List.length] in *. exact IH.
Qed.






End GridIdShape.

Section GridIdParse.







End GridIdParse.



(** X22.  [parseGridId] turns down every text that does not consist of
    exactly two parts around one underscore: a text without underscore, and
    a text with two or more, give no position. *)
Theorem X22_parse_grid_id_needs_two_parts :
  (forall s, lacks "_" s = true -> parseGridId s = None) /\
  (forall s t u, parseGridId (s ++ "_" ++ t ++ "_" ++ u) = None).
Proof.
  split.
  - intros s H. unfold parseGridId. now rewrite (split_on_lacking _ _ H).
  - intros s t u. unfold parseGridId.
    pose proof (split_on_parts "_" s (t ++ "_" ++ u)) as H.
    pose proof (split_on_parts "_" t u) as H'.
    cbn [append] in H, H' |- *. rewrite H' in H. clear H'.
    pose proof (split_on_nonempty "_" s) as Hs.
    pose proof (split_on_nonempty "_" t) as Ht.
    pose proof (split_on_nonempty "_" u) as Hu.
    destruct (split_on "_" (s ++ String "_" (t ++ String "_" u))) as [|p0 [|p1 [|p2 l]]];
      try reflexivity.
    exfalso.
    destruct (split_on "_" s); [congruence|].
    destruct (split_on "_" t); [congruence|].
    destruct (split_on "_" u); [congruence|].
    cbn [List.length] in H. lia.
Qed.

(** * Polyline decoding *)

Section Polyline.

Lemma strict_eq_inject_Z (z : Z) : strict_eq (inject_Z z) 0 = (z =? 0)%Z.
Proof.
  unfold strict_eq, Qeq_bool, inject_Z. cbn [Qnum Qden].
  rewrite Z.mul_1_r. cbn. destruct z; reflexivity.
Qed.

Lemma strict_eq_zero_compat (a b : Q) : a == b -> strict_eq a 0 = strict_eq b 0.
Proof.
  intro E. unfold strict_eq.
  destruct (Qeq_bool a 0) eqn:Ha, (Qeq_bool b 0) eqn:Hb; try reflexivity.
  - apply Qeq_bool_iff in Ha. rewrite E in Ha. apply Qeq_bool_iff in Ha. congruence.
  - apply Qeq_bool_iff in Hb. rewrite <- E in Hb. apply Qeq_bool_iff in Hb. congruence.
Qed.

Lemma sampled_integer (c k : Z) :
  (0 <= c)%Z -> (1 <= k)%Z -> sampled c (inject_Z k) = (c mod k =? 0)%Z.
Proof.
  intros Hc Hk. unfold sampled.
  rewrite strict_eq_inject_Z. rewrite (proj2 (Z.eqb_neq k 0)) by lia.
  assert (HkQ : 0 < inject_Z k).
  { change 0 with (inject_Z 0). rewrite <- Zlt_Qlt. lia. }
  assert (Hnonneg : 0 <= inject_Z c / inject_Z k).
  { apply Qle_shift_div_l; [assumption|].
    setoid_replace (0 * inject_Z k) with (inject_Z 0) by (change (inject_Z 0) with 0; ring).
    rewrite <- Zle_Qle. lia. }
  unfold truncate. rewrite (proj2 (lt_false _ _) Hnonneg).
  rewrite <- Zdiv_Qdiv.
  rewrite <- inject_Z_mult.
  assert (E : inject_Z c - inject_Z (k * (c / k)) == inject_Z (c mod k)).
  { rewrite Z.mod_eq by lia. unfold Zminus. rewrite inject_Z_plus, inject_Z_opp.
    reflexivity. }
  rewrite (strict_eq_zero_compat _ _ E). apply strict_eq_inject_Z.
Qed.

Lemma sampled_every_point (c : Z) : (0 <= c)%Z -> sampled c 1 = true.
Proof.
  intro Hc. change 1 with (inject_Z 1). rewrite sampled_integer by lia.
  now rewrite Z.mod_1_r.
Qed.

Lemma sampled_never (c : Z) : sampled c 0 = false.
Proof. reflexivity. Qed.

Lemma read_chunk_shorter (input : list Z) (shift result : Z) :
  (List.length (snd (read_chunk input shift result)) <= List.length input)%nat /\
  (input <> [] ->
   (List.length (snd (read_chunk input shift result)) < List.length input)%nat).
Proof.
  revert shift result. induction input as [|code rest IH]; intros shift result.
  - cbn. split; [lia | congruence].
  - cbn [read_chunk]. cbv zeta.
    destruct (32 <=? code - 63)%Z.
    + destruct (IH (shift + 5)%Z
                  (Z.lor result (shift_left32 (Z.land (code - 63) 31) shift)))
        as [H _].
      cbn [List.length]. split; [lia | intros _; lia].
    + cbn [snd List.length]. split; [lia | intros _; lia].
Qed.

(** Rounds beyond the number of code units change nothing. *)
Lemma decode_loop_fuel_irrelevant (fuel fuel' : nat) (input : list Z)
    (lat lng count : Z) (interval : Q) :
  (List.length input <= fuel)%nat -> (List.length input <= fuel')%nat ->
  decode_loop fuel input lat lng count interval =
  decode_loop fuel' input lat lng count interval.
Proof.
  revert fuel' input lat lng count.
  induction fuel as [|fuel IH]; intros fuel' input lat lng count Hlen Hlen'.
  - destruct input; [now destruct fuel' | cbn in Hlen; lia].
  - destruct input as [|code rest]; [now destruct fuel'|].
    destruct fuel' as [|fuel']; [cbn in Hlen'; lia|].
    cbn [decode_loop].
    destruct (read_chunk (code :: rest) 0 0) as [r1 after_lat] eqn:E1.
    destruct (read_chunk after_lat 0 0) as [r2 after_lng] eqn:E2.
    assert (H1 : (List.length after_lat < List.length (code :: rest))%nat).
    { pose proof (proj2 (read_chunk_shorter (code :: rest) 0 0) ltac:(discriminate)) as H.
      now rewrite E1 in H. }
    assert (H2 : (List.length after_lng <= List.length after_lat)%nat).
    { pose proof (proj1 (read_chunk_shorter after_lat 0 0)) as H.
      now rewrite E2 in H. }
    cbn [List.length] in H1, Hlen, Hlen'.
    f_equal. apply IH; lia.
Qed.

Lemma decode_loop_enough_fuel (fuel : nat) (input : list Z) (lat lng count : Z)
    (interval : Q) :
  (List.length input <= fuel)%nat ->
  decode_loop fuel input lat lng count interval =
  decode_loop (List.length input) input lat lng count interval.
Proof.
  intro Hlen. apply decode_loop_fuel_irrelevant; [assumption | lia].
Qed.

Lemma decode_loop_sampling (fuel : nat) (input : list Z) (lat lng c k : Z) :
  (0 <= c)%Z -> (1 <= k)%Z ->
  decode_loop fuel input lat lng c (inject_Z k) =
  sample_from c k (decode_loop fuel input lat lng c 1).
Proof.
  intros Hc Hk. revert input lat lng c Hc.
  induction fuel as [|fuel IH]; intros input lat lng c Hc; [reflexivity|].
  destruct input as [|code rest]; [reflexivity|].
  cbn [decode_loop].
  destruct (read_chunk (code :: rest) 0 0) as [r1 after_lat].
  destruct (read_chunk after_lat 0 0) as [r2 after_lng].
  rewrite (sampled_every_point c Hc), (sampled_integer c k Hc Hk).
  cbn [app sample_from]. rewrite <- IH by lia. reflexivity.
Qed.

Lemma decode_loop_length (fuel : nat) (input : list Z) (lat lng count : Z)
    (interval : Q) :
  (List.length (decode_loop fuel input lat lng count interval) <= List.length input)%nat.
Proof.
  revert input lat lng count.
  induction fuel as [|fuel IH]; intros input lat lng count; [cbn; lia|].
  destruct input as [|code rest]; [cbn; lia|].
  cbn [decode_loop].
  destruct (read_chunk (code :: rest) 0 0) as [r1 after_lat] eqn:E1.
  destruct (read_chunk after_lat 0 0) as [r2 after_lng] eqn:E2.
  pose proof (proj2 (read_chunk_shorter (code :: rest) 0 0) ltac:(discriminate)) as H1.
  pose proof (proj1 (read_chunk_shorter after_lat 0 0)) as H2.
  rewrite E1 in H1. rewrite E2 in H2. cbn [snd] in H1, H2.
  rewrite length_app.
  specialize (IH after_lng (lat + signed_delta r1)%Z (lng + signed_delta r2)%Z
                (count + 1)%Z).
  destruct (sampled count interval); cbn [List.length] in *; lia.
Qed.

Lemma decode_loop_interval_zero (fuel : nat) (input : list Z) (lat lng count : Z) :
  decode_loop fuel input lat lng count 0 = [].
Proof.
  revert input lat lng count.
  induction fuel as [|fuel IH]; intros input lat lng count; [reflexivity|].
  destruct input as [|code rest]; [reflexivity|].
  cbn [decode_loop].
  destruct (read_chunk (code :: rest) 0 0) as [r1 after_lat].
  destruct (read_chunk after_lat 0 0) as [r2 after_lng].
  rewrite sampled_never. cbn [app]. apply IH.
Qed.

End Polyline.

(** X23.  Sampling does not touch the decoding: for a whole interval
    [k >= 1] the decoder returns every [k]-th point of the full decoding
    (interval 1), starting with the first point, which is therefore never
    dropped. *)
Theorem X23_polyline_sampling (encodedPolyline : list Z) (k : Z) (Hk : (1 <= k)%Z) :
  decodePolylineToPoints encodedPolyline (inject_Z k) =
    sample_from 0 k (decodePolylineToPoints encodedPolyline 1) /\
  hd_error (decodePolylineToPoints encodedPolyline (inject_Z k)) =
    hd_error (decodePolylineToPoints encodedPolyline 1).
Proof.
  unfold decodePolylineToPoints.
  rewrite (decode_loop_sampling _ encodedPolyline 0 0 0 k ltac:(lia) Hk).
  split; [reflexivity|].
  destruct (decode_loop (List.length encodedPolyline) encodedPolyline 0 0 0 1)
    as [|p rest]; [reflexivity|].
  cbn [sample_from]. rewrite Z.mod_0_l by lia. reflexivity.
Qed.

Lemma X23_polyline_sampling_witness :
  (1 <= 2)%Z /\
  decodePolylineToPoints (code_units encoded_path) (inject_Z 2) =
    sample_from 0 2 (decodePolylineToPoints (code_units encoded_path) 1) /\
  hd_error (decodePolylineToPoints (code_units encoded_path) (inject_Z 2)) =
    hd_error (decodePolylineToPoints (code_units encoded_path) 1).
Proof.
  assert (Hk : (1 <= 2)%Z) by lia.
  split; [exact Hk|].
  exact (X23_polyline_sampling (code_units encoded_path) 2 Hk).
Defined.

(** X24.  The decoder is total and bounded: it never returns more points
    than the text has code units, an empty text and a sample interval of 0
    give no points, and running its loop for more rounds than there are code
    units changes nothing. *)
Theorem X24_polyline_decoder_bounds (encodedPolyline : list Z) (sampleInterval : Q) :
  (List.length (decodePolylineToPoints encodedPolyline sampleInterval) <=
   List.length encodedPolyline)%nat /\
  decodePolylineToPoints [] sampleInterval = [] /\
  decodePolylineToPoints encodedPolyline 0 = [] /\
  (forall fuel, (List.length encodedPolyline <= fuel)%nat ->
     decode_loop fuel encodedPolyline 0 0 0 sampleInterval =
     decodePolylineToPoints encodedPolyline sampleInterval).
Proof.
  split; [apply decode_loop_length|]. split; [reflexivity|]. split.
  - apply decode_loop_interval_zero.
  - intros fuel Hfuel. now apply decode_loop_enough_fuel.
Qed.
